(** * FolderCrypto: a shallow embedding of the encryption engine

    The development follows the layout of [FolderCrypto/app]:
    - [Struct]: the [struct.pack] / [struct.unpack] formats the engine uses;
    - [Exn]: the exception classes of [core/exceptions.py];
    - [PyIO]: a state-and-exception monad (state survives a raised exception,
      as a partially written file does);
    - [Engine]: [core/crypto_engine.py] over an abstract AEAD primitive;
    - later sections: the manifest, the tree walker and the two services. *)

From Stdlib Require Import Strings.Byte Strings.Ascii.
From stdpp Require Import base numbers list strings pretty gmap sorting.

Set Default Proof Using "Type".
Local Open Scope N_scope.

(** ** Bytes and [struct] formats *)

Module Struct.

Definition byte_of_N (n : N) : byte :=
  match Byte.of_N (n mod 256) with Some b => b | None => x00 end.

Definition byte_xor (a b : byte) : byte :=
  byte_of_N (N.lxor (Byte.to_N a) (Byte.to_N b)).

(** Little-endian encoding of [v] on [n] bytes (the low [8 n] bits). *)
Fixpoint le_bytes (n : nat) (v : N) : list byte :=
  match n with
  | O => []
  | S n' => byte_of_N v :: le_bytes n' (v / 256)
  end.

Fixpoint le_value (bs : list byte) : N :=
  match bs with
  | [] => 0
  | b :: bs' => Byte.to_N b + 256 * le_value bs'
  end.

(** [struct.pack(fmt, v)] raises [struct.error] when [v] is out of range:
    [None] here. *)
Definition pack (size : nat) (v : N) : option (list byte) :=
  if decide (v < 256 ^ N.of_nat size) then Some (le_bytes size v) else None.

Definition pack_B := pack 1.
Definition pack_I := pack 4.
Definition pack_Q := pack 8.

(** [struct.unpack(fmt, bs)[0]]; the callers check the length first. *)
Definition unpack (bs : list byte) : N := le_value bs.

End Struct.

(** ** Exceptions ([core/exceptions.py]) *)

Module Exn.

Inductive cls :=
| FolderEncryptorError
| CryptoError
| DecryptionError
| EncryptionError
| InvalidPasswordError
| FileProcessingError
| InvalidMetadataError
| UnsupportedVersionError
(** exceptions that are not the package's own: *)
| StructError | IndexError | TypeError | OSError | ValueError | InvalidTag.

Global Instance cls_eq_dec : EqDecision cls.
Proof. solve_decision. Defined.

(** An exception object: its class and [str(e)]. *)
Record t := Raise_ { klass : cls; message : string }.

Global Instance t_eq_dec : EqDecision t.
Proof. solve_decision. Defined.

(** [isinstance(e, c)] for the package's hierarchy. *)
Definition subclass (c d : cls) : bool :=
  if decide (c = d) then true else
  match c, d with
  | (CryptoError | InvalidPasswordError | FileProcessingError
     | InvalidMetadataError | UnsupportedVersionError), FolderEncryptorError => true
  | (DecryptionError | EncryptionError), (CryptoError | FolderEncryptorError) => true
  | _, _ => false
  end.

Definition isinstance (e : t) (cs : list cls) : bool :=
  existsb (subclass (klass e)) cs.

End Exn.

Abbreviation exn := Exn.t.
Abbreviation Exc := Exn.Raise_.

(** ** A monad for Python code: state, and exceptions that keep the state *)

Module PyIO.

Inductive result (A : Type) :=
| Ok (a : A)
| Raise (e : exn).
Arguments Ok {A} a.
Arguments Raise {A} e.

Definition M (S A : Type) : Type := S → result A * S.

Definition ret {S A} (a : A) : M S A := λ s, (Ok a, s).
Definition bind {S A B} (m : M S A) (k : A → M S B) : M S B :=
  λ s, match m s with
       | (Ok a, s') => k a s'
       | (Raise e, s') => (Raise e, s')
       end.
Definition raise {S A} (e : exn) : M S A := λ s, (Raise e, s).
Definition get {S} : M S S := λ s, (Ok s, s).
Definition put {S} (s : S) : M S unit := λ _, (Ok tt, s).
Definition modify {S} (f : S → S) : M S unit := λ s, (Ok tt, f s).

(** [try: body except <classes> as e: handler e]; an empty class list is
    never used, [Exception] is [catch_all]. *)
Definition try_except {S A} (body : M S A) (cs : list Exn.cls)
    (handler : exn → M S A) : M S A :=
  λ s, match body s with
       | (Ok a, s') => (Ok a, s')
       | (Raise e, s') =>
           if Exn.isinstance e cs then handler e s' else (Raise e, s')
       end.

Definition try_except_all {S A} (body : M S A) (handler : exn → M S A) : M S A :=
  λ s, match body s with
       | (Ok a, s') => (Ok a, s')
       | (Raise e, s') => handler e s'
       end.

(** Running a computation on a sub-state (a file object inside the world). *)
Definition of_option {S A} (o : option A) (e : exn) : M S A :=
  match o with Some a => ret a | None => raise e end.

End PyIO.

Import PyIO.

Declare Scope py_scope.
Delimit Scope py_scope with py.
Notation "'let*' x := m 'in' k" := (bind m (λ x, k))
  (at level 10, x name, m at level 100, k at level 200,
   format "'[v' 'let*'  x  :=  m  'in' '/' k ']'") : py_scope.
Notation "m ;;; k" := (bind m (λ _, k))
  (at level 100, k at level 200, right associativity,
   format "'[v' m  ;;; '/' k ']'") : py_scope.
Open Scope py_scope.

(** ** File objects *)

(** A binary file object: the bytes it holds and the stream position.
    [input_file] is only read, [output_file] is only appended to. *)
Record files := Files {
  in_data : list byte;
  in_pos : nat;
  out_data : list byte
}.

Definition open_files (input : list byte) : files :=
  {| in_data := input; in_pos := 0%nat; out_data := [] |}.

(** The part of the input that has not been read yet. *)
Definition rest (s : files) : list byte := drop (in_pos s) (in_data s).

(** [input_file.read(n)] *)
Definition read (n : nat) : M files (list byte) :=
  λ s, let chunk := take n (drop (in_pos s) (in_data s)) in
       (Ok chunk, {| in_data := in_data s;
                     in_pos := (in_pos s + length chunk)%nat;
                     out_data := out_data s |}).

(** [input_file.seek(0, 2); size = input_file.tell(); input_file.seek(0)] *)
Definition size_and_rewind : M files N :=
  λ s, (Ok (N.of_nat (length (in_data s))),
        {| in_data := in_data s; in_pos := 0%nat; out_data := out_data s |}).

(** [output_file.write(bs)] *)
Definition write (bs : list byte) : M files unit :=
  λ s, (Ok tt, {| in_data := in_data s; in_pos := in_pos s;
                  out_data := out_data s ++ bs |}).

(** ** The crypto engine ([core/crypto_engine.py]) *)

Module Engine.

Definition KEY_SIZE : nat := 32.
Definition NONCE_SIZE : nat := 12.
Definition TAG_SIZE : nat := 16.
Definition CHUNK_SIZE : nat := 64 * 1024.
Definition VERSION : N := 1.

Definition struct_error : exn := Exc Exn.StructError "argument out of range".

Definition pack_B (v : N) : M files (list byte) := of_option (Struct.pack_B v) struct_error.
Definition pack_I (v : N) : M files (list byte) := of_option (Struct.pack_I v) struct_error.
Definition pack_Q (v : N) : M files (list byte) := of_option (Struct.pack_Q v) struct_error.

(** [_derive_chunk_nonce]: [nonce[-(8-i)] ^= chunk_bytes[i]] for [i] in
    [range(8)].  A negative index [-(8-i)] is position [len - (8-i)];
    it raises [IndexError] when [len < 8 - i]. *)
Definition xor_at (nonce : list byte) (i : nat) (c : byte) : option (list byte) :=
  if decide (8 - i ≤ length nonce)%nat then
    let j := (length nonce - (8 - i))%nat in
    (λ b, <[j := Struct.byte_xor b c]> nonce) <$> nonce !! j
  else None.

Fixpoint xor_loop (nonce : list byte) (i : nat) (chunk_bytes : list byte)
    : option (list byte) :=
  match chunk_bytes with
  | [] => Some nonce
  | c :: cs =>
      match xor_at nonce i c with
      | Some nonce' => xor_loop nonce' (S i) cs
      | None => None
      end
  end.

Definition _derive_chunk_nonce (base_nonce : list byte) (chunk_number : N)
    : result (list byte) :=
  match Struct.pack_Q chunk_number with
  | None => Raise struct_error
  | Some chunk_bytes =>
      match xor_loop base_nonce 0 chunk_bytes with
      | Some nonce => Ok nonce
      | None => Raise (Exc Exn.IndexError "bytearray index out of range")
      end
  end.

Definition derive_chunk_nonce (base_nonce : list byte) (chunk_number : N)
    : M files (list byte) :=
  λ s, (_derive_chunk_nonce base_nonce chunk_number, s).

Definition decryption_failed : string :=
  "Decryption failed: wrong password or corrupted data".
Definition metadata_decryption_failed : string :=
  "Metadata decryption failed: wrong password or corrupted data".

Section WithAEAD.

(** [AESGCM(key).encrypt(nonce, data, ad)] and [.decrypt(nonce, data, ad)];
    [None] is [InvalidTag]. *)
Variable seal : list byte → list byte → list byte → list byte → list byte.
Variable unseal : list byte → list byte → list byte → list byte → option (list byte).

(** The engine object holds [AESGCM(key)]. *)
Record t := Make { key : list byte }.

(** [CryptoEngine.__init__] *)
Definition init (k : list byte) : result t :=
  if decide (length k = KEY_SIZE) then Ok (Make k)
  else Raise (Exc Exn.EncryptionError
                ("Key must be exactly " +:+ pretty KEY_SIZE +:+ " bytes, got "
                 +:+ pretty (length k))).

(** The [while True] loop of [encrypt_file] (lines 86-104); [fuel] bounds
    the number of iterations. *)
Fixpoint encrypt_loop (self : t) (nonce associated_data : list byte)
    (fuel : nat) (chunk_number : N) : M files unit :=
  match fuel with
  | O => ret tt
  | S fuel' =>
      let* chunk := read CHUNK_SIZE in
      match chunk with
      | [] => ret tt
      | _ =>
          let* cn := pack_Q chunk_number in
          let chunk_ad := associated_data ++ cn in
          let* chunk_nonce := derive_chunk_nonce nonce chunk_number in
          let encrypted_chunk := seal (key self) chunk_nonce chunk chunk_ad in
          let* len := pack_I (N.of_nat (length encrypted_chunk)) in
          write len ;;;
          write encrypted_chunk ;;;
          encrypt_loop self nonce associated_data fuel' (chunk_number + 1)
      end
  end.

(** [encrypt_file]; [nonce] is the value of [self.generate_nonce()] at
    line 72. *)
Definition encrypt_file (self : t) (nonce associated_data : list byte)
    : M files unit :=
  try_except_all
    (let* file_size := size_and_rewind in
     let* v := pack_B VERSION in
     write v ;;;
     write nonce ;;;
     let* sz := pack_Q file_size in
     write sz ;;;
     let* s := get in
     encrypt_loop self nonce associated_data (S (length (in_data s))) 0)
    (λ e, raise (Exc Exn.EncryptionError ("Encryption failed: " +:+ Exn.message e))).

(** The [while True] loop of [decrypt_file] (lines 152-183). *)
Fixpoint decrypt_loop (self : t) (nonce associated_data : list byte)
    (fuel : nat) (chunk_number total_decrypted : N) : M files N :=
  match fuel with
  | O => ret total_decrypted
  | S fuel' =>
      let* chunk_size_bytes := read 4 in
      match chunk_size_bytes with
      | [] => ret total_decrypted
      | _ =>
          if decide (length chunk_size_bytes ≠ 4%nat) then
            raise (Exc Exn.DecryptionError "Invalid file: corrupted chunk size")
          else
            let chunk_size := Struct.unpack chunk_size_bytes in
            let* encrypted_chunk := read (N.to_nat chunk_size) in
            if decide (N.of_nat (length encrypted_chunk) ≠ chunk_size) then
              raise (Exc Exn.DecryptionError "Invalid file: corrupted chunk data")
            else
              let* cn := pack_Q chunk_number in
              let chunk_ad := associated_data ++ cn in
              let* chunk_nonce := derive_chunk_nonce nonce chunk_number in
              match unseal (key self) chunk_nonce encrypted_chunk chunk_ad with
              | None => raise (Exc Exn.DecryptionError decryption_failed)
              | Some decrypted_chunk =>
                  write decrypted_chunk ;;;
                  decrypt_loop self nonce associated_data fuel'
                    (chunk_number + 1)
                    (total_decrypted + N.of_nat (length decrypted_chunk))
              end
      end
  end.

(** The size check that ends [decrypt_file] (lines 186-190). *)
Definition check_size (expected_file_size total_decrypted : N) : M files unit :=
  if decide (total_decrypted ≠ expected_file_size) then
    raise (Exc Exn.DecryptionError
             ("File size mismatch: expected "
              +:+ pretty expected_file_size +:+ ", got "
              +:+ pretty total_decrypted))
  else ret tt.

(** The handlers of [decrypt_file] (lines 192-195). *)
Definition reraise (e : exn) : M files unit :=
  if Exn.isinstance e [Exn.DecryptionError] then raise e
  else raise (Exc Exn.DecryptionError ("Decryption failed: " +:+ Exn.message e)).

(** [decrypt_file] *)
Definition decrypt_file (self : t) (associated_data : list byte) : M files unit :=
  try_except_all
    (let* version_bytes := read 1 in
     match version_bytes with
     | [] => raise (Exc Exn.DecryptionError "Invalid file: empty or corrupted")
     | _ =>
         let version := Struct.unpack version_bytes in
         if decide (version ≠ VERSION) then
           raise (Exc Exn.DecryptionError
                    ("Unsupported file version: " +:+ pretty version
                     +:+ " (expected " +:+ pretty VERSION +:+ ")"))
         else
           let* nonce := read NONCE_SIZE in
           if decide (length nonce ≠ NONCE_SIZE) then
             raise (Exc Exn.DecryptionError "Invalid file: corrupted header")
           else
             let* file_size_bytes := read 8 in
             if decide (length file_size_bytes ≠ 8%nat) then
               raise (Exc Exn.DecryptionError "Invalid file: corrupted header")
             else
               let expected_file_size := Struct.unpack file_size_bytes in
               let* s := get in
               let* total_decrypted :=
                 decrypt_loop self nonce associated_data
                   (S (length (in_data s))) 0 0 in
               check_size expected_file_size total_decrypted
     end)
    reraise.

Definition metadata_ad : list byte :=
  [x6d; x65; x74; x61; x64; x61; x74; x61].

(** [encrypt_metadata] *)
Definition encrypt_metadata (self : t) (data nonce : list byte) : result (list byte) :=
  Ok (seal (key self) nonce data metadata_ad).

(** [decrypt_metadata] *)
Definition decrypt_metadata (self : t) (encrypted_data nonce : list byte)
    : result (list byte) :=
  match unseal (key self) nonce encrypted_data metadata_ad with
  | Some data => Ok data
  | None => Raise (Exc Exn.DecryptionError metadata_decryption_failed)
  end.

End WithAEAD.

End Engine.

(** ** A reference AEAD

    A 16-byte-tag authenticated encoding with no confidentiality.  It stands
    for AES-256-GCM wherever the model is run on concrete bytes; the theorems
    below hold for every primitive with the stated properties. *)

Module RefAEAD.

Global Instance byte_eq_dec : EqDecision byte := Byte.byte_eq_dec.

Definition mix (acc : N) (b : byte) : N :=
  N.land (acc * 31 + Byte.to_N b + 1) (N.ones 128).

Definition tag (key nonce ad data : list byte) : list byte :=
  Struct.le_bytes 16
    (foldl mix (foldl mix (foldl mix (foldl mix 7 key) nonce) ad) data).

Definition seal (key nonce data ad : list byte) : list byte :=
  data ++ tag key nonce ad data.

Definition unseal (key nonce ct ad : list byte) : option (list byte) :=
  if decide (length ct < 16)%nat then None
  else
    let body := take (length ct - 16) ct in
    if decide (drop (length ct - 16) ct = tag key nonce ad body)
    then Some body else None.

End RefAEAD.


(** ** The encrypted file format, as [encrypt_file] lays it out

    These describe the bytes of an encrypted file; the theorems relate them to
    what [Engine.encrypt_file] writes and what [Engine.decrypt_file] accepts. *)

Module Format.

(** The nonce of chunk [i]: the little-endian u64 of [i] XORed into the
    last 8 of the 12 bytes of [b]. *)
Definition chunk_nonce (b : list byte) (i : N) : list byte :=
  take 4 b ++ zip_with Struct.byte_xor (drop 4 b) (Struct.le_bytes 8 i).

(** The associated data of chunk [i]. *)
Definition chunk_ad (ad : list byte) (i : N) : list byte :=
  ad ++ Struct.le_bytes 8 i.

(** Successive non-empty reads of [Engine.CHUNK_SIZE] bytes. *)
Fixpoint split_chunks (fuel : nat) (data : list byte) : list (list byte) :=
  match fuel with
  | O => []
  | S fuel' =>
      match take Engine.CHUNK_SIZE data with
      | [] => []
      | c => c :: split_chunks fuel' (drop Engine.CHUNK_SIZE data)
      end
  end.

Definition chunks (data : list byte) : list (list byte) :=
  split_chunks (S (length data)) data.

Definition header (b : list byte) (size : N) : list byte :=
  Struct.le_bytes 1 Engine.VERSION ++ b ++ Struct.le_bytes 8 size.

(** A chunk record: the u32 length of the ciphertext, then the ciphertext. *)
Definition frame (ct : list byte) : list byte :=
  Struct.le_bytes 4 (N.of_nat (length ct)) ++ ct.

Definition raw_records (cts : list (list byte)) : list byte :=
  concat (frame <$> cts).

Section WithAEAD.
Variable seal : list byte → list byte → list byte → list byte → list byte.
Variable unseal : list byte → list byte → list byte → list byte → option (list byte).

(** The ciphertexts of the chunks [cs], numbered from [i]. *)
Fixpoint sealed (key b ad : list byte) (i : N) (cs : list (list byte))
    : list (list byte) :=
  match cs with
  | [] => []
  | c :: cs' =>
      seal key (chunk_nonce b i) c (chunk_ad ad i) :: sealed key b ad (i + 1) cs'
  end.

Definition records (key b ad : list byte) (i : N) (cs : list (list byte))
    : list byte :=
  raw_records (sealed key b ad i cs).

Definition file (key b ad data : list byte) : list byte :=
  header b (N.of_nat (length data)) ++ records key b ad 0 (chunks data).

(** The ciphertexts [cts], numbered from [i], open to the plaintexts [ps]. *)
Inductive opens (key b ad : list byte) : N → list (list byte) → list (list byte) → Prop :=
| opens_nil i : opens key b ad i [] []
| opens_cons i ct p cts ps :
    unseal key (chunk_nonce b i) ct (chunk_ad ad i) = Some p →
    opens key b ad (i + 1) cts ps →
    opens key b ad i (ct :: cts) (p :: ps).
End WithAEAD.

(** [ceil(n / 65536)] *)
Definition nchunks (n : N) : N := (n + 65535) / 65536.

End Format.

(** ** Concrete inputs used to run the model *)

Module Sample.

Definition bytes_of_string (s : string) : list byte := String.list_byte_of_string s.

Definition key : list byte := replicate 32 x2a.
Definition other_key : list byte := replicate 32 x2b.
Definition nonce : list byte := replicate 12 x10.
Definition engine : Engine.t := Engine.Make key.
Definition hello : list byte := bytes_of_string "Hello, World!".

(** A file whose only chunk record declares length zero. *)
Definition zero_length_record : list byte :=
  Format.header nonce 0 ++ Struct.le_bytes 4 0.

(** A file with one record of [Engine.CHUNK_SIZE + 1] plaintext bytes, so of
    declared length [65536 + 17], sealed under [key]. *)
Definition long_chunk : list byte := replicate (Engine.CHUNK_SIZE + 1) x61.
Definition oversized_record : list byte :=
  Format.header nonce (N.of_nat (length long_chunk))
  ++ Format.records RefAEAD.seal key nonce [] 0 [long_chunk].

End Sample.

(** ** Python values read from JSON

    [json.loads] returns dictionaries, lists, strings, integers, booleans and
    [None] (floats do not occur in a manifest and are left out).  A dataclass
    does not check the types of its fields, so the fields of [FileMetadata]
    hold such values as they come. *)

Local Unset Elimination Schemes.
Inductive json :=
| JNull
| JBool (b : bool)
| JInt (z : Z)
| JStr (s : string)
| JList (l : list json)
| JDict (d : list (string * json)).
Local Set Elimination Schemes.

Module Py.

(** [bool(v)] *)
Definition truthy (v : json) : bool :=
  match v with
  | JNull => false
  | JBool b => b
  | JInt z => negb (z =? 0)%Z
  | JStr s => negb (String.eqb s "")
  | JList l => match l with [] => false | _ => true end
  | JDict d => match d with [] => false | _ => true end
  end.

(** [v == n] for an integer [n] ([True == 1] and [False == 0] hold). *)
Definition eq_int (v : json) (n : Z) : bool :=
  match v with
  | JInt z => (z =? n)%Z
  | JBool b => ((if b then 1 else 0) =? n)%Z
  | _ => false
  end.

(** [d.get(k)] on the items of a dictionary (keys are distinct). *)
Fixpoint get (k : string) (d : list (string * json)) : option json :=
  match d with
  | [] => None
  | (k', v) :: d' => if String.eqb k k' then Some v else get k d'
  end.

(** [for m in v]: the elements of a list, the keys of a dictionary, the
    characters of a string; [None] is [TypeError]. *)
Definition iter (v : json) : option (list json) :=
  match v with
  | JList l => Some l
  | JDict d => Some ((λ kv, JStr (fst kv)) <$> d)
  | JStr s => Some ((λ c, JStr (String c "")) <$> String.list_ascii_of_string s)
  | _ => None
  end.

End Py.

(** ** Strings and UTF-8

    A Python string that names a file holds the bytes of the name, decoded
    with the [surrogateescape] handler: the bytes that are not part of
    well-formed UTF-8 become lone surrogates, which [str.encode("utf-8")]
    refuses.  A string is modelled by these bytes, so encoding it returns
    them when they are well-formed UTF-8 and raises [UnicodeEncodeError] (a
    [ValueError]) otherwise. *)

Module Utf8.

Definition between (lo hi b : N) : bool := (lo <=? b) && (b <=? hi).

(** A continuation byte. *)
Definition cont : N → bool := between 128 191.

(** The well-formed UTF-8 byte sequences (the Unicode Standard, table 3-7):
    no overlong form, no surrogate, nothing above U+10FFFF. *)
Fixpoint well_formed (l : list N) : bool :=
  match l with
  | [] => true
  | b :: l1 =>
      if b <=? 127 then well_formed l1
      else
        match l1 with
        | [] => false
        | c1 :: l2 =>
            if between 194 223 b then cont c1 && well_formed l2
            else
              match l2 with
              | [] => false
              | c2 :: l3 =>
                  if between 224 239 b then
                    (if b =? 224 then between 160 191 c1
                     else if b =? 237 then between 128 159 c1
                     else cont c1)
                    && cont c2 && well_formed l3
                  else
                    match l3 with
                    | [] => false
                    | c3 :: l4 =>
                        between 240 244 b
                        && (if b =? 240 then between 144 191 c1
                            else if b =? 244 then between 128 143 c1
                            else cont c1)
                        && cont c2 && cont c3 && well_formed l4
                    end
              end
        end
  end.

Definition valid (s : string) : bool :=
  well_formed (Byte.to_N <$> String.list_byte_of_string s).

(** [s.encode("utf-8")]; the message is cut (Python goes on with the
    characters and their position). *)
Definition encode (s : string) : result (list byte) :=
  if valid s then Ok (String.list_byte_of_string s)
  else Raise (Exc Exn.ValueError "'utf-8' codec can't encode characters").

End Utf8.

(** ** Paths ([pathlib] on POSIX) *)

Module Path.

(** A path in the file system: its components from the root. *)
Abbreviation t := (list string).

Definition slash : Ascii.ascii := "/"%char.

(** [s.split("/")] *)
Fixpoint split (s : string) : list string :=
  match s with
  | EmptyString => [EmptyString]
  | String c s' =>
      if Ascii.eqb c slash then EmptyString :: split s'
      else match split s' with
           | [] => [String c EmptyString]
           | w :: ws => String c w :: ws
           end
  end.

(** ["/".join(parts)] *)
Fixpoint join (parts : list string) : string :=
  match parts with
  | [] => ""
  | [x] => x
  | x :: rest => x +:+ "/" +:+ join rest
  end.

(** [PurePosixPath(s)]: whether it is absolute, and its components (empty
    and ["."] components are dropped, [".."] is kept). *)
Record pure := Pure { absolute : bool; parts : list string }.

Definition keep (w : string) : bool :=
  negb (String.eqb w "") && negb (String.eqb w ".").

Definition parse (s : string) : pure :=
  {| absolute := match s with String c _ => Ascii.eqb c slash | _ => false end;
     parts := List.filter keep (split s) |}.

(** [str(p)] *)
Definition str (p : pure) : string :=
  if absolute p then "/" +:+ join (parts p)
  else match parts p with [] => "." | _ => join (parts p) end.

(** [str(item.relative_to(root))] for the components below [root]. *)
Definition str_rel (rel : list string) : string :=
  str {| absolute := false; parts := rel |}.

(** [str(p)] for a path of the file system: the components after the
    root. *)
Definition str_abs (p : list string) : string := "/" +:+ join p.

(** Lexical resolution of [".."].  [pathlib] keeps a [".."] component and
    the system resolves it when the path is used, inside the directory
    named before it: the two agree when that directory exists (the file
    system has no symbolic links), and this is the only case in which the
    theorems use a path with [".."]. *)
Fixpoint resolve (acc : list string) (parts : list string) : t :=
  match parts with
  | [] => acc
  | x :: rest =>
      if String.eqb x ".." then resolve (take (length acc - 1) acc) rest
      else resolve (acc ++ [x]) rest
  end.

(** [base / p] *)
Definition div (base : t) (p : pure) : t :=
  if absolute p then resolve [] (parts p) else resolve base (parts p).

(** [p.parent] *)
Definition parent (p : t) : t := take (length p - 1) p.

(** [item.relative_to(root)] for an [item] found below [root]. *)
Definition relative_to (root item : t) : list string := drop (length root) item.

(** The order of [PurePosixPath] objects: component by component, each
    component by code points. *)
Fixpoint compare (p q : t) : comparison :=
  match p, q with
  | [], [] => Eq
  | [], _ :: _ => Lt
  | _ :: _, [] => Gt
  | x :: p', y :: q' =>
      match String.compare x y with
      | Eq => compare p' q'
      | c => c
      end
  end.

Definition le (p q : t) : Prop := compare p q ≠ Gt.

Global Instance le_dec : RelDecision le.
Proof. intros p q. unfold le. destruct (compare p q); [left|left|right]; congruence. Defined.

(** [sorted(paths)] *)
Definition sorted (l : list t) : list t := merge_sort le l.

(** The names a directory entry can have. *)
Fixpoint has_slash (x : string) : bool :=
  match x with
  | EmptyString => false
  | String c x' => Ascii.eqb c slash || has_slash x'
  end.

Definition valid_name (x : string) : bool :=
  negb (String.eqb x "") && negb (String.eqb x ".") && negb (String.eqb x "..")
  && negb (has_slash x).

(** [rel] with the extension added to its last component: the components of
    [str(rel) + ext]. *)
Fixpoint add_ext (ext : string) (rel : list string) : list string :=
  match rel with
  | [] => []
  | [x] => [x +:+ ext]
  | x :: rel' => x :: add_ext ext rel'
  end.

Definition lt (p q : t) : Prop := compare p q = Lt.

End Path.

(** ** The manifest ([FileMetadata], [_save_metadata], [_load_metadata]) *)

Record FileMetadata := {
  relative_path : json;
  original_size : json;
  encrypted_size : json;
  is_directory : json;
  permissions : json
}.

Module Manifest.

Definition METADATA_FILENAME : string := ".folder_crypto_metadata.enc".
Definition ENCRYPTED_EXTENSION : string := ".encrypted".

Definition fields : list string :=
  ["relative_path"; "original_size"; "encrypted_size"; "is_directory"; "permissions"].

(** [dataclasses.asdict(m)] *)
Definition asdict (m : FileMetadata) : json :=
  JDict [("relative_path", relative_path m);
         ("original_size", original_size m);
         ("encrypted_size", encrypted_size m);
         ("is_directory", is_directory m);
         ("permissions", permissions m)].

(** [FileMetadata( **m)]: [TypeError] unless [m] is a mapping whose keys are
    field names and include the four fields without a default. *)
Definition of_kwargs (m : json) : result FileMetadata :=
  match m with
  | JDict d =>
      if forallb (λ kv, bool_decide (fst kv ∈ fields)) d then
        match Py.get "relative_path" d, Py.get "original_size" d,
              Py.get "encrypted_size" d, Py.get "is_directory" d with
        | Some p, Some o, Some e, Some i =>
            Ok {| relative_path := p; original_size := o; encrypted_size := e;
                  is_directory := i;
                  permissions := default JNull (Py.get "permissions" d) |}
        | _, _, _, _ =>
            Raise (Exc Exn.TypeError "__init__() missing required positional arguments")
        end
      else Raise (Exc Exn.TypeError "__init__() got an unexpected keyword argument")
  | _ => Raise (Exc Exn.TypeError "argument after ** must be a mapping")
  end.

(** [{"version": 1, "files": [asdict(m) for m in metadata_list]}] *)
Definition to_dict (metadata_list : list FileMetadata) : json :=
  JDict [("version", JInt 1); ("files", JList (asdict <$> metadata_list))].

Fixpoint map_result {A B} (f : A → result B) (l : list A) : result (list B) :=
  match l with
  | [] => Ok []
  | x :: l' =>
      match f x with
      | Raise e => Raise e
      | Ok y => match map_result f l' with
                | Raise e => Raise e
                | Ok ys => Ok (y :: ys)
                end
      end
  end.

(** Lines 303-314 of [_load_metadata], on the value of [json.loads];
    [str_of] is [str] on such a value. *)
Definition of_dict (str_of : json → string) (metadata_dict : json)
    : result (list FileMetadata) :=
  match metadata_dict with
  | JDict d =>
      if negb (Py.eq_int (default JNull (Py.get "version" d)) 1) then
        Raise (Exc Exn.InvalidMetadataError
                 ("Unsupported metadata version: "
                  +:+ str_of (default JNull (Py.get "version" d))))
      else
        match Py.iter (default (JList []) (Py.get "files" d)) with
        | None => Raise (Exc Exn.TypeError "object is not iterable")
        | Some ms => map_result of_kwargs ms
        end
  | _ => Raise (Exc Exn.TypeError "object has no attribute 'get'")
  end.

End Manifest.

(** ** The file system and the operating system

    The file system is a finite map from paths to nodes.  It has directories
    and regular files only.  No operation is refused for lack of access
    rights, except [chmod], which the system may refuse: this is what the
    system does for the superuser, and for the user who owns the entries as
    long as their modes keep the owner's permissions ([Scope.accessible]),
    which the theorems about runs that create entries in restored
    directories assume. *)

Module FS.

Inductive node :=
| Dir (perm : N)
| File (perm : N) (content : list byte).

Global Instance node_eq_dec : EqDecision node.
Proof. solve_decision. Defined.

Definition S_IFDIR : N := 16384.
Definition S_IFREG : N := 32768.

Definition st_mode (n : node) : N :=
  match n with Dir p => S_IFDIR + p | File p _ => S_IFREG + p end.

Definition st_size (n : node) : N :=
  match n with Dir _ => 0 | File _ c => N.of_nat (length c) end.

Definition perm_of (n : node) : N :=
  match n with Dir p => p | File p _ => p end.

Definition set_perm (p : N) (n : node) : node :=
  match n with Dir _ => Dir p | File _ c => File p c end.

Definition set_content (c : list byte) (n : node) : node :=
  match n with Dir p => Dir p | File p _ => File p c end.

Definition is_dir_node (n : option node) : bool :=
  match n with Some (Dir _) => true | _ => false end.

(** The node at a path; the root always is a directory. *)
Definition node_at (m : gmap Path.t node) (p : Path.t) : option node :=
  match p with [] => Some (Dir 493) | _ => m !! p end.

End FS.

(** What the program takes from its libraries and from the system. *)
Module Env.

Record t := Make {
  (** [AESGCM.encrypt] and [AESGCM.decrypt] ([None]: [InvalidTag]) *)
  seal : list byte → list byte → list byte → list byte → list byte;
  unseal : list byte → list byte → list byte → list byte → option (list byte);
  (** [json.dumps(d, indent=2).encode("utf-8")] and
      [json.loads(bs.decode("utf-8"))] ([None]: the decoder raises) *)
  json_dumps : json → list byte;
  json_loads : list byte → option json;
  (** [str(v)] for a value that [json.loads] returned *)
  str_of : json → string;
  (** [os.urandom(n)] at the [i]-th call *)
  urandom : N → nat → list byte;
  (** the process umask, and whether [chmod] is permitted on a path *)
  umask : N;
  may_chmod : Path.t → bool;
  (** the order in which [rglob] finds the entries *)
  scan : list Path.t → list Path.t;
  (** [PBKDF2HMAC(...).derive] and [argon2.low_level.hash_secret_raw] *)
  pbkdf2 : list byte → list byte → list byte;
  argon2 : list byte → list byte → list byte;
  argon2_installed : bool;
  (** [str.encode("utf-8")], and [str.isupper] and the like on a character *)
  utf8 : list N → list byte;
  isupper : N → bool;
  islower : N → bool;
  isdigit : N → bool;
  isalnum : N → bool
}.

End Env.

(** The state of the world: the file system and the number of [os.urandom]
    calls made so far. *)
Record world := World {
  fs : gmap Path.t FS.node;
  draws : N
}.

Fixpoint mapM {S A B} (f : A → M S B) (l : list A) : M S (list B) :=
  match l with
  | [] => ret []
  | x :: l' =>
      let* y := f x in
      let* ys := mapM f l' in
      ret (y :: ys)
  end.

Fixpoint forM {S A} (l : list A) (f : A → M S unit) : M S unit :=
  match l with
  | [] => ret tt
  | x :: l' => f x ;;; forM l' f
  end.

Definition lift {S A} (r : result A) : M S A := λ s, (r, s).

Module OS.
Import FS.

Section WithEnv.
Variable E : Env.t.

(** An [OSError] of the system ([FileExistsError], [FileNotFoundError],
    [IsADirectoryError] and [PermissionError] are subclasses of it); the
    message is the error number and its text, without the file name
    that Python appends. *)
Definition oserror (msg : string) : exn := Exc Exn.OSError msg.

Definition default_dir_perm : N := N.ldiff 511 (Env.umask E).
Definition default_file_perm : N := N.ldiff 438 (Env.umask E).

(** [p.exists()] *)
Definition exists_ (p : Path.t) : M world bool :=
  λ w, (Ok (bool_decide (is_Some (node_at (fs w) p))), w).

(** [p.is_dir()] *)
Definition is_dir (p : Path.t) : M world bool :=
  λ w, (Ok (is_dir_node (node_at (fs w) p)), w).

(** [p.stat()] *)
Definition stat (p : Path.t) : M world node :=
  λ w, match node_at (fs w) p with
       | Some n => (Ok n, w)
       | None => (Raise (oserror "[Errno 2] No such file or directory"), w)
       end.

Definition set_node (p : Path.t) (n : node) : M world unit :=
  λ w, (Ok tt, World (<[p := n]> (fs w)) (draws w)).

(** [p.mkdir(parents=True, exist_ok=True)], component by component. *)
Fixpoint mkdir_from (pre : Path.t) (rest : list string) : M world unit :=
  match rest with
  | [] => ret tt
  | x :: rest' =>
      let q := pre ++ [x] in
      let* n := (λ w, (Ok (node_at (fs w) q), w)) in
      match n with
      | None => set_node q (Dir default_dir_perm) ;;; mkdir_from q rest'
      | Some (Dir _) => mkdir_from q rest'
      | Some (File _ _) =>
          raise (oserror "[Errno 17] File exists")
      end
  end.

Definition mkdir_parents (p : Path.t) : M world unit := mkdir_from [] p.

(** [open(p, "rb")] and reading the whole file. *)
Definition open_rb (p : Path.t) : M world (list byte) :=
  λ w, match node_at (fs w) p with
       | Some (File _ c) => (Ok c, w)
       | Some (Dir _) => (Raise (oserror "[Errno 21] Is a directory"), w)
       | None => (Raise (oserror "[Errno 2] No such file or directory"), w)
       end.

(** [open(p, "wb")]: creates the file or truncates it. *)
Definition open_wb (p : Path.t) : M world unit :=
  λ w, match node_at (fs w) p with
       | Some (Dir _) => (Raise (oserror "[Errno 21] Is a directory"), w)
       | Some (File perm _) => (Ok tt, World (<[p := File perm []]> (fs w)) (draws w))
       | None =>
           if is_dir_node (node_at (fs w) (Path.parent p)) then
             (Ok tt, World (<[p := File default_file_perm []]> (fs w)) (draws w))
           else (Raise (oserror "[Errno 2] No such file or directory"), w)
       end.

(** What an open output file holds when it is closed. *)
Definition close_wb (p : Path.t) (c : list byte) : M world unit :=
  λ w, (Ok tt, World (alter (set_content c) p (fs w)) (draws w)).

(** [with open(p, "wb") as f: f.write(c)] *)
Definition write_bytes (p : Path.t) (c : list byte) : M world unit :=
  open_wb p ;;; close_wb p c.

(** A computation on an input stream and the output file at [p]; what it
    wrote is in the file also when it raises. *)
Definition with_files {A} (p : Path.t) (input : list byte) (body : M files A)
    : M world A :=
  λ w, let '(r, f) := body (open_files input) in
       (r, World (alter (set_content (out_data f)) p (fs w)) (draws w)).

(** [os.chmod(p, mode)] *)
Definition chmod (p : Path.t) (mode : json) : M world unit :=
  λ w,
    match match mode with
          | JInt z => Some z
          | JBool b => Some (if b then 1 else 0)%Z
          | _ => None
          end with
    | None => (Raise (Exc Exn.TypeError "an integer is required"), w)
    | Some z =>
        if decide (0 ≤ z < 2 ^ 32)%Z then
          match p, fs w !! p with
          | _ :: _, Some n =>
              if Env.may_chmod E p then
                (Ok tt, World (<[p := set_perm (N.land (Z.to_N z) 4095) n]> (fs w))
                          (draws w))
              else (Raise (oserror "[Errno 1] Operation not permitted"), w)
          | [], _ => (Raise (oserror "[Errno 1] Operation not permitted"), w)
          | _, None => (Raise (oserror "[Errno 2] No such file or directory"), w)
          end
        else (Raise (Exc Exn.ValueError "mode out of range"), w)
    end.

(** [os.urandom(n)] *)
Definition os_urandom (n : nat) : M world (list byte) :=
  λ w, (Ok (Env.urandom E (draws w) n), World (fs w) (draws w + 1)).

(** [root.rglob("*")]: every entry below [root], in the order the system
    yields them. *)
Definition rglob (root : Path.t) : M world (list Path.t) :=
  λ w, (Ok (Env.scan E
              (List.filter (λ p, bool_decide (root `prefix_of` p ∧ p ≠ root))
                 (fst <$> map_to_list (fs w)))), w).

End WithEnv.

End OS.

(** ** The tree engine ([core/file_processor.py]) *)

Module FileProcessor.
Import FS OS Manifest.

Section WithEnv.
Variable E : Env.t.

(** [CryptoEngine.generate_nonce] *)
Definition generate_nonce : M world (list byte) := os_urandom E Engine.NONCE_SIZE.

(** [_collect_items] *)
Definition _collect_items (root_path : Path.t) : M world (list Path.t) :=
  let* items := rglob E root_path in
  let* w := get in
  let directories := List.filter (λ item, is_dir_node (node_at (fs w) item)) items in
  let files := List.filter (λ item, negb (is_dir_node (node_at (fs w) item))) items in
  ret (Path.sorted directories ++ Path.sorted files).

(** [_save_metadata] *)
Definition _save_metadata (self : Engine.t) (output_path : Path.t)
    (metadata_list : list FileMetadata) : M world unit :=
  try_except_all
    (let metadata_bytes := Env.json_dumps E (to_dict metadata_list) in
     let* nonce := generate_nonce in
     let* encrypted_metadata :=
       lift (Engine.encrypt_metadata (Env.seal E) self metadata_bytes nonce) in
     let metadata_path := Path.div output_path (Path.parse METADATA_FILENAME) in
     write_bytes E metadata_path (nonce ++ encrypted_metadata))
    (λ e, raise (Exc Exn.FileProcessingError
                   ("Failed to save metadata: " +:+ Exn.message e))).

(** [_load_metadata] *)
Definition _load_metadata (self : Engine.t) (input_path : Path.t)
    : M world (list FileMetadata) :=
  let metadata_path := Path.div input_path (Path.parse METADATA_FILENAME) in
  let* found := exists_ metadata_path in
  if negb found then
    raise (Exc Exn.InvalidMetadataError
             ("Metadata file not found: " +:+ Path.str_abs metadata_path))
  else
    try_except_all
      (let* data := open_rb metadata_path in
       let nonce := take Engine.NONCE_SIZE data in
       let encrypted_metadata := drop Engine.NONCE_SIZE data in
       let* metadata_bytes :=
         lift (Engine.decrypt_metadata (Env.unseal E) self encrypted_metadata nonce) in
       let* metadata_dict :=
         of_option (Env.json_loads E metadata_bytes)
           (Exc Exn.ValueError "invalid JSON") in
       lift (of_dict (Env.str_of E) metadata_dict))
      (λ e, if Exn.isinstance e [Exn.InvalidMetadataError] then raise e
            else raise (Exc Exn.InvalidMetadataError
                          ("Failed to load metadata: " +:+ Exn.message e))).

(** The body of the loop of [encrypt_folder] (lines 70-118). *)
Definition encrypt_item (self : Engine.t) (input_path output_path item_path : Path.t)
    : M world FileMetadata :=
  let relative_path := Path.str_rel (Path.relative_to input_path item_path) in
  let* isdir := is_dir item_path in
  if isdir then
    let* st := stat item_path in
    ret {| relative_path := JStr relative_path;
           original_size := JInt 0;
           encrypted_size := JInt 0;
           is_directory := JBool true;
           permissions := JInt (Z.of_N (st_mode st)) |}
  else
    let output_file_path :=
      Path.div output_path (Path.parse (relative_path +:+ ENCRYPTED_EXTENSION)) in
    mkdir_parents E (Path.parent output_file_path) ;;;
    let* st := stat item_path in
    let original_size := st_size st in
    try_except_all
      (let* input := open_rb item_path in
       open_wb E output_file_path ;;;
       let* ad := lift (Utf8.encode relative_path) in
       let* nonce := generate_nonce in
       with_files output_file_path input
         (Engine.encrypt_file (Env.seal E) self nonce ad) ;;;
       let* st_out := stat output_file_path in
       let* st_in := stat item_path in
       ret {| relative_path := JStr relative_path;
              original_size := JInt (Z.of_N original_size);
              encrypted_size := JInt (Z.of_N (st_size st_out));
              is_directory := JBool false;
              permissions := JInt (Z.of_N (st_mode st_in)) |})
      (λ e, raise (Exc Exn.FileProcessingError
                     ("Failed to encrypt " +:+ relative_path +:+ ": "
                      +:+ Exn.message e))).

(** [encrypt_folder] (without a progress callback) *)
Definition encrypt_folder (self : Engine.t) (input_path output_path : Path.t)
    : M world unit :=
  let* found := exists_ input_path in
  if negb found then
    raise (Exc Exn.FileProcessingError
             ("Input path does not exist: " +:+ Path.str_abs input_path))
  else
    let* isdir := is_dir input_path in
    if negb isdir then
      raise (Exc Exn.FileProcessingError
               ("Input path is not a directory: " +:+ Path.str_abs input_path))
    else
      mkdir_parents E output_path ;;;
      let* all_items := _collect_items input_path in
      let* metadata_list :=
        mapM (encrypt_item self input_path output_path) all_items in
      _save_metadata self output_path metadata_list.

(** [if metadata.permissions: try: os.chmod(...) except Exception: pass] *)
Definition restore_permissions (p : Path.t) (perms : json) : M world unit :=
  if Py.truthy perms then
    try_except_all (chmod E p perms) (λ _, ret tt)
  else ret tt.

(** The body of the loop of [decrypt_folder] (lines 152-211). *)
Definition decrypt_item (self : Engine.t) (input_path output_path : Path.t)
    (metadata : FileMetadata) : M world unit :=
  match relative_path metadata with
  | JStr s =>
      let relative_path := Path.parse s in
      if Py.truthy (is_directory metadata) then
        let dir_path := Path.div output_path relative_path in
        mkdir_parents E dir_path ;;;
        restore_permissions dir_path (permissions metadata)
      else
        let encrypted_file_path :=
          Path.div input_path
            (Path.parse (Path.str relative_path +:+ ENCRYPTED_EXTENSION)) in
        let output_file_path := Path.div output_path relative_path in
        mkdir_parents E (Path.parent output_file_path) ;;;
        let* found := exists_ encrypted_file_path in
        if negb found then
          raise (Exc Exn.FileProcessingError
                   ("Encrypted file not found: "
                    +:+ Path.str_abs encrypted_file_path))
        else
          try_except_all
            (let* input := open_rb encrypted_file_path in
             open_wb E output_file_path ;;;
             let* ad := lift (Utf8.encode (Path.str relative_path)) in
             with_files output_file_path input
               (Engine.decrypt_file (Env.unseal E) self ad) ;;;
             let* st := stat output_file_path in
             let decrypted_size := st_size st in
             if negb (Py.eq_int (original_size metadata) (Z.of_N decrypted_size)) then
               raise (Exc Exn.FileProcessingError
                        ("Size mismatch for " +:+ Path.str relative_path
                         +:+ ": expected " +:+ Env.str_of E (original_size metadata)
                         +:+ ", got " +:+ pretty decrypted_size))
             else restore_permissions output_file_path (permissions metadata))
            (λ e, if Exn.isinstance e [Exn.FileProcessingError] then raise e
                  else raise (Exc Exn.FileProcessingError
                                ("Failed to decrypt " +:+ Path.str relative_path
                                 +:+ ": " +:+ Exn.message e)))
  | _ => raise (Exc Exn.TypeError "expected str, bytes or os.PathLike object")
  end.

(** [decrypt_folder] (without a progress callback) *)
Definition decrypt_folder (self : Engine.t) (input_path output_path : Path.t)
    : M world unit :=
  let* found := exists_ input_path in
  if negb found then
    raise (Exc Exn.FileProcessingError
             ("Input path does not exist: " +:+ Path.str_abs input_path))
  else
    let* isdir := is_dir input_path in
    if negb isdir then
      raise (Exc Exn.FileProcessingError
               ("Input path is not a directory: " +:+ Path.str_abs input_path))
    else
      let* metadata_list := _load_metadata self input_path in
      mkdir_parents E output_path ;;;
      forM metadata_list (decrypt_item self input_path output_path).

End WithEnv.

End FileProcessor.

(** What [_load_metadata] raises when AES-GCM rejects the manifest. *)
Definition load_failed : exn :=
  Exc Exn.InvalidMetadataError
    ("Failed to load metadata: " +:+ Engine.metadata_decryption_failed).

(** ** Key derivation ([core/key_derivation.py]) *)

Module KeyDerivation.

Definition SALT_SIZE : nat := 32.
Definition KEY_SIZE : nat := 32.

(** The object built by [KeyDerivation(use_argon2)]. *)
Record t := Make { use_argon2 : bool; _argon2_available : bool }.

Section WithEnv.
Variable E : Env.t.

(** [__init__] *)
Definition init (use_argon2 : bool) : t :=
  {| use_argon2 := use_argon2;
     _argon2_available := if use_argon2 then Env.argon2_installed E else false |}.

(** [generate_salt] *)
Definition generate_salt : M world (list byte) := OS.os_urandom E SALT_SIZE.

(** [derive_key] *)
Definition derive_key (self : t) (password : list N) (salt : list byte)
    : result (list byte) :=
  match password with
  | [] => Raise (Exc Exn.InvalidPasswordError "Password cannot be empty")
  | _ =>
      if decide (length salt ≠ SALT_SIZE) then
        Raise (Exc Exn.InvalidPasswordError
                 ("Salt must be exactly " +:+ pretty SALT_SIZE +:+ " bytes"))
      else
        let password_bytes := Env.utf8 E password in
        if _argon2_available self && use_argon2 self
        then Ok (Env.argon2 E password_bytes salt)
        else Ok (Env.pbkdf2 E password_bytes salt)
  end.

(** [verify_password_strength] *)
Definition verify_password_strength (password : list N) : bool * string :=
  if decide (length password < 8)%nat then
    (false, "Password must be at least 8 characters long")
  else if decide (length password < 12)%nat then
    (true, "Password is weak but acceptable")
  else
    let has_upper := existsb (Env.isupper E) password in
    let has_lower := existsb (Env.islower E) password in
    let has_digit := existsb (Env.isdigit E) password in
    let has_special := existsb (λ c, negb (Env.isalnum E c)) password in
    let strength_score :=
      (Nat.b2n has_upper + Nat.b2n has_lower + Nat.b2n has_digit
       + Nat.b2n has_special)%nat in
    if decide (3 ≤ strength_score)%nat then (true, "Password is strong")
    else if decide (2 ≤ strength_score)%nat then (true, "Password is moderate")
    else (true, "Password is weak but acceptable").

End WithEnv.

End KeyDerivation.

(** ** The services ([services/encrypt_service.py], [services/decrypt_service.py]) *)

Module EncryptService.

Record t := Make {
  key_derivation : KeyDerivation.t;
  verify_password_strength : bool
}.

Section WithEnv.
Variable E : Env.t.

(** [__init__] *)
Definition init (use_argon2 verify_password_strength : bool) : t :=
  {| key_derivation := KeyDerivation.init E use_argon2;
     verify_password_strength := verify_password_strength |}.

Definition salt_file (output_path : Path.t) : Path.t :=
  Path.div output_path (Path.parse ".salt").

(** [encrypt_folder]; the paths are the resolved ones. *)
Definition encrypt_folder (self : t) (input_path output_path : Path.t)
    (password : list N) : M world unit :=
  (if verify_password_strength self then
     let '(is_valid, message) := KeyDerivation.verify_password_strength E password in
     if negb is_valid then raise (Exc Exn.InvalidPasswordError message) else ret tt
   else ret tt) ;;;
  try_except_all
    (let* salt := KeyDerivation.generate_salt E in
     let* key := lift (KeyDerivation.derive_key E (key_derivation self) password salt) in
     let* crypto_engine := lift (Engine.init key) in
     FileProcessor.encrypt_folder E crypto_engine input_path output_path ;;;
     OS.write_bytes E (salt_file output_path) salt)
    (λ e, if Exn.isinstance e [Exn.InvalidPasswordError; Exn.EncryptionError;
                               Exn.FileProcessingError]
          then raise e
          else raise (Exc Exn.EncryptionError
                        ("Encryption failed: " +:+ Exn.message e))).

End WithEnv.

End EncryptService.

Module DecryptService.

Record t := Make { key_derivation : KeyDerivation.t }.

Section WithEnv.
Variable E : Env.t.

(** [__init__] *)
Definition init (use_argon2 : bool) : t :=
  {| key_derivation := KeyDerivation.init E use_argon2 |}.

Definition salt_file (input_path : Path.t) : Path.t :=
  Path.div input_path (Path.parse ".salt").

(** [decrypt_folder]; the paths are the resolved ones. *)
Definition decrypt_folder (self : t) (input_path output_path : Path.t)
    (password : list N) : M world unit :=
  try_except_all
    (let* found := OS.exists_ (salt_file input_path) in
     if negb found then
       raise (Exc Exn.DecryptionError "Salt file not found. Invalid encrypted folder.")
     else
       let* salt := OS.open_rb (salt_file input_path) in
       if decide (length salt ≠ KeyDerivation.SALT_SIZE) then
         raise (Exc Exn.DecryptionError
                  "Invalid salt file. Corrupted encrypted folder.")
       else
         let* key :=
           try_except
             (lift (KeyDerivation.derive_key E (key_derivation self) password salt))
             [Exn.InvalidPasswordError]
             (λ e, raise (Exc Exn.DecryptionError
                            ("Invalid password: " +:+ Exn.message e))) in
         let* crypto_engine := lift (Engine.init key) in
         FileProcessor.decrypt_folder E crypto_engine input_path output_path)
    (λ e, if Exn.isinstance e [Exn.DecryptionError; Exn.FileProcessingError]
          then raise e
          else raise (Exc Exn.DecryptionError
                        ("Decryption failed: " +:+ Exn.message e))).

End WithEnv.

End DecryptService.

(** ** A reference environment

    A self-delimiting binary encoding of JSON values stands for the JSON text
    codec; a checksum stands for the key-derivation functions.  They are used
    to run the model on concrete trees. *)

Module RefJSON.

Fixpoint enc_pos (p : positive) : list byte :=
  match p with
  | xH => [x02]
  | xO p' => x00 :: enc_pos p'
  | xI p' => x01 :: enc_pos p'
  end.

Fixpoint dec_pos (bs : list byte) : option (positive * list byte) :=
  match bs with
  | x02 :: r => Some (xH, r)
  | x00 :: r => match dec_pos r with Some (p, r') => Some (xO p, r') | None => None end
  | x01 :: r => match dec_pos r with Some (p, r') => Some (xI p, r') | None => None end
  | _ => None
  end.

Definition enc_Z (z : Z) : list byte :=
  match z with
  | Z0 => [x00]
  | Zpos p => x01 :: enc_pos p
  | Zneg p => x02 :: enc_pos p
  end.

Definition dec_Z (bs : list byte) : option (Z * list byte) :=
  match bs with
  | x00 :: r => Some (Z0, r)
  | x01 :: r => match dec_pos r with Some (p, r') => Some (Zpos p, r') | None => None end
  | x02 :: r => match dec_pos r with Some (p, r') => Some (Zneg p, r') | None => None end
  | _ => None
  end.

Fixpoint enc_string (s : string) : list byte :=
  match s with
  | EmptyString => [x00]
  | String c s' => x01 :: byte_of_ascii c :: enc_string s'
  end.

Fixpoint dec_string (bs : list byte) : option (string * list byte) :=
  match bs with
  | x00 :: r => Some (EmptyString, r)
  | x01 :: c :: r =>
      match dec_string r with
      | Some (s, r') => Some (String (ascii_of_byte c) s, r')
      | None => None
      end
  | _ => None
  end.

Fixpoint enc (j : json) : list byte :=
  match j with
  | JNull => [x00]
  | JBool b => [x01; if b then x01 else x00]
  | JInt z => x02 :: enc_Z z
  | JStr s => x03 :: enc_string s
  | JList l =>
      x04 :: (fix items (l : list json) : list byte :=
                match l with
                | [] => [x00]
                | j' :: l' => x01 :: enc j' ++ items l'
                end) l
  | JDict d =>
      x05 :: (fix items (d : list (string * json)) : list byte :=
                match d with
                | [] => [x00]
                | (k, v) :: d' => x01 :: enc_string k ++ enc v ++ items d'
                end) d
  end.

Fixpoint dec (fuel : nat) (bs : list byte) : option (json * list byte) :=
  match fuel with
  | O => None
  | S fuel' =>
      match bs with
      | x00 :: r => Some (JNull, r)
      | x01 :: b :: r => Some (JBool (bool_decide (b = x01)), r)
      | x02 :: r =>
          match dec_Z r with Some (z, r') => Some (JInt z, r') | None => None end
      | x03 :: r =>
          match dec_string r with Some (s, r') => Some (JStr s, r') | None => None end
      | x04 :: r =>
          match dec_list fuel' r with
          | Some (l, r') => Some (JList l, r')
          | None => None
          end
      | x05 :: r =>
          match dec_dict fuel' r with
          | Some (d, r') => Some (JDict d, r')
          | None => None
          end
      | _ => None
      end
  end
with dec_list (fuel : nat) (bs : list byte) : option (list json * list byte) :=
  match fuel with
  | O => None
  | S fuel' =>
      match bs with
      | x00 :: r => Some ([], r)
      | x01 :: r =>
          match dec fuel' r with
          | Some (j, r1) =>
              match dec_list fuel' r1 with
              | Some (l, r2) => Some (j :: l, r2)
              | None => None
              end
          | None => None
          end
      | _ => None
      end
  end
with dec_dict (fuel : nat) (bs : list byte)
    : option (list (string * json) * list byte) :=
  match fuel with
  | O => None
  | S fuel' =>
      match bs with
      | x00 :: r => Some ([], r)
      | x01 :: r =>
          match dec_string r with
          | Some (k, r0) =>
              match dec fuel' r0 with
              | Some (v, r1) =>
                  match dec_dict fuel' r1 with
                  | Some (d, r2) => Some ((k, v) :: d, r2)
                  | None => None
                  end
              | None => None
              end
          | None => None
          end
      | _ => None
      end
  end.

Definition dumps (j : json) : list byte := enc j.

Definition loads (bs : list byte) : option json :=
  match dec (S (length bs)) bs with
  | Some (j, []) => Some j
  | _ => None
  end.

End RefJSON.

Module RefEnv.

Definition kdf (seed : N) (password salt : list byte) : list byte :=
  Struct.le_bytes 32 (foldl RefAEAD.mix seed (password ++ salt)).

Definition between (lo hi c : N) : bool := (lo <=? c) && (c <=? hi).

(** [repr(v)] and [str(v)], as Python prints integers, booleans, [None],
    and the strings, lists and dictionaries whose characters are printable
    ASCII other than the quote and the backslash. *)
Fixpoint py_repr (j : json) : string :=
  match j with
  | JNull => "None"
  | JBool true => "True"
  | JBool false => "False"
  | JInt z => pretty z
  | JStr s => "'" +:+ s +:+ "'"
  | JList l =>
      "["
      +:+ (fix go (l : list json) : string :=
             match l with
             | [] => ""
             | x :: l' =>
                 match l' with
                 | [] => py_repr x
                 | _ => py_repr x +:+ ", " +:+ go l'
                 end
             end) l
      +:+ "]"
  | JDict d =>
      "{"
      +:+ (fix go (d : list (string * json)) : string :=
             match d with
             | [] => ""
             | (k, v) :: d' =>
                 match d' with
                 | [] => "'" +:+ k +:+ "': " +:+ py_repr v
                 | _ => "'" +:+ k +:+ "': " +:+ py_repr v +:+ ", " +:+ go d'
                 end
             end) d
      +:+ "}"
  end.

Definition py_str (j : json) : string :=
  match j with JStr s => s | _ => py_repr j end.

Definition env : Env.t :=
  {| Env.seal := RefAEAD.seal;
     Env.unseal := RefAEAD.unseal;
     Env.json_dumps := RefJSON.dumps;
     Env.json_loads := RefJSON.loads;
     Env.str_of := py_str;
     Env.urandom := λ i n, replicate n (Struct.byte_of_N (i + 16));
     Env.umask := 18;
     Env.may_chmod := λ _, true;
     Env.scan := reverse;
     Env.pbkdf2 := kdf 11;
     Env.argon2 := kdf 13;
     Env.argon2_installed := false;
     Env.utf8 := fmap Struct.byte_of_N;
     Env.isupper := between 65 90;
     Env.islower := between 97 122;
     Env.isdigit := between 48 57;
     Env.isalnum := λ c, between 65 90 c || between 97 122 c || between 48 57 c |}.

(** The same system, where [chmod] is refused. *)
Definition env_no_chmod : Env.t :=
  {| Env.seal := RefAEAD.seal;
     Env.unseal := RefAEAD.unseal;
     Env.json_dumps := RefJSON.dumps;
     Env.json_loads := RefJSON.loads;
     Env.str_of := py_str;
     Env.urandom := λ i n, replicate n (Struct.byte_of_N (i + 16));
     Env.umask := 18;
     Env.may_chmod := λ _, false;
     Env.scan := reverse;
     Env.pbkdf2 := kdf 11;
     Env.argon2 := kdf 13;
     Env.argon2_installed := false;
     Env.utf8 := fmap Struct.byte_of_N;
     Env.isupper := between 65 90;
     Env.islower := between 97 122;
     Env.isdigit := between 48 57;
     Env.isalnum := λ c, between 65 90 c || between 97 122 c || between 48 57 c |}.

End RefEnv.

Module SampleTree.
Import FS.

Definition code_points (s : string) : list N :=
  Byte.to_N <$> String.list_byte_of_string s.

Definition password : list N := code_points "CorrectHorseBattery".
Definition wrong_password : list N := code_points "correcthorsebattery".

Definition inp : Path.t := ["in"].
Definition out : Path.t := ["enc"].
Definition dec : Path.t := ["dec"].

(** [in/hello.txt], [in/a/b/c.txt] with [in/a/b] of mode 0o750, and the
    empty directory [in/empty]. *)
Definition tree : gmap Path.t node :=
  list_to_map
    [(["in"], Dir 493);
     (["in"; "hello.txt"], File 420 Sample.hello);
     (["in"; "a"], Dir 493);
     (["in"; "a"; "b"], Dir 488);
     (["in"; "a"; "b"; "c.txt"], File 384 (Sample.bytes_of_string "x"));
     (["in"; "empty"], Dir 448)].

Definition w0 : world := World tree 0.

Definition enc_service : EncryptService.t := EncryptService.init RefEnv.env false true.
Definition dec_service : DecryptService.t := DecryptService.init RefEnv.env false.

Definition encrypted : result unit * world :=
  EncryptService.encrypt_folder RefEnv.env enc_service inp out password w0.

Definition decrypted : result unit * world :=
  DecryptService.decrypt_folder RefEnv.env dec_service out dec password (snd encrypted).

(** The tree engine alone, under the sample key. *)
Definition engine_encrypted : result unit * world :=
  FileProcessor.encrypt_folder RefEnv.env Sample.engine inp out w0.

(** The entries below [root], by relative path. *)
Definition subtree (root : Path.t) (m : gmap Path.t node) : gmap Path.t node :=
  list_to_map
    (omap (λ kv, if bool_decide (root `prefix_of` kv.1 ∧ kv.1 ≠ root)
                 then Some (drop (length root) kv.1, kv.2) else None)
       (map_to_list m)).

End SampleTree.

(** ** Sample manifests *)

Module SampleManifest.
Import FS.

Definition entry (path : string) (is_dir : bool) : FileMetadata :=
  {| relative_path := JStr path;
     original_size := JInt 0;
     encrypted_size := JInt 0;
     is_directory := JBool is_dir;
     permissions := JNull |}.

(** Entries that the schema of the specification excludes: an empty path, an
    absolute one, one with a [..] component, one with an empty component,
    the two reserved names, a file listed before a directory, and the same
    path twice. *)
Definition bad_entries : list FileMetadata :=
  [entry "" false;
   entry "/etc/passwd" false;
   entry "../escape" false;
   entry "a//b" false;
   entry ".folder_crypto_metadata.enc" false;
   entry ".salt" false;
   entry "d" true;
   entry "d" true].

Definition manifest_file (key : list byte) (entries : list FileMetadata) : list byte :=
  Sample.nonce
  ++ RefAEAD.seal key Sample.nonce (RefJSON.dumps (Manifest.to_dict entries))
       Engine.metadata_ad.

(** The items of the dictionary of a file entry with a given path. *)
Definition fields_of (path : string) : list (string * json) :=
  [("relative_path", JStr path);
   ("original_size", JInt 0);
   ("encrypted_size", JInt 0);
   ("is_directory", JBool false);
   ("permissions", JNull)].

(** An encrypted directory [enc] whose manifest holds the document [j]. *)
Definition world_of (j : json) : world :=
  World (list_to_map
           [(["enc"], Dir 493);
            (["enc"; ".folder_crypto_metadata.enc"],
             File 420 (Sample.nonce
                       ++ RefAEAD.seal Sample.key Sample.nonce (RefJSON.dumps j)
                            Engine.metadata_ad))]) 0.

(** An encrypted directory [enc] that holds this manifest and a salt. *)
Definition world_with (entries : list FileMetadata) : world :=
  World (list_to_map
           [(["enc"], Dir 493);
            (["enc"; ".folder_crypto_metadata.enc"],
             File 420 (manifest_file Sample.key entries));
            (["enc"; ".salt"], File 420 (replicate 32 x07))]) 0.

End SampleManifest.

Module SampleWrongKey.
Import SampleTree.

Definition salt : list byte := Env.urandom RefEnv.env 0 KeyDerivation.SALT_SIZE.

(** The key that [DecryptService] derives from the wrong password. *)
Definition wrong_key : list byte :=
  match KeyDerivation.derive_key RefEnv.env
          (DecryptService.key_derivation dec_service) wrong_password salt with
  | Ok k => k
  | Raise _ => []
  end.

Definition wrong_engine : Engine.t := Engine.Make wrong_key.

End SampleWrongKey.

(** A tree in which the ciphertext of one file and the directory of another
    have the same name: [in/a] and [in/a.encrypted/y]. *)
Module SampleCollision.
Import FS.

Definition tree : gmap Path.t node :=
  list_to_map
    [(["in"], Dir 493);
     (["in"; "a"], File 420 (Sample.bytes_of_string "x"));
     (["in"; "a.encrypted"], Dir 493);
     (["in"; "a.encrypted"; "y"], File 420 (Sample.bytes_of_string "y"))].

Definition w0 : world := World tree 0.


End SampleCollision.

(** A manifest entry for [hello.txt] whose recorded mode is 0, and a world in
    which it can be decrypted into [dec]. *)
Module SampleRestore.

Definition md : FileMetadata :=
  {| relative_path := JStr "hello.txt";
     original_size := JInt 13;
     encrypted_size := JInt 0;
     is_directory := JBool false;
     permissions := JInt 0 |}.

Definition w : world :=
  World (<[["dec"] := FS.Dir 493]> (fs (snd SampleTree.engine_encrypted))) 0.

End SampleRestore.

(** The salt and the key of the sample encryption, what the tree engine
    leaves under that key, and a world whose salt file is one byte short. *)
Module SampleSalt.
Import SampleTree.

Definition salt : list byte := Env.urandom RefEnv.env 0 KeyDerivation.SALT_SIZE.

Definition key : list byte :=
  match KeyDerivation.derive_key RefEnv.env
          (EncryptService.key_derivation enc_service) password salt with
  | Ok k => k
  | Raise _ => []
  end.

Definition tree_encrypted : result unit * world :=
  FileProcessor.encrypt_folder RefEnv.env (Engine.Make key) inp out
    (World (fs w0) 1).

Definition short_salt : world :=
  World (<[["enc"; ".salt"] := FS.File 420 (replicate 31 x07)]> (fs w0)) 0.

End SampleSalt.

(** ** Notions used to state and prove the properties of the tree engine *)

Module Tree.
Import FS.

(** [p] lies strictly below [root]. *)
Definition below (root p : Path.t) : Prop := root `prefix_of` p ∧ p ≠ root.

(** Neither path is a prefix of the other. *)
Definition apart (p q : Path.t) : Prop := ¬ p `prefix_of` q ∧ ¬ q `prefix_of` p.

(** What [mkdir(parents=True, exist_ok=True)] leaves when it succeeds. *)
Fixpoint mkdirs (d : N) (m : gmap Path.t node) (pre : Path.t) (rest : list string)
    : gmap Path.t node :=
  match rest with
  | [] => m
  | x :: rest' =>
      let q := pre ++ [x] in
      mkdirs d (match m !! q with None => <[q := Dir d]> m | Some _ => m end) q rest'
  end.

(** [p] is one of the directories that [mkdirs d m pre rest] visits. *)
Definition is_step (pre : Path.t) (rest : list string) (p : Path.t) : Prop :=
  ∃ k, (0 < k ≤ length rest)%nat ∧ p = pre ++ take k rest.


(** [p] and the paths above it are directories. *)
Definition anchored (m : gmap Path.t node) (p : Path.t) : Prop :=
  ∀ k, (0 < k ≤ length p)%nat → is_dir_node (m !! take k p) = true.

(** The entries of the input tree are well formed: valid names, permission
    bits below 0o10000, sizes below 2^64, and a parent that is a directory. *)
Definition entry_ok (root : Path.t) (m : gmap Path.t node) (p : Path.t) (n : node)
    : bool :=
  if bool_decide (below root p) then
    forallb Path.valid_name (drop (length root) p)
    && (perm_of n <? 4096) && (st_size n <? 2 ^ 64)
    && is_dir_node (m !! Path.parent p)
  else true.

Definition tree_ok (root : Path.t) (m : gmap Path.t node) : bool :=
  forallb (λ kv, entry_ok root m kv.1 kv.2) (map_to_list m).


(** An entry found at [p] below [root], as its relative path and its
    node. *)
Definition entry (root : Path.t) (m : gmap Path.t node) (p : Path.t)
    : list string * node :=
  (Path.relative_to root p, default (Dir 0) (m !! p)).

(** The entries [es] are the tree below [root]. *)
Definition lists (root : Path.t) (m : gmap Path.t node) (es : list (list string * node))
    : Prop :=
  ∀ rel n, (rel, n) ∈ es ↔ rel ≠ [] ∧ m !! (root ++ rel) = Some n.

(** The canonical order: the directories in ascending order of their
    paths, then the files in ascending order of their paths. *)
Definition canonical (es : list (list string * node)) : Prop :=
  ∃ ds fs_,
    es = ds ++ fs_
    ∧ Forall (λ e, is_dir_node (Some e.2) = true) ds
    ∧ Forall (λ e, is_dir_node (Some e.2) = false) fs_
    ∧ StronglySorted (λ a b, Path.lt a.1 b.1) ds
    ∧ StronglySorted (λ a b, Path.lt a.1 b.1) fs_.




Section WithEnv.
Variable E : Env.t.

(** The node that decryption creates for the original node [n], before
    it restores the mode: a directory or a file with the content of [n]
    and the default creation mode. *)
Definition created (n : node) : node :=
  match n with
  | Dir _ => Dir (OS.default_dir_perm E)
  | File _ c => File (OS.default_file_perm E) c
  end.

(** The node that decryption leaves at [p] for the original node [n]: the
    same node, with the default creation mode in place of its permission
    bits when [chmod] is refused. *)
Definition restored (p : Path.t) (n : node) : node :=
  if Env.may_chmod E p then n
  else match n with
       | Dir _ => Dir (OS.default_dir_perm E)
       | File _ c => File (OS.default_file_perm E) c
       end.

(** The ciphertext of the file at [rel] with the given content, sealed
    under [nonce]. *)
Definition ciphertext (self : Engine.t) (nonce : list byte) (rel : list string)
    (content : list byte) : list byte :=
  Format.file (Env.seal E) (Engine.key self) nonce
    (String.list_byte_of_string (Path.join rel)) content.

(** The entry is a file whose ciphertext is in [m] below [out], as
    [encrypt_folder] writes it: its relative path could be encoded. *)
Definition sealed_in (self : Engine.t) (out : Path.t) (m : gmap Path.t node)
    (e : list string * node) : Prop :=
  ∀ perm c, e.2 = File perm c →
    ∃ perm' nonce, length nonce = Engine.NONCE_SIZE
      ∧ Utf8.encode (Path.join e.1) = Ok (String.list_byte_of_string (Path.join e.1))
      ∧ m !! (out ++ Path.add_ext Manifest.ENCRYPTED_EXTENSION e.1)
        = Some (File perm' (ciphertext self nonce e.1 c)).


Definition put (root : Path.t) (m : gmap Path.t node) (e : list string * node)
    : gmap Path.t node :=
  <[root ++ e.1 := restored (root ++ e.1) e.2]> m.

End WithEnv.

End Tree.

(** ** Notions used to state what a computation leaves alone *)

Module Frame.

(** However it ends, and from whatever world it starts, the computation
    changes the file system at the paths in [T] only. *)
Definition touches {A} (T : Path.t → Prop) (m : M world A) : Prop :=
  ∀ w p, ¬ T p → fs (m w).2 !! p = fs w !! p.

(** [p] is at, above or below [root]. *)
Definition along (root p : Path.t) : Prop :=
  root `prefix_of` p ∨ p `prefix_of` root.

End Frame.

(** ** A damaged ciphertext *)

Module SampleDamaged.
Import FS.

(** The ciphertext of "Hello, World!" at the relative path [f], followed by
    a record of declared length zero. *)
Definition ciphertext : list byte :=
  Format.file RefAEAD.seal Sample.key Sample.nonce (Sample.bytes_of_string "f")
    Sample.hello
  ++ Struct.le_bytes 4 0.

Definition md : FileMetadata :=
  {| relative_path := JStr "f";
     original_size := JInt 13;
     encrypted_size := JInt 54;
     is_directory := JBool false;
     permissions := JInt 33188 |}.

(** An encrypted directory [enc] that holds this ciphertext, and an empty
    target directory [dec]. *)
Definition w : world :=
  World (list_to_map
           [(["enc"], Dir 493);
            (["enc"; "f.encrypted"], File 420 ciphertext);
            (["dec"], Dir 493)]) 0.

(** The same directory, where the ciphertext was replaced by the header of
    an empty file. *)
Definition w_cut : world :=
  World (list_to_map
           [(["enc"], Dir 493);
            (["enc"; "f.encrypted"], File 420 (Format.header Sample.nonce 0));
            (["dec"], Dir 493)]) 0.

End SampleDamaged.

(** ** Helpers ([utils/helpers.py]) *)

Module Helpers.
Import FS OS.


(** [p.name]: the last component, the empty string for the root. *)
Definition name (p : Path.t) : string := default "" (last p).

Section WithEnv.
Variable E : Env.t.




(** [original_path.parent / f"{original_path.name}.backup{counter}"] *)
Definition backup_path (original_path : Path.t) (counter : N) : Path.t :=
  Path.div (Path.parent original_path)
    (Path.parse (name original_path +:+ ".backup" +:+ pretty counter)).

(** The [while True] loop of [create_backup_name] (lines 102-106);
    [fuel] bounds the number of iterations, and [None] is returned when
    it runs out. *)
Fixpoint backup_loop (fuel : nat) (original_path : Path.t) (counter : N)
    : M world (option Path.t) :=
  match fuel with
  | O => ret None
  | S fuel' =>
      let* found := exists_ (backup_path original_path counter) in
      if negb found then ret (Some (backup_path original_path counter))
      else backup_loop fuel' original_path (counter + 1)
  end.

(** [create_backup_name] *)
Definition create_backup_name (fuel : nat) (original_path : Path.t)
    : M world (option Path.t) :=
  backup_loop fuel original_path 1.

End WithEnv.



End Helpers.

(** The entries of the sample tree, by relative path. *)
Module SampleEntries.
Import FS.

Definition es : list (list string * node) :=
  [(["hello.txt"], File 420 Sample.hello);
   (["a"], Dir 493);
   (["a"; "b"], Dir 488);
   (["a"; "b"; "c.txt"], File 384 (Sample.bytes_of_string "x"));
   (["empty"], Dir 448)].

End SampleEntries.

(** ** What [_load_metadata] accepts, in words *)

Module Schema.
Import Manifest.

(** [m] is a dictionary whose keys are fields of [FileMetadata] and include
    the four fields without a default; [md] holds its values as they are,
    and [None] for a missing [permissions]. *)
Definition entry (m : json) (md : FileMetadata) : Prop :=
  ∃ d, m = JDict d
    ∧ (∀ k v, (k, v) ∈ d → k ∈ fields)
    ∧ Py.get "relative_path" d = Some (relative_path md)
    ∧ Py.get "original_size" d = Some (original_size md)
    ∧ Py.get "encrypted_size" d = Some (encrypted_size md)
    ∧ Py.get "is_directory" d = Some (is_directory md)
    ∧ default JNull (Py.get "permissions" d) = permissions md.

(** The document is a dictionary whose ["version"] equals 1 and whose
    ["files"] (the empty list when the key is absent) can be iterated and
    yields entries, which make up [ml] in their order. *)
Definition accepted (j : json) (ml : list FileMetadata) : Prop :=
  ∃ d, j = JDict d
    ∧ Py.eq_int (default JNull (Py.get "version" d)) 1 = true
    ∧ ∃ ms, Py.iter (default (JList []) (Py.get "files" d)) = Some ms
            ∧ Forall2 entry ms ml.

End Schema.

(** ** The worlds in which the system refuses no access

    The user who runs the program owns the entries.  The system lets the
    owner list a directory, reach and create its entries when the mode has
    the owner's read, write and search bits, read a file when it has the
    owner's read bit and overwrite it when it has the owner's write bit
    too; it checks nothing for the superuser. *)

Module Scope.
Import FS.

Definition has (bits perm : N) : bool := N.land perm bits =? bits.

(** Every directory has the owner's bits [0o700]; every file can be read
    ([0o400]), and the files outside [ro], which may be overwritten, can be
    written too ([0o600]). *)
Definition accessible (ro : Path.t) (m : gmap Path.t node) : bool :=
  forallb (λ kv, match kv.2 with
                 | Dir perm => has 448 perm
                 | File perm _ =>
                     has (if bool_decide (ro `prefix_of` kv.1) then 256 else 384) perm
                 end)
    (map_to_list m).


End Scope.

(** ** Sample trees for the order of the manifest and for directory modes *)

Module SampleOrder.
Import FS.

(** [in/foo/bar] and [in/foo.txt]. *)
Definition tree : gmap Path.t node :=
  list_to_map
    [(["in"], Dir 493);
     (["in"; "foo"], Dir 493);
     (["in"; "foo"; "bar"], File 420 (Sample.bytes_of_string "x"));
     (["in"; "foo.txt"], File 420 (Sample.bytes_of_string "y"))].

Definition w0 : world := World tree 0.

Definition encrypted : result unit * world :=
  FileProcessor.encrypt_folder RefEnv.env Sample.engine ["in"] ["enc"] w0.

(** The paths that the manifest lists, in its order. *)
Definition manifest_paths : result (list json) :=
  match FileProcessor._load_metadata RefEnv.env Sample.engine ["enc"] (snd encrypted) with
  | (Ok mds, _) => Ok (relative_path <$> mds)
  | (Raise e, _) => Raise e
  end.

End SampleOrder.

Module SampleReadOnly.
Import FS.

(** The directory [in/d] of mode 0o555 with the file [in/d/f]. *)
Definition tree : gmap Path.t node :=
  list_to_map
    [(["in"], Dir 493);
     (["in"; "d"], Dir 365);
     (["in"; "d"; "f"], File 420 (Sample.bytes_of_string "x"))].

Definition w0 : world := World tree 0.

Definition encrypted : result unit * world :=
  FileProcessor.encrypt_folder RefEnv.env Sample.engine ["in"] ["enc"] w0.

(** The manifest entry of the directory [d]. *)
Definition md_d : FileMetadata :=
  {| relative_path := JStr "d";
     original_size := JInt 0;
     encrypted_size := JInt 0;
     is_directory := JBool true;
     permissions := JInt 16749 |}.

(** The paths that the manifest lists, in its order. *)
Definition manifest_paths : result (list json) :=
  match FileProcessor._load_metadata RefEnv.env Sample.engine ["enc"] (snd encrypted) with
  | (Ok mds, _) => Ok (relative_path <$> mds)
  | (Raise e, _) => Raise e
  end.

(** The encrypted tree with the target directory [dec] created. *)
Definition w1 : world :=
  snd (OS.mkdir_parents RefEnv.env ["dec"] (snd encrypted)).

End SampleReadOnly.

(** * Properties *)

(** ** Bytes and little-endian encodings *)

Module StructFacts.
Import Struct.

Lemma to_N_byte_of_N n : Byte.to_N (byte_of_N n) = n mod 256.
Proof.
  unfold byte_of_N. destruct (Byte.of_N (n mod 256)) as [b|] eqn:E.
  - by apply Byte.to_of_N.
  - apply Byte.of_N_None_iff in E.
    pose proof (N.mod_upper_bound n 256). lia.
Qed.

Lemma to_N_lt b : Byte.to_N b < 256.
Proof. pose proof (Byte.to_N_bounded b). lia. Qed.

Lemma byte_of_N_to_N b : byte_of_N (Byte.to_N b) = b.
Proof.
  unfold byte_of_N. rewrite N.mod_small by apply to_N_lt.
  by rewrite Byte.of_to_N.
Qed.

Lemma lt_256_log2 n : n < 256 → n = 0 ∨ N.log2 n < 8.
Proof.
  intros Hn. destruct (decide (n = 0)) as [->|Hz]; [by left|right].
  apply N.log2_lt_pow2; [lia|]. by change (2 ^ 8) with 256.
Qed.

Lemma to_N_byte_xor a b :
  Byte.to_N (byte_xor a b) = N.lxor (Byte.to_N a) (Byte.to_N b).
Proof.
  unfold byte_xor. rewrite to_N_byte_of_N. apply N.mod_small.
  destruct (decide (N.lxor (Byte.to_N a) (Byte.to_N b) = 0)) as [->|Hz]; [lia|].
  change 256 with (2 ^ 8). apply N.log2_lt_pow2; [lia|].
  eapply N.le_lt_trans; [apply N.log2_lxor|].
  apply N.max_lub_lt.
  - destruct (lt_256_log2 _ (to_N_lt a)) as [->|]; [done|done].
  - destruct (lt_256_log2 _ (to_N_lt b)) as [->|]; [done|done].
Qed.

Lemma length_le_bytes n v : length (le_bytes n v) = n.
Proof. revert v. induction n as [|n IH]; intros v; simpl; [done|]. by rewrite IH. Qed.

Lemma le_bytes_lookup n v (k : nat) :
  (k < n)%nat →
  Byte.to_N <$> le_bytes n v !! k = Some ((v / 256 ^ N.of_nat k) mod 256).
Proof.
  revert v k. induction n as [|n IH]; intros v k Hk; [lia|].
  destruct k as [|k]; simpl.
  - by rewrite to_N_byte_of_N, N.div_1_r.
  - rewrite IH by lia. f_equal. f_equal.
    rewrite N.Div0.div_div. f_equal.
    rewrite Nat2N.inj_succ. by rewrite N.pow_succ_r'.
Qed.

Lemma le_value_le_bytes n v : v < 256 ^ N.of_nat n → le_value (le_bytes n v) = v.
Proof.
  revert v. induction n as [|n IH]; intros v Hv; simpl.
  - simpl in Hv. lia.
  - rewrite to_N_byte_of_N.
    rewrite IH.
    + pose proof (N.div_mod v 256). lia.
    + rewrite Nat2N.inj_succ, N.pow_succ_r' in Hv.
      apply N.Div0.div_lt_upper_bound. lia.
Qed.

Lemma pack_Some size v :
  v < 256 ^ N.of_nat size → pack size v = Some (le_bytes size v).
Proof. intros. unfold pack. by rewrite decide_True. Qed.

Lemma pack_None size v : 256 ^ N.of_nat size ≤ v → pack size v = None.
Proof. intros. unfold pack. rewrite decide_False; [done|lia]. Qed.

Lemma unpack_pack size v bs : pack size v = Some bs → unpack bs = v ∧ length bs = size.
Proof.
  unfold pack. case_decide; [|done]. intros [= <-].
  split; [by apply le_value_le_bytes | apply length_le_bytes].
Qed.

End StructFacts.

(** ** The crypto engine *)

Module EngineFacts.
Import Struct StructFacts Engine Format.

Lemma CHUNK_SIZE_N : N.of_nat CHUNK_SIZE = 65536.
Proof. reflexivity. Qed.

Local Opaque CHUNK_SIZE.

Lemma CHUNK_SIZE_pos : (0 < CHUNK_SIZE)%nat.
Proof. pose proof CHUNK_SIZE_N. lia. Qed.

Lemma pack_Q_ok i (s : files) :
  i < 2 ^ 64 → Engine.pack_Q i s = (Ok (le_bytes 8 i), s).
Proof.
  intros Hi. unfold Engine.pack_Q, Struct.pack_Q. rewrite pack_Some; [done|].
  by change (256 ^ N.of_nat 8) with (2 ^ 64).
Qed.

Lemma pack_I_ok i (s : files) :
  i < 2 ^ 32 → Engine.pack_I i s = (Ok (le_bytes 4 i), s).
Proof.
  intros Hi. unfold Engine.pack_I, Struct.pack_I. rewrite pack_Some; [done|].
  by change (256 ^ N.of_nat 4) with (2 ^ 32).
Qed.

(** [_derive_chunk_nonce] computes [chunk_nonce]. *)
Lemma derive_chunk_nonce_ok (b : list byte) (i : N) :
  length b = 12%nat → i < 2 ^ 64 →
  _derive_chunk_nonce b i = Ok (chunk_nonce b i).
Proof.
  intros Hb Hi. unfold _derive_chunk_nonce, Struct.pack_Q.
  rewrite pack_Some by (by change (256 ^ N.of_nat 8) with (2 ^ 64)).
  do 13 (destruct b as [|? b]; try discriminate Hb).
  reflexivity.
Qed.

Lemma derive_chunk_nonce_short (b : list byte) (i : N) :
  (length b < 8)%nat → i < 2 ^ 64 →
  _derive_chunk_nonce b i = Raise (Exc Exn.IndexError "bytearray index out of range").
Proof.
  intros Hb Hi. unfold _derive_chunk_nonce, Struct.pack_Q.
  rewrite pack_Some by (by change (256 ^ N.of_nat 8) with (2 ^ 64)).
  simpl. unfold xor_at. rewrite decide_False; [done|simpl; lia].
Qed.

Lemma length_chunk_nonce b i : length b = 12%nat → length (chunk_nonce b i) = 12%nat.
Proof.
  intros Hb. unfold chunk_nonce.
  rewrite length_app, length_take, length_zip_with, length_drop, length_le_bytes. lia.
Qed.

Lemma drop_read_rest (n : nat) (s : files) :
  drop (in_pos s + length (take n (rest s))) (in_data s) = drop n (rest s).
Proof.
  unfold rest. rewrite <- drop_drop. set (r := drop (in_pos s) (in_data s)).
  rewrite length_take. destruct (decide (n ≤ length r)%nat).
  - by rewrite Nat.min_l.
  - rewrite Nat.min_r by lia. rewrite !drop_ge; [done|lia|lia].
Qed.

Lemma split_chunks_concat fuel data :
  (length data < fuel)%nat → concat (split_chunks fuel data) = data.
Proof.
  revert data. induction fuel as [|fuel IH]; intros data Hf; [lia|].
  simpl. destruct (take CHUNK_SIZE data) as [|x c] eqn:E.
  - destruct data; [done|]. pose proof CHUNK_SIZE_pos.
    destruct CHUNK_SIZE; [lia|done].
  - simpl. rewrite IH.
    + rewrite app_comm_cons, <- E. apply take_drop.
    + rewrite length_drop. pose proof CHUNK_SIZE_pos.
      destruct data; [done|]. simpl in *. lia.
Qed.

Lemma split_chunks_fuel fuel fuel' data :
  (length data < fuel)%nat → (length data < fuel')%nat →
  split_chunks fuel data = split_chunks fuel' data.
Proof.
  revert fuel' data. induction fuel as [|fuel IH]; intros fuel' data Hf Hf'; [lia|].
  destruct fuel' as [|fuel']; [lia|]. simpl.
  destruct (take CHUNK_SIZE data) as [|x c] eqn:E; [done|]. f_equal.
  pose proof CHUNK_SIZE_pos.
  assert (length (drop CHUNK_SIZE data) < length data)%nat.
  { rewrite length_drop. destruct data; [done|]. simpl. lia. }
  apply IH; lia.
Qed.

Lemma split_chunks_bound fuel data c :
  c ∈ split_chunks fuel data → (0 < length c ≤ CHUNK_SIZE)%nat.
Proof.
  revert data. induction fuel as [|fuel IH]; intros data; simpl; [by intros ?%elem_of_nil|].
  destruct (take CHUNK_SIZE data) as [|x t] eqn:E; [by intros ?%elem_of_nil|].
  intros [->|Hin]%elem_of_cons; [|by eapply IH].
  rewrite <- E, length_take. split; [|lia].
  rewrite <- length_take, E. simpl. lia.
Qed.

Lemma split_chunks_length fuel data :
  (length (split_chunks fuel data) ≤ length data)%nat.
Proof.
  revert data. induction fuel as [|fuel IH]; intros data; simpl; [lia|].
  destruct (take CHUNK_SIZE data) as [|x t] eqn:E; [simpl; lia|]. simpl.
  specialize (IH (drop CHUNK_SIZE data)). rewrite length_drop in IH.
  pose proof CHUNK_SIZE_pos. destruct data; [done|]. simpl in *. lia.
Qed.

Lemma nchunks_0 : nchunks 0 = 0.
Proof. reflexivity. Qed.

Lemma nchunks_small n : 0 < n ≤ 65536 → nchunks n = 1.
Proof.
  intros Hn. unfold nchunks. symmetry.
  apply (N.div_unique _ _ 1 (n - 1)); lia.
Qed.

Lemma nchunks_step n : 65536 < n → nchunks n = nchunks (n - 65536) + 1.
Proof.
  intros Hn. unfold nchunks.
  replace (n + 65535) with (n - 65536 + 65535 + 1 * 65536) by lia.
  by rewrite N.div_add.
Qed.

Lemma split_chunks_count fuel data :
  (length data < fuel)%nat →
  N.of_nat (length (split_chunks fuel data)) = nchunks (N.of_nat (length data)).
Proof.
  revert data. induction fuel as [|fuel IH]; intros data Hf; [lia|].
  cbn [split_chunks]. destruct (take CHUNK_SIZE data) as [|x c] eqn:E.
  - assert (data = []) as ->; [|done].
    destruct data; [done|]. pose proof CHUNK_SIZE_pos.
    destruct CHUNK_SIZE; [lia|done].
  - assert (0 < length data)%nat as Hpos.
    { destruct data; [by rewrite take_nil in E|simpl; lia]. }
    pose proof CHUNK_SIZE_pos. pose proof CHUNK_SIZE_N as HC.
    cbn [length]. rewrite Nat2N.inj_succ, IH by (rewrite length_drop; lia).
    rewrite length_drop.
    destruct (decide (length data ≤ CHUNK_SIZE)%nat).
    + replace (length data - CHUNK_SIZE)%nat with 0%nat by lia.
      rewrite (nchunks_small (N.of_nat (length data))) by lia. done.
    + rewrite (nchunks_step (N.of_nat (length data))) by lia.
      rewrite Nat2N.inj_sub, HC. lia.
Qed.

Section WithAEAD.
Variable seal : list byte → list byte → list byte → list byte → list byte.
Variable unseal : list byte → list byte → list byte → list byte → option (list byte).

(** What the theorems assume of AES-GCM: a 16-byte tag is appended,
    opening a sealed message under the same key, nonce and associated
    data returns it, and nothing shorter than a tag authenticates. *)
Hypothesis seal_length : ∀ k n p ad, length (seal k n p ad) = (length p + TAG_SIZE)%nat.
Hypothesis unseal_seal : ∀ k n p ad, unseal k n (seal k n p ad) ad = Some p.
Hypothesis unseal_short : ∀ k n c ad, (length c < TAG_SIZE)%nat → unseal k n c ad = None.

Lemma encrypt_loop_ok self b ad fuel : ∀ i s,
  length b = 12%nat →
  (length (rest s) < fuel)%nat →
  i + N.of_nat (length (rest s)) < 2 ^ 64 →
  encrypt_loop seal self b ad fuel i s =
    (Ok tt, Files (in_data s) (in_pos s + length (rest s))
              (out_data s
               ++ records seal (key self) b ad i (split_chunks fuel (rest s)))).
Proof using seal_length.
  induction fuel as [|fuel IH]; intros i s Hb Hf Hi; [lia|].
  cbn [encrypt_loop split_chunks]. unfold bind at 1. unfold read at 1. fold (rest s).
  destruct (take CHUNK_SIZE (rest s)) as [|x c] eqn:E.
  - assert (rest s = []) as ->.
    { destruct (rest s); [done|]. pose proof CHUNK_SIZE_pos.
      destruct CHUNK_SIZE; [lia|done]. }
    cbn. unfold ret. by rewrite Nat.add_0_r, app_nil_r.
  - remember (x :: c) as chunk eqn:Hchunk.
    assert (0 < length chunk ≤ CHUNK_SIZE)%nat as Hc.
    { split; [subst; simpl; lia|]. rewrite <- E, length_take. lia. }
    assert (length chunk ≤ length (rest s))%nat as Hcr.
    { rewrite <- E, length_take. lia. }
    rewrite Hchunk at 1. rewrite <- Hchunk.
    unfold bind at 1. rewrite pack_Q_ok by lia.
    unfold bind at 1. unfold derive_chunk_nonce.
    rewrite derive_chunk_nonce_ok by (done || lia).
    unfold bind at 1. rewrite pack_I_ok.
    2:{ rewrite seal_length. unfold TAG_SIZE.
        pose proof CHUNK_SIZE_N. lia. }
    unfold bind at 1. unfold write at 1. cbn [in_data in_pos out_data].
    unfold bind at 1. unfold write at 1. cbn [in_data in_pos out_data].
    assert (rest (Files (in_data s) (in_pos s + length chunk)
              ((out_data s ++ le_bytes 4 (N.of_nat (length
                  (seal (key self) (chunk_nonce b i) chunk (ad ++ le_bytes 8 i)))))
               ++ seal (key self) (chunk_nonce b i) chunk (ad ++ le_bytes 8 i)))
            = drop CHUNK_SIZE (rest s)) as Hrest.
    { unfold rest at 1. cbn [in_data in_pos]. rewrite <- E. apply drop_read_rest. }
    assert (length (drop CHUNK_SIZE (rest s)) = length (rest s) - length chunk)%nat
      as Hlen.
    { rewrite length_drop, <- E, length_take. lia. }
    rewrite IH; rewrite ?Hrest, ?Hlen; [|done|lia|lia].
    cbn [in_data in_pos out_data]. f_equal. f_equal; [lia|].
    unfold records, raw_records, frame, chunk_ad. cbn [sealed fmap list_fmap concat].
    by rewrite <- !app_assoc.
Qed.

Lemma encrypt_file_ok self b ad s :
  length b = 12%nat →
  N.of_nat (length (in_data s)) < 2 ^ 64 →
  encrypt_file seal self b ad s =
    (Ok tt, Files (in_data s) (length (in_data s))
              (out_data s ++ file seal (key self) b ad (in_data s))).
Proof using seal_length.
  intros Hb Hn. unfold encrypt_file, try_except_all.
  unfold bind at 1. unfold size_and_rewind at 1.
  unfold bind at 1. unfold Engine.pack_B at 1, Struct.pack_B.
  rewrite pack_Some by done. cbn [of_option]. unfold ret at 1.
  unfold bind at 1. unfold write at 1. cbn [in_data in_pos out_data].
  unfold bind at 1. unfold write at 1. cbn [in_data in_pos out_data].
  unfold bind at 1. rewrite pack_Q_ok by done.
  unfold bind at 1. unfold write at 1. cbn [in_data in_pos out_data].
  unfold bind at 1. unfold get at 1. cbn [in_data].
  rewrite encrypt_loop_ok; unfold rest; cbn [in_data in_pos out_data];
    rewrite ?drop_0; [|done|lia|lia].
  unfold file, header, chunks. by rewrite <- !app_assoc.
Qed.

(** *** Reading records back *)

Lemma read_prefix (n : nat) (s : files) (a w : list byte) :
  rest s = a ++ w → length a = n →
  read n s = (Ok a, Files (in_data s) (in_pos s + n) (out_data s)).
Proof.
  intros Hr Hn. unfold read. fold (rest s). rewrite Hr.
  rewrite take_app_length' by done. by rewrite Hn.
Qed.

Lemma rest_advance (n : nat) (s : files) (a w o : list byte) :
  rest s = a ++ w → length a = n →
  rest (Files (in_data s) (in_pos s + n) o) = w.
Proof.
  intros Hr Hn. unfold rest in *. cbn [in_data in_pos].
  rewrite <- drop_drop, Hr. by apply drop_app_length'.
Qed.

Lemma read_eof (n : nat) (s : files) :
  rest s = [] → read n s = (Ok [], Files (in_data s) (in_pos s) (out_data s)).
Proof.
  intros Hr. unfold read. fold (rest s). rewrite Hr, take_nil. cbn.
  by rewrite Nat.add_0_r.
Qed.

(** One iteration of the loop of [decrypt_file] on a complete record. *)
Lemma decrypt_loop_step self b ad fuel i tot s l4 ct w :
  rest s = l4 ++ ct ++ w → length l4 = 4%nat →
  N.of_nat (length ct) = unpack l4 →
  length b = 12%nat → i < 2 ^ 64 →
  decrypt_loop unseal self b ad (S fuel) i tot s =
    match unseal (key self) (chunk_nonce b i) ct (chunk_ad ad i) with
    | None =>
        (Raise (Exc Exn.DecryptionError decryption_failed),
         Files (in_data s) (in_pos s + (4 + length ct)) (out_data s))
    | Some p =>
        decrypt_loop unseal self b ad fuel (i + 1) (tot + N.of_nat (length p))
          (Files (in_data s) (in_pos s + (4 + length ct)) (out_data s ++ p))
    end.
Proof.
  intros Hr H4 HL Hb Hi. rewrite !Nat.add_assoc. cbn [decrypt_loop].
  unfold bind at 1. rewrite (read_prefix 4 s l4 (ct ++ w)) by done.
  destruct l4 as [|x l4]; [done|]. remember (x :: l4) as len4.
  rewrite decide_False by (intros ?; done).
  unfold bind at 1.
  pose proof (rest_advance 4 s len4 (ct ++ w) (out_data s) Hr H4) as Hr'.
  rewrite (read_prefix _ _ ct w Hr') by lia.
  rewrite decide_False by (intros ?; done).
  cbn [in_data in_pos out_data].
  unfold bind at 1. rewrite pack_Q_ok by done.
  unfold bind at 1. unfold derive_chunk_nonce.
  rewrite derive_chunk_nonce_ok by done.
  replace (N.to_nat (unpack len4)) with (length ct) by lia.
  fold (chunk_ad ad i).
  destruct (unseal _ _ _ _) as [p|]; [|done].
  unfold bind at 1. unfold write at 1. by cbn [in_data in_pos out_data].
Qed.

(** A record whose declared length exceeds what is left in the file. *)
Lemma decrypt_loop_truncated self b ad fuel i tot s l4 w :
  rest s = l4 ++ w → length l4 = 4%nat →
  N.of_nat (length w) < unpack l4 →
  decrypt_loop unseal self b ad (S fuel) i tot s =
    (Raise (Exc Exn.DecryptionError "Invalid file: corrupted chunk data"),
     Files (in_data s) (in_pos s + 4 + length w) (out_data s)).
Proof.
  intros Hr H4 HL. cbn [decrypt_loop].
  unfold bind at 1. rewrite (read_prefix 4 s l4 w) by done.
  destruct l4 as [|x l4]; [done|]. remember (x :: l4) as len4.
  rewrite decide_False by (intros ?; done).
  unfold bind at 1.
  pose proof (rest_advance 4 s len4 w (out_data s) Hr H4) as Hr'.
  unfold read at 1. fold (rest (Files (in_data s) (in_pos s + 4) (out_data s))).
  rewrite Hr'. rewrite take_ge by lia. cbn [in_data in_pos out_data].
  rewrite decide_True by lia. done.
Qed.

(** A trailing partial length prefix. *)
Lemma decrypt_loop_partial_length self b ad fuel i tot s :
  (0 < length (rest s) < 4)%nat →
  decrypt_loop unseal self b ad (S fuel) i tot s =
    (Raise (Exc Exn.DecryptionError "Invalid file: corrupted chunk size"),
     Files (in_data s) (in_pos s + length (rest s)) (out_data s)).
Proof.
  intros Hr. cbn [decrypt_loop]. unfold bind at 1, read at 1. fold (rest s).
  rewrite take_ge by lia. destruct (rest s) as [|x r] eqn:E; [simpl in Hr; lia|].
  rewrite decide_True by lia. done.
Qed.

Lemma decrypt_loop_eof self b ad fuel i tot s :
  rest s = [] →
  decrypt_loop unseal self b ad (S fuel) i tot s =
    (Ok tot, Files (in_data s) (in_pos s) (out_data s)).
Proof.
  intros Hr. cbn [decrypt_loop]. unfold bind at 1. by rewrite read_eof.
Qed.

Lemma length_raw_records cts :
  length (raw_records cts) = (length (concat cts) + 4 * length cts)%nat.
Proof.
  induction cts as [|ct cts IH]; [done|].
  unfold raw_records in *. cbn [fmap list_fmap concat length]. unfold frame at 1.
  rewrite !length_app, length_le_bytes, IH. lia.
Qed.

Lemma length_sealed key b ad cs : ∀ i, length (sealed seal key b ad i cs) = length cs.
Proof. induction cs as [|c cs IH]; intros i; cbn; [done|]. by rewrite IH. Qed.

Lemma length_concat_sealed key b ad cs : ∀ i,
  length (concat (sealed seal key b ad i cs))
  = (length (concat cs) + TAG_SIZE * length cs)%nat.
Proof using seal_length.
  induction cs as [|c cs IH]; intros i; [done|].
  cbn [sealed concat length]. rewrite !length_app, seal_length, IH. lia.
Qed.

Lemma length_records key b ad cs i :
  length (records seal key b ad i cs)
  = (length (concat cs) + (4 + TAG_SIZE) * length cs)%nat.
Proof using seal_length.
  unfold records. rewrite length_raw_records, length_concat_sealed, length_sealed. lia.
Qed.

Lemma sealed_lookup key b ad cs : ∀ i (j : nat),
  sealed seal key b ad i cs !! j
  = (λ c, seal key (chunk_nonce b (i + N.of_nat j)) c (chunk_ad ad (i + N.of_nat j)))
      <$> cs !! j.
Proof.
  induction cs as [|c cs IH]; intros i j; [done|].
  destruct j as [|j]; cbn [sealed lookup list_lookup].
  - cbn. by rewrite N.add_0_r.
  - rewrite IH. by replace (i + 1 + N.of_nat j) with (i + N.of_nat (S j)) by lia.
Qed.

Lemma opens_sealed key b ad cs : ∀ i,
  opens unseal key b ad i (sealed seal key b ad i cs) cs.
Proof using unseal_seal.
  induction cs as [|c cs IH]; intros i; cbn; constructor; auto.
Qed.

(** The loop of [decrypt_file] on a sequence of complete records followed
    by [tail]: chunk [i] is opened under [chunk_nonce b i] and
    [chunk_ad ad i], and the loop goes on with [tail]. *)
Lemma decrypt_loop_prefix self b ad cts : ∀ ps fuel i tot s tail,
  rest s = raw_records cts ++ tail →
  opens unseal (key self) b ad i cts ps →
  length b = 12%nat →
  i + N.of_nat (length cts) < 2 ^ 64 →
  Forall (λ ct, N.of_nat (length ct) < 2 ^ 32) cts →
  decrypt_loop unseal self b ad (length cts + fuel) i tot s =
    decrypt_loop unseal self b ad fuel (i + N.of_nat (length cts))
      (tot + N.of_nat (length (concat ps)))
      (Files (in_data s) (in_pos s + length (raw_records cts))
         (out_data s ++ concat ps)).
Proof.
  induction cts as [|ct cts IH]; intros ps fuel i tot s tail Hr Ho Hb Hi Hcs.
  - inversion Ho; subst. cbn. rewrite !N.add_0_r, Nat.add_0_r, app_nil_r.
    by destruct s.
  - inversion Ho as [|? ? p ? ps' Hopen Ho']; subst.
    apply Forall_cons in Hcs as [Hc Hcs]. cbn [length] in Hi.
    unfold raw_records in Hr. cbn [fmap list_fmap concat] in Hr.
    fold (raw_records cts) in Hr. unfold frame at 1 in Hr.
    rewrite <- !app_assoc in Hr.
    cbn [length Nat.add].
    erewrite decrypt_loop_step; [|exact Hr|apply length_le_bytes| |done|lia].
    2:{ unfold unpack. rewrite le_value_le_bytes; [done|].
        by change (256 ^ N.of_nat 4) with (2 ^ 32). }
    rewrite Hopen.
    assert (rest (Files (in_data s) (in_pos s + (4 + length ct)) (out_data s ++ p))
            = raw_records cts ++ tail) as Hr'.
    { eapply rest_advance.
      - rewrite Hr. rewrite (app_assoc (le_bytes 4 _)). reflexivity.
      - rewrite length_app, length_le_bytes. lia. }
    erewrite IH; [|exact Hr'|exact Ho'|done|lia|done].
    cbn [in_data in_pos out_data concat].
    unfold raw_records at 2. cbn [fmap list_fmap concat]. fold (raw_records cts).
    unfold frame at 1. rewrite !length_app, length_le_bytes.
    f_equal; [lia|lia|]. f_equal; [lia|]. by rewrite <- app_assoc.
Qed.

Lemma decrypt_loop_opens self b ad cts ps fuel i tot s :
  rest s = raw_records cts →
  opens unseal (key self) b ad i cts ps →
  length b = 12%nat →
  (length cts < fuel)%nat →
  i + N.of_nat (length cts) < 2 ^ 64 →
  Forall (λ ct, N.of_nat (length ct) < 2 ^ 32) cts →
  decrypt_loop unseal self b ad fuel i tot s =
    (Ok (tot + N.of_nat (length (concat ps))),
     Files (in_data s) (in_pos s + length (rest s)) (out_data s ++ concat ps)).
Proof.
  intros Hr Ho Hb Hf Hi Hcts.
  replace fuel with (length cts + S (fuel - S (length cts)))%nat by lia.
  rewrite (decrypt_loop_prefix self b ad cts ps _ i tot s []);
    [|by rewrite app_nil_r|done|done|done|done].
  rewrite decrypt_loop_eof.
  - cbn [in_data in_pos out_data]. by rewrite Hr.
  - apply (rest_advance _ s (raw_records cts) []); [by rewrite Hr, app_nil_r|done].
Qed.

(** [decrypt_file] once the 21-byte header is read. *)
Lemma decrypt_file_header self ad s b size body :
  rest s = header b size ++ body →
  length b = 12%nat → size < 2 ^ 64 →
  decrypt_file unseal self ad s =
    try_except_all
      (let* total := decrypt_loop unseal self b ad (S (length (in_data s))) 0 0 in
       check_size size total)
      reraise
      (Files (in_data s) (in_pos s + 21) (out_data s)).
Proof.
  intros Hr Hb Hsize. unfold decrypt_file, try_except_all.
  unfold header in Hr. rewrite <- !app_assoc in Hr.
  unfold bind at 1. rewrite (read_prefix 1 s _ _ Hr) by done.
  cbn [le_bytes]. rewrite decide_False.
  2:{ intros H. apply H. unfold unpack. cbn [le_value].
      rewrite to_N_byte_of_N. done. }
  pose proof (rest_advance 1 s _ _ (out_data s) Hr eq_refl) as Hr1.
  unfold bind at 1. rewrite (read_prefix NONCE_SIZE _ _ _ Hr1) by done.
  rewrite decide_False by (intros H; apply H; done).
  pose proof (rest_advance NONCE_SIZE _ _ _ (out_data s) Hr1 Hb) as Hr2.
  cbn [in_data in_pos out_data] in Hr2 |- *.
  unfold bind at 1. rewrite (read_prefix 8 _ _ _ Hr2) by apply length_le_bytes.
  rewrite decide_False by (intros H; apply H; apply length_le_bytes).
  cbn [in_data in_pos out_data].
  unfold bind at 1. unfold get at 1. cbn [in_data].
  replace (in_pos s + 1 + NONCE_SIZE + 8)%nat with (in_pos s + 21)%nat
    by (unfold NONCE_SIZE; lia).
  unfold unpack. rewrite le_value_le_bytes
    by (by change (256 ^ N.of_nat 8) with (2 ^ 64)).
  done.
Qed.

Lemma rest_after_header s b size body o :
  rest s = header b size ++ body → length b = 12%nat →
  rest (Files (in_data s) (in_pos s + 21) o) = body.
Proof.
  intros Hr Hb. eapply rest_advance; [exact Hr|].
  unfold header. rewrite !length_app, !length_le_bytes. lia.
Qed.

(** [decrypt_file] once the header and a prefix of records that open
    are read. *)
Lemma decrypt_file_prefix self ad s b size cts ps tail :
  rest s = header b size ++ raw_records cts ++ tail →
  opens unseal (key self) b ad 0 cts ps →
  length b = 12%nat → size < 2 ^ 64 →
  N.of_nat (length cts) < 2 ^ 64 →
  Forall (λ ct, N.of_nat (length ct) < 2 ^ 32) cts →
  decrypt_file unseal self ad s =
    try_except_all
      (let* total :=
         decrypt_loop unseal self b ad (S (length (in_data s) - length cts))
           (N.of_nat (length cts)) (N.of_nat (length (concat ps))) in
       check_size size total)
      reraise
      (Files (in_data s) (in_pos s + (21 + length (raw_records cts)))
         (out_data s ++ concat ps)).
Proof.
  intros Hr Ho Hb Hsize Hn Hcts.
  rewrite (decrypt_file_header self ad s b size _ Hr Hb Hsize).
  pose proof (rest_after_header s b size _ (out_data s) Hr Hb) as Hr'.
  assert (length (rest s) = 21 + length (raw_records cts) + length tail)%nat as Hlen.
  { rewrite Hr. unfold header. rewrite !length_app, !length_le_bytes. lia. }
  assert (length (rest s) ≤ length (in_data s))%nat as Hle.
  { unfold rest. rewrite length_drop. lia. }
  pose proof (length_raw_records cts) as Hraw.
  unfold try_except_all, bind.
  replace (S (length (in_data s)))
    with (length cts + S (length (in_data s) - length cts))%nat by lia.
  rewrite (decrypt_loop_prefix self b ad cts ps _ 0 0 _ tail Hr' Ho Hb);
    [|lia|done].
  cbn [in_data in_pos out_data]. by rewrite !N.add_0_l, Nat.add_assoc.
Qed.

(** [decrypt_file] on a header followed by complete records. *)
Lemma decrypt_file_opens self ad s b size cts ps :
  rest s = header b size ++ raw_records cts →
  opens unseal (key self) b ad 0 cts ps →
  length b = 12%nat → size < 2 ^ 64 →
  N.of_nat (length cts) < 2 ^ 64 →
  Forall (λ ct, N.of_nat (length ct) < 2 ^ 32) cts →
  decrypt_file unseal self ad s =
    (if decide (N.of_nat (length (concat ps)) ≠ size) then
       Raise (Exc Exn.DecryptionError
                ("File size mismatch: expected " +:+ pretty size +:+ ", got "
                 +:+ pretty (N.of_nat (length (concat ps)))))
     else Ok tt,
     Files (in_data s) (in_pos s + length (rest s)) (out_data s ++ concat ps)).
Proof.
  intros Hr Ho Hb Hsize Hn Hcts.
  rewrite (decrypt_file_prefix self ad s b size cts ps []);
    [|by rewrite app_nil_r|done..].
  unfold try_except_all, bind. rewrite decrypt_loop_eof.
  2:{ apply (rest_advance _ s (header b size ++ raw_records cts) []).
      - by rewrite Hr, app_nil_r.
      - unfold header. rewrite !length_app, !length_le_bytes. lia. }
  cbn [in_data in_pos out_data]. rewrite Hr.
  replace (length (header b size ++ raw_records cts))
    with (21 + length (raw_records cts))%nat
    by (unfold header; rewrite !length_app, !length_le_bytes; lia).
  unfold check_size. by destruct (decide (_ ≠ size)).
Qed.

Lemma opens_app key b ad cts : ∀ ps i ct p,
  opens unseal key b ad i cts ps →
  unseal key (chunk_nonce b (i + N.of_nat (length cts))) ct
    (chunk_ad ad (i + N.of_nat (length cts))) = Some p →
  opens unseal key b ad i (cts ++ [ct]) (ps ++ [p]).
Proof.
  induction cts as [|c cts IH]; intros ps i ct p Ho Hu.
  - inversion Ho; subst. cbn in Hu. rewrite N.add_0_r in Hu.
    cbn. constructor; [done|constructor].
  - inversion Ho as [|? ? p' ? ps' Hopen Ho']; subst.
    cbn. constructor; [done|]. apply IH; [done|].
    by replace (i + 1 + N.of_nat (length cts))
      with (i + N.of_nat (length (c :: cts))) by (cbn [length]; lia).
Qed.

Lemma sealed_bound key b ad cs : ∀ i,
  Forall (λ c, N.of_nat (length c + TAG_SIZE) < 2 ^ 32) cs →
  Forall (λ ct, N.of_nat (length ct) < 2 ^ 32) (sealed seal key b ad i cs).
Proof using seal_length.
  induction cs as [|c cs IH]; intros i Hcs; cbn [sealed]; [constructor|].
  apply Forall_cons in Hcs as [Hc Hcs].
  constructor; [by rewrite seal_length|by apply IH].
Qed.

Lemma chunks_bound data :
  Forall (λ c, N.of_nat (length c + TAG_SIZE) < 2 ^ 32) (chunks data).
Proof.
  apply list.Forall_forall. intros c Hc. unfold chunks in Hc.
  apply split_chunks_bound in Hc.
  pose proof CHUNK_SIZE_N. unfold TAG_SIZE. lia.
Qed.

(** [decrypt_file] inverts [encrypt_file]. *)
Lemma decrypt_file_of_file self b ad data o :
  length b = 12%nat →
  N.of_nat (length data) < 2 ^ 64 →
  decrypt_file unseal self ad (Files (file seal (key self) b ad data) 0 o) =
    (Ok tt, Files (file seal (key self) b ad data)
              (length (file seal (key self) b ad data)) (o ++ data)).
Proof using seal_length unseal_seal.
  intros Hb Hn.
  set (s := Files (file seal (key self) b ad data) 0 o).
  assert (rest s = header b (N.of_nat (length data))
                   ++ raw_records (sealed seal (key self) b ad 0 (chunks data)))
    as Hr by (unfold rest; by rewrite drop_0).
  pose proof (split_chunks_length (S (length data)) data) as Hlen.
  fold (chunks data) in Hlen.
  erewrite decrypt_file_opens;
    [|exact Hr|apply opens_sealed|done|done| |apply sealed_bound, chunks_bound].
  2:{ rewrite length_sealed. lia. }
  unfold chunks. rewrite !split_chunks_concat by lia.
  rewrite decide_False by (intros H; by apply H).
  subst s. unfold rest. by rewrite drop_0.
Qed.

Lemma length_file key b ad data :
  length b = 12%nat →
  N.of_nat (length (file seal key b ad data))
  = 21 + nchunks (N.of_nat (length data)) * 4 + N.of_nat (length data)
    + nchunks (N.of_nat (length data)) * 16.
Proof using seal_length.
  intros Hb. unfold file, header.
  rewrite !length_app, !length_le_bytes, length_records, Hb.
  unfold chunks. rewrite split_chunks_concat by lia.
  pose proof (split_chunks_count (S (length data)) data ltac:(lia)) as <-.
  unfold TAG_SIZE. lia.
Qed.

End WithAEAD.

End EngineFacts.

(** ** The reference AEAD has the assumed properties *)

Module RefAEADFacts.
Import RefAEAD.

Lemma length_tag k n ad d : length (tag k n ad d) = 16%nat.
Proof. apply StructFacts.length_le_bytes. Qed.

Lemma seal_length k n p ad : length (seal k n p ad) = (length p + Engine.TAG_SIZE)%nat.
Proof. unfold seal. by rewrite length_app, length_tag. Qed.

Lemma unseal_seal k n p ad : unseal k n (seal k n p ad) ad = Some p.
Proof.
  unfold unseal. rewrite seal_length. unfold Engine.TAG_SIZE.
  rewrite decide_False by lia.
  replace (length p + 16 - 16)%nat with (length p) by lia.
  unfold seal. rewrite take_app_length, drop_app_length.
  by rewrite decide_True.
Qed.

Lemma unseal_short k n c ad : (length c < Engine.TAG_SIZE)%nat → unseal k n c ad = None.
Proof. intros H. unfold unseal. by rewrite decide_True. Qed.

End RefAEADFacts.

(** ** Properties of the chunk cipher *)

Section ChunkCipher.
Import Struct StructFacts Engine Format EngineFacts.

Variable seal : list byte → list byte → list byte → list byte → list byte.
Variable unseal : list byte → list byte → list byte → list byte → option (list byte).
Hypothesis seal_length : ∀ k n p ad, length (seal k n p ad) = (length p + TAG_SIZE)%nat.
Hypothesis unseal_short : ∀ k n c ad, (length c < TAG_SIZE)%nat → unseal k n c ad = None.
Hypothesis unseal_seal : ∀ k n p ad, unseal k n (seal k n p ad) ad = Some p.

Lemma nchunks_ceil n : n ≤ nchunks n * 65536 < n + 65536.
Proof.
  unfold nchunks.
  pose proof (N.Div0.div_mod (n + 65535) 65536) as Hdm.
  pose proof (N.mod_upper_bound (n + 65535) 65536) as Hub.
  set (q := (n + 65535) / 65536) in *. set (r := (n + 65535) mod 65536) in *.
  lia.
Qed.

(** C3. Encrypting a file of [n] bytes (with the 12-byte nonce that
    [generate_nonce] returns, and [n] below [2^64], as every file size is)
    succeeds and writes exactly [21 + ceil(n/65536)*4 + n + ceil(n/65536)*16]
    bytes, where [nchunks n] is [ceil(n/65536)]; for an empty file the output
    is the 21-byte header alone, with no chunk record. *)
Theorem encrypt_file_size (self : Engine.t) (b ad data : list byte) :
  length b = NONCE_SIZE →
  N.of_nat (length data) < 2 ^ 64 →
  let n := N.of_nat (length data) in
  ∃ out,
    encrypt_file seal self b ad (open_files data)
      = (Ok tt, Files data (length data) out)
    ∧ N.of_nat (length out) = 21 + nchunks n * 4 + n + nchunks n * 16
    ∧ n ≤ nchunks n * 65536 < n + 65536
    ∧ (n = 0 → out = header b 0 ∧ length out = 21%nat).
Proof using seal_length.
  intros Hb Hn n. exists (file seal (key self) b ad data).
  split; [|split; [|split]].
  - by rewrite (encrypt_file_ok seal seal_length).
  - by apply length_file.
  - apply nchunks_ceil.
  - intros H0. assert (data = []) as -> by (destruct data; [done|subst n; simpl in H0; lia]).
    unfold file, chunks. cbn [length split_chunks]. rewrite take_nil.
    unfold records, raw_records. cbn [sealed fmap list_fmap concat].
    rewrite app_nil_r. split; [done|].
    unfold header. rewrite !length_app, !length_le_bytes, Hb. done.
Qed.

(** C4. For a 12-byte base nonce [b] and a chunk index [i < 2^64],
    [_derive_chunk_nonce] returns [b] with byte [k] of the little-endian u64
    of [i] XORed into [b[4+k]] and the first four bytes unchanged
    ([Format.chunk_nonce]); [encrypt_file] seals chunk [j] under that nonce,
    and [decrypt_file] accepts a file exactly by opening record [j] under the
    same nonce ([Format.opens]). *)
Theorem chunk_nonce_derivation (b : list byte) :
  length b = NONCE_SIZE →
  (∀ i, i < 2 ^ 64 →
     _derive_chunk_nonce b i = Ok (chunk_nonce b i)
     ∧ length (chunk_nonce b i) = NONCE_SIZE
     ∧ (∀ k, (k < 4)%nat → chunk_nonce b i !! k = b !! k)
     ∧ (∀ k x, (k < 8)%nat → b !! (4 + k)%nat = Some x →
          Byte.to_N <$> chunk_nonce b i !! (4 + k)%nat
          = Some (N.lxor (Byte.to_N x) ((i / 256 ^ N.of_nat k) mod 256))))
  ∧ (∀ self ad data, N.of_nat (length data) < 2 ^ 64 →
       ∃ cts,
         encrypt_file seal self b ad (open_files data)
           = (Ok tt, Files data (length data)
                       (header b (N.of_nat (length data)) ++ raw_records cts))
         ∧ length cts = length (chunks data)
         ∧ ∀ (j : nat) c, chunks data !! j = Some c →
             cts !! j = Some (seal (key self) (chunk_nonce b (N.of_nat j)) c
                                (ad ++ le_bytes 8 (N.of_nat j))))
  ∧ (∀ self ad size cts ps,
       size < 2 ^ 64 → N.of_nat (length cts) < 2 ^ 64 →
       Forall (λ ct, N.of_nat (length ct) < 2 ^ 32) cts →
       opens unseal (key self) b ad 0 cts ps →
       N.of_nat (length (concat ps)) = size →
       ∃ pos, decrypt_file unseal self ad (open_files (header b size ++ raw_records cts))
              = (Ok tt, Files (header b size ++ raw_records cts) pos (concat ps))).
Proof using seal_length.
  intros Hb. split; [|split].
  - intros i Hi. split; [by apply derive_chunk_nonce_ok|].
    split; [by apply length_chunk_nonce|]. split.
    + intros k Hk. unfold chunk_nonce.
      rewrite lookup_app_l by (rewrite length_take; unfold NONCE_SIZE in Hb; lia).
      by rewrite lookup_take_lt.
    + intros k x Hk Hx. unfold chunk_nonce.
      rewrite lookup_app_r by (rewrite length_take; lia).
      rewrite length_take, Hb.
      replace (4 + k - 4 `min` NONCE_SIZE)%nat with k by (unfold NONCE_SIZE; lia).
      rewrite lookup_zip_with, lookup_drop, Hx. cbn [mbind option_bind].
      pose proof (le_bytes_lookup 8 i k Hk) as Hle.
      destruct (le_bytes 8 i !! k) as [y|]; [|done]. cbn in Hle |- *.
      injection Hle as Hle. by rewrite to_N_byte_xor, Hle.
  - intros self ad data Hn.
    exists (sealed seal (key self) b ad 0 (chunks data)). split; [|split].
    + by rewrite (encrypt_file_ok seal seal_length).
    + apply length_sealed.
    + intros j c Hc. rewrite sealed_lookup, Hc. cbn. by rewrite N.add_0_l.
  - intros self ad size cts ps Hsize Hn Hcts Ho Hps.
    eexists.
    rewrite (decrypt_file_opens unseal self ad
               (open_files (header b size ++ raw_records cts)) b size cts ps);
      [|done|done|done|done|done|done].
    rewrite decide_False by (intros H; by apply H). reflexivity.
Qed.

(** C6, as the code has it.  [decrypt_file] has no check on the declared
    length of a chunk record.  After any prefix of records that open:
    - a record of declared length zero is handed to AES-GCM, which rejects
      it, so the error is the authentication failure
      ([Engine.decryption_failed]);
    - a record of any declared length whose bytes are all present is
      rejected exactly when AES-GCM rejects it, again as an authentication
      failure, and is accepted when it opens, also above [65536 + 16];
    - only a declared length that exceeds the bytes left in the file is
      rejected as malformed input ("corrupted chunk data"). *)
Theorem decrypt_file_chunk_length (self : Engine.t) (b ad : list byte) (size : N)
    (cts ps : list (list byte)) :
  length b = NONCE_SIZE → size < 2 ^ 64 →
  N.of_nat (length cts) + 1 < 2 ^ 64 →
  Forall (λ ct, N.of_nat (length ct) < 2 ^ 32) cts →
  opens unseal (key self) b ad 0 cts ps →
  let i := N.of_nat (length cts) in
  let run bad :=
    fst (decrypt_file unseal self ad
           (open_files (header b size ++ raw_records cts ++ bad))) in
  (∀ w, run (le_bytes 4 0 ++ w) = Raise (Exc Exn.DecryptionError decryption_failed))
  ∧ (∀ ct w, N.of_nat (length ct) < 2 ^ 32 →
       unseal (key self) (chunk_nonce b i) ct (chunk_ad ad i) = None →
       run (frame ct ++ w) = Raise (Exc Exn.DecryptionError decryption_failed))
  ∧ (∀ ct p, N.of_nat (length ct) < 2 ^ 32 →
       unseal (key self) (chunk_nonce b i) ct (chunk_ad ad i) = Some p →
       N.of_nat (length (concat ps) + length p) = size →
       run (frame ct) = Ok tt)
  ∧ (∀ l4 w, length l4 = 4%nat → N.of_nat (length w) < unpack l4 →
       run (l4 ++ w)
       = Raise (Exc Exn.DecryptionError "Invalid file: corrupted chunk data")).
Proof using unseal_short.
  intros Hb Hsize Hn Hcts Ho i run. subst i.
  assert (∀ bad ct w, bad = frame ct ++ w → N.of_nat (length ct) < 2 ^ 32 →
            unseal (key self) (chunk_nonce b (N.of_nat (length cts))) ct
              (chunk_ad ad (N.of_nat (length cts))) = None →
            run bad = Raise (Exc Exn.DecryptionError decryption_failed)) as Hfail.
  { intros bad ct w -> Hct Hu. subst run. cbv beta.
    rewrite (decrypt_file_prefix unseal self ad _ b size cts ps (frame ct ++ w));
      [|done|done|done|done|lia|done].
    unfold try_except_all, bind.
    erewrite decrypt_loop_step; [| |apply length_le_bytes| |done|lia].
    - rewrite Hu. reflexivity.
    - eapply rest_advance.
      + unfold rest, open_files. cbn [in_data in_pos]. rewrite drop_0.
        rewrite (app_assoc (header b size)). unfold frame.
        rewrite <- (app_assoc (le_bytes 4 _)). reflexivity.
      + unfold header. rewrite !length_app, !length_le_bytes.
        unfold NONCE_SIZE in Hb. cbn [open_files in_pos]. lia.
    - unfold unpack. rewrite le_value_le_bytes; [done|].
      by change (256 ^ N.of_nat 4) with (2 ^ 32). }
  split; [|split; [|split]].
  - intros w. apply (Hfail _ [] w); [done|done|].
    apply unseal_short. unfold TAG_SIZE. cbn. lia.
  - intros ct w Hct Hu. by apply (Hfail _ ct w).
  - intros ct p Hct Hu Hp. subst run. cbv beta.
    rewrite (decrypt_file_opens unseal self ad _ b size (cts ++ [ct]) (ps ++ [p])).
    + rewrite decide_False; [done|]. intros H. apply H.
      rewrite concat_app, length_app. cbn. rewrite app_nil_r. done.
    + unfold rest, open_files. cbn [in_data in_pos]. rewrite drop_0.
      unfold raw_records. rewrite fmap_app, concat_app. cbn. by rewrite app_nil_r.
    + apply opens_app; [done|]. by rewrite N.add_0_l.
    + done.
    + done.
    + rewrite length_app. cbn. lia.
    + apply Forall_app. split; [done|]. by constructor.
  - intros l4 w H4 Hw. subst run. cbv beta.
    rewrite (decrypt_file_prefix unseal self ad _ b size cts ps (l4 ++ w));
      [|done|done|done|done|lia|done].
    unfold try_except_all, bind.
    erewrite decrypt_loop_truncated; [reflexivity| |done|done].
    eapply rest_advance.
    + unfold rest, open_files. cbn [in_data in_pos]. rewrite drop_0.
      rewrite (app_assoc (header b size)). reflexivity.
    + unfold header. rewrite !length_app, !length_le_bytes.
      unfold NONCE_SIZE in Hb. cbn [open_files in_pos]. lia.
Qed.

End ChunkCipher.

(** C3 at the 13 bytes of "Hello, World!": 54 bytes are written. *)
Lemma encrypt_file_size_witness :
  ∃ out,
    Engine.encrypt_file RefAEAD.seal Sample.engine Sample.nonce []
      (open_files Sample.hello) = (Ok tt, Files Sample.hello 13 out)
    ∧ N.of_nat (length out) = 21 + Format.nchunks 13 * 4 + 13 + Format.nchunks 13 * 16
    ∧ 13 ≤ Format.nchunks 13 * 65536 < 13 + 65536
    ∧ (13 = 0 → out = Format.header Sample.nonce 0 ∧ length out = 21%nat).
Proof.
  apply (encrypt_file_size RefAEAD.seal RefAEADFacts.seal_length
           Sample.engine Sample.nonce [] Sample.hello).
  - reflexivity.
  - vm_compute. reflexivity.
Defined.

(** The 13-byte file encrypts to 54 bytes, the empty file to 21. *)
Example encrypt_file_hello :
  length (out_data (snd (Engine.encrypt_file RefAEAD.seal Sample.engine Sample.nonce []
                           (open_files Sample.hello)))) = 54%nat
  ∧ out_data (snd (Engine.encrypt_file RefAEAD.seal Sample.engine Sample.nonce []
                     (open_files []))) = Format.header Sample.nonce 0.
Proof. split; vm_compute; reflexivity. Qed.

(** C6 as stated fails: a zero-length chunk record is rejected with the very
    exception that a wrong key produces, and a record of declared length
    [65536 + 17] is accepted. *)
Lemma chunk_length_unchecked :
  fst (Engine.decrypt_file RefAEAD.unseal Sample.engine []
         (open_files Sample.zero_length_record))
    = Raise (Exc Exn.DecryptionError Engine.decryption_failed)
  ∧ fst (Engine.decrypt_file RefAEAD.unseal (Engine.Make Sample.other_key) []
           (open_files (Format.file RefAEAD.seal Sample.key Sample.nonce [] Sample.hello)))
    = Raise (Exc Exn.DecryptionError Engine.decryption_failed)
  ∧ Struct.unpack (take 4 (drop 21 Sample.oversized_record)) = 65536 + 17
  ∧ fst (Engine.decrypt_file RefAEAD.unseal Sample.engine []
           (open_files Sample.oversized_record)) = Ok tt.
Proof. split; [|split; [|split]]; vm_compute; reflexivity. Qed.

(** C4 at the nonce [10 10 ... 10] (hex) and chunk 258 = 0x0102: bytes 4 and 5
    become 0x12 and 0x11. *)
Lemma chunk_nonce_derivation_witness :
  length Sample.nonce = Engine.NONCE_SIZE ∧ 258 < 2 ^ 64
  ∧ Engine._derive_chunk_nonce Sample.nonce 258
    = Ok [x10; x10; x10; x10; x12; x11; x10; x10; x10; x10; x10; x10].
Proof.
  split; [reflexivity|]. split; [reflexivity|].
  exact (proj1 (proj1 (chunk_nonce_derivation RefAEAD.seal RefAEAD.unseal
                         RefAEADFacts.seal_length Sample.nonce eq_refl)
                  258 eq_refl)).
Defined.

(** C6 at a file that holds a header and one record of declared length 0. *)
Lemma decrypt_file_chunk_length_witness :
  fst (Engine.decrypt_file RefAEAD.unseal Sample.engine []
         (open_files (Format.header Sample.nonce 0 ++ Format.raw_records []
                      ++ Struct.le_bytes 4 0 ++ [])))
  = Raise (Exc Exn.DecryptionError Engine.decryption_failed).
Proof.
  refine (proj1 (decrypt_file_chunk_length RefAEAD.unseal RefAEADFacts.unseal_short
                   Sample.engine Sample.nonce [] 0 [] [] _ _ _ _ _) []).
  - reflexivity.
  - reflexivity.
  - reflexivity.
  - constructor.
  - constructor.
Defined.

(** ** The reference JSON codec is a codec *)

Module RefJSONFacts.
Import RefJSON.

Lemma dec_enc_pos p rest : dec_pos (enc_pos p ++ rest) = Some (p, rest).
Proof. induction p as [p IH|p IH|]; cbn; by rewrite ?IH. Qed.

Lemma dec_enc_Z z rest : dec_Z (enc_Z z ++ rest) = Some (z, rest).
Proof. destruct z; cbn; by rewrite ?dec_enc_pos. Qed.

Lemma dec_enc_string s rest : dec_string (enc_string s ++ rest) = Some (s, rest).
Proof.
  induction s as [|c s IH]; cbn; [done|].
  by rewrite IH, ascii_of_byte_of_ascii.
Qed.

Lemma length_enc_pos_pos p : (0 < length (enc_pos p))%nat.
Proof. destruct p; cbn; lia. Qed.

(** Decoding an encoding, with fuel above its length. *)
Lemma dec_enc : ∀ j fuel rest,
  (length (enc j) < fuel)%nat → dec fuel (enc j ++ rest) = Some (j, rest).
Proof.
  fix IH 1. intros j fuel rest Hf.
  destruct fuel as [|fuel]; [lia|].
  destruct j as [|b|z|s|l|d].
  - done.
  - by destruct b.
  - cbn. by rewrite dec_enc_Z.
  - cbn. by rewrite dec_enc_string.
  - cbn [enc app dec]. cbn [enc length] in Hf.
    assert (∀ fuel' rest',
              (length ((fix items (l : list json) : list byte :=
                          match l with
                          | [] => [x00]
                          | j' :: l' => x01 :: enc j' ++ items l'
                          end) l) ≤ fuel')%nat →
              dec_list fuel'
                ((fix items (l : list json) : list byte :=
                    match l with
                    | [] => [x00]
                    | j' :: l' => x01 :: enc j' ++ items l'
                    end) l ++ rest') = Some (l, rest')) as Hl.
    { clear Hf fuel rest. induction l as [|j l IHl]; intros fuel' rest' Hf'.
      - destruct fuel'; [cbn in Hf'; lia|done].
      - destruct fuel' as [|fuel']; [cbn in Hf'; lia|].
        cbn [length] in Hf'. rewrite length_app in Hf'.
        match type of Hf' with
        | context [length (?f l)] =>
            assert (1 ≤ length (f l))%nat by (destruct l; cbn; lia)
        end.
        cbn [app dec_list]. rewrite <- app_assoc.
        rewrite IH by lia. rewrite IHl by lia. done. }
    rewrite Hl by lia. done.
  - cbn [enc app dec]. cbn [enc length] in Hf.
    assert (∀ fuel' rest',
              (length ((fix items (d : list (string * json)) : list byte :=
                          match d with
                          | [] => [x00]
                          | (k, v) :: d' => x01 :: enc_string k ++ enc v ++ items d'
                          end) d) ≤ fuel')%nat →
              dec_dict fuel'
                ((fix items (d : list (string * json)) : list byte :=
                    match d with
                    | [] => [x00]
                    | (k, v) :: d' => x01 :: enc_string k ++ enc v ++ items d'
                    end) d ++ rest') = Some (d, rest')) as Hd.
    { clear Hf fuel rest. induction d as [|[k v] d IHd]; intros fuel' rest' Hf'.
      - destruct fuel'; [cbn in Hf'; lia|done].
      - destruct fuel' as [|fuel']; [cbn in Hf'; lia|].
        cbn [length] in Hf'. rewrite !length_app in Hf'.
        match type of Hf' with
        | context [length (?f d)] =>
            assert (1 ≤ length (f d))%nat by (destruct d as [|[??] ?]; cbn; lia)
        end.
        cbn [app dec_dict]. rewrite <- !app_assoc.
        rewrite dec_enc_string.
        rewrite IH by lia. rewrite IHd by lia. done. }
    rewrite Hd by lia. done.
Qed.

Lemma loads_dumps j : loads (dumps j) = Some j.
Proof.
  unfold loads, dumps.
  pose proof (dec_enc j (S (length (enc j))) [] ltac:(lia)) as H.
  rewrite app_nil_r in H. by rewrite H.
Qed.

End RefJSONFacts.

(** ** Password strength *)

(** C10. [verify_password_strength] accepts a password exactly when it has
    at least 8 characters.  What the characters are plays no part below 12
    characters (the result depends on the length alone, whatever the character
    classes are), and from 12 characters on it only selects the message. *)
Theorem verify_password_strength_length (E : Env.t) (password : list N) :
  fst (KeyDerivation.verify_password_strength E password)
    = bool_decide (8 ≤ length password)%nat
  ∧ (∀ E' password',
       length password' = length password → (length password < 12)%nat →
       KeyDerivation.verify_password_strength E' password'
       = KeyDerivation.verify_password_strength E password)
  ∧ ((12 ≤ length password)%nat →
       ∃ message,
         KeyDerivation.verify_password_strength E password = (true, message)
         ∧ message ∈ ["Password is strong"; "Password is moderate";
                      "Password is weak but acceptable"]).
Proof.
  unfold KeyDerivation.verify_password_strength. split; [|split].
  - repeat case_decide; cbn [fst]; symmetry;
      (apply bool_decide_eq_true_2; lia) || (apply bool_decide_eq_false_2; lia).
  - intros E' password' Hlen Hlt. rewrite Hlen.
    destruct (decide (length password < 8)%nat); [done|].
    rewrite !decide_True by done. done.
  - intros Hlen. rewrite !decide_False by lia.
    repeat case_decide; eexists; (split; [done|]); set_solver.
Qed.

(** ** The manifest *)

Module ManifestFacts.
Import Manifest.

Lemma of_kwargs_asdict m : of_kwargs (asdict m) = Ok m.
Proof. by destruct m. Qed.

Lemma map_result_asdict ml : map_result of_kwargs (asdict <$> ml) = Ok ml.
Proof.
  induction ml as [|m ml IH]; [done|].
  cbn [fmap list_fmap map_result]. fold (asdict <$> ml).
  by rewrite of_kwargs_asdict, IH.
Qed.

Lemma of_dict_to_dict str_of ml : of_dict str_of (to_dict ml) = Ok ml.
Proof. unfold of_dict, to_dict. cbn. apply map_result_asdict. Qed.

Lemma of_kwargs_entry m md : of_kwargs m = Ok md ↔ Schema.entry m md.
Proof.
  split.
  - destruct m as [| | | | |d]; try done. cbn [of_kwargs].
    destruct (forallb _ d) eqn:Hkeys; [|done].
    destruct (Py.get "relative_path" d) as [p|] eqn:Hp; [|done].
    destruct (Py.get "original_size" d) as [o|] eqn:Ho; [|done].
    destruct (Py.get "encrypted_size" d) as [e|] eqn:He; [|done].
    destruct (Py.get "is_directory" d) as [i|] eqn:Hi; [|done].
    intros [= <-]. exists d. split; [done|]. split; [|done].
    intros k v Hin. rewrite forallb_forall in Hkeys.
    apply list_elem_of_In in Hin. apply Hkeys in Hin.
    by apply bool_decide_eq_true in Hin.
  - intros (d & -> & Hkeys & Hp & Ho & He & Hi & Hperm). cbn [of_kwargs].
    assert (forallb (λ kv : string * json, bool_decide (kv.1 ∈ fields)) d = true)
      as ->.
    { apply forallb_forall. intros [k v] Hin%list_elem_of_In.
      apply bool_decide_eq_true. by apply (Hkeys k v). }
    rewrite Hp, Ho, He, Hi, Hperm. by destruct md.
Qed.

Lemma map_result_entries ms ml :
  map_result of_kwargs ms = Ok ml ↔ Forall2 Schema.entry ms ml.
Proof.
  revert ml. induction ms as [|m ms IH]; intros ml; cbn [map_result].
  - split; [intros [= <-]; constructor|by intros ->%Forall2_nil_inv_l].
  - split.
    + destruct (of_kwargs m) as [md|e] eqn:Hm; [|done].
      destruct (map_result of_kwargs ms) as [ml'|e] eqn:Hms; [|done].
      intros [= <-]. constructor; [by apply of_kwargs_entry|by apply IH].
    + intros (md & ml' & Hmd & Hml & ->)%Forall2_cons_inv_l.
      apply of_kwargs_entry in Hmd. apply IH in Hml. by rewrite Hmd, Hml.
Qed.

Lemma of_dict_accepted str_of j ml :
  of_dict str_of j = Ok ml ↔ Schema.accepted j ml.
Proof.
  split.
  - destruct j as [| | | | |d]; try done. cbn [of_dict].
    destruct (Py.eq_int _ 1) eqn:Hv; cbn [negb]; [|done].
    destruct (Py.iter _) as [ms|] eqn:Hms; [|done].
    intros Hml%map_result_entries. exists d. split; [done|]. split; [done|].
    by exists ms.
  - intros (d & -> & Hv & ms & Hms & Hml). cbn [of_dict].
    rewrite Hv, Hms. cbn [negb]. by apply map_result_entries.
Qed.

Lemma div_metadata_filename (base : Path.t) :
  Path.div base (Path.parse METADATA_FILENAME) = base ++ [METADATA_FILENAME].
Proof. reflexivity. Qed.

Lemma div_salt (base : Path.t) : Path.div base (Path.parse ".salt") = base ++ [".salt"].
Proof. reflexivity. Qed.

Lemma node_at_snoc (m : gmap Path.t FS.node) (p : Path.t) (x : string) :
  FS.node_at m (p ++ [x]) = m !! (p ++ [x]).
Proof. unfold FS.node_at. by destruct p. Qed.

End ManifestFacts.

Section LoadMetadata.
Import FS OS Manifest ManifestFacts FileProcessor.

Variable E : Env.t.
Hypothesis unseal_seal :
  ∀ k n p ad, Env.unseal E k n (Env.seal E k n p ad) ad = Some p.
Hypothesis loads_dumps : ∀ j, Env.json_loads E (Env.json_dumps E j) = Some j.

(** What [_load_metadata] returns on a manifest file with given content. *)
Lemma load_metadata_file (self : Engine.t) (input_path : Path.t) (w : world)
    (perm : N) (data : list byte) :
  fs w !! (input_path ++ [METADATA_FILENAME]) = Some (File perm data) →
  _load_metadata E self input_path w =
    (match Env.unseal E (Engine.key self) (take Engine.NONCE_SIZE data)
             (drop Engine.NONCE_SIZE data) Engine.metadata_ad with
     | None =>
         Raise (Exc Exn.InvalidMetadataError
                  ("Failed to load metadata: " +:+ Engine.metadata_decryption_failed))
     | Some metadata_bytes =>
         match Env.json_loads E metadata_bytes with
         | None =>
             Raise (Exc Exn.InvalidMetadataError
                      "Failed to load metadata: invalid JSON")
         | Some metadata_dict =>
             match of_dict (Env.str_of E) metadata_dict with
             | Ok ml => Ok ml
             | Raise e =>
                 if Exn.isinstance e [Exn.InvalidMetadataError] then Raise e
                 else Raise (Exc Exn.InvalidMetadataError
                               ("Failed to load metadata: " +:+ Exn.message e))
             end
         end
     end, w).
Proof.
  intros Hfile. unfold _load_metadata. rewrite div_metadata_filename.
  unfold bind at 1. unfold exists_ at 1. rewrite node_at_snoc, Hfile.
  rewrite bool_decide_true by eauto. cbn [negb].
  unfold try_except_all, bind, open_rb. rewrite node_at_snoc, Hfile.
  unfold lift, Engine.decrypt_metadata.
  destruct (Env.unseal E _ _ _ _) as [bs|]; [|done].
  unfold of_option. destruct (Env.json_loads E bs) as [d|]; [|done].
  unfold ret. destruct (of_dict _ d) as [ml|e]; [done|].
  by destruct (Exn.isinstance e _).
Qed.

(** Every exception that leaves [_load_metadata] is an
    [InvalidMetadataError]. *)
Lemma load_metadata_raises (self : Engine.t) (input_path : Path.t) (w w' : world) e :
  _load_metadata E self input_path w = (Raise e, w') →
  Exn.klass e = Exn.InvalidMetadataError.
Proof.
  unfold _load_metadata. unfold bind at 1. unfold exists_ at 1.
  destruct (bool_decide _); cbn [negb].
  - unfold try_except_all.
    destruct (bind _ _ w) as [[ml|e0] w0]; [done|].
    destruct (Exn.isinstance e0 [Exn.InvalidMetadataError]) eqn:Hi.
    + intros [= <- <-]. unfold Exn.isinstance in Hi. cbn in Hi.
      rewrite orb_false_r in Hi. unfold Exn.subclass in Hi.
      destruct (decide _) as [->|]; [done|]. by destruct (Exn.klass e0).
    + by intros [= <- <-].
  - by intros [= <- <-].
Qed.

(** C5, as the code has it.  Take a manifest file that holds the sealed
    JSON document [j].  [_load_metadata] returns the list [ml] exactly
    when [j] is accepted with [ml] ([Schema.accepted]): [j] is a dictionary
    whose version equals 1, and every element of its ["files"] is a
    dictionary whose keys are fields of [FileMetadata] and include
    [relative_path], [original_size], [encrypted_size] and [is_directory];
    [ml] holds the values as they are.  Otherwise it raises
    [InvalidMetadataError], with the message of the version check when
    the version is not 1, and the world is left as it was.  It does not
    look at the value of [relative_path] and does not compare entries:
    whatever list of entries was serialised is returned as it is.
    Whatever it rejects, on any input, it rejects with
    [InvalidMetadataError]. *)
Theorem load_metadata_schema (self : Engine.t) (input_path : Path.t) (w : world)
    (perm : N) (nonce : list byte) (j : json) :
  length nonce = Engine.NONCE_SIZE →
  fs w !! (input_path ++ [METADATA_FILENAME])
    = Some (File perm
              (nonce ++ Env.seal E (Engine.key self) nonce
                          (Env.json_dumps E j) Engine.metadata_ad)) →
  (∀ ml, _load_metadata E self input_path w = (Ok ml, w) ↔ Schema.accepted j ml)
  ∧ ((∀ ml, ¬ Schema.accepted j ml) →
     ∃ msg, _load_metadata E self input_path w
            = (Raise (Exc Exn.InvalidMetadataError msg), w))
  ∧ (∀ d, j = JDict d →
       Py.eq_int (default JNull (Py.get "version" d)) 1 = false →
       _load_metadata E self input_path w
       = (Raise (Exc Exn.InvalidMetadataError
                   ("Unsupported metadata version: "
                    +:+ Env.str_of E (default JNull (Py.get "version" d)))), w))
  ∧ (∀ entries, j = to_dict entries →
       _load_metadata E self input_path w = (Ok entries, w))
  ∧ (∀ w1 w2 e, _load_metadata E self input_path w1 = (Raise e, w2) →
       Exn.klass e = Exn.InvalidMetadataError).
Proof using unseal_seal loads_dumps.
  intros Hn Hfile.
  assert (_load_metadata E self input_path w
          = (match of_dict (Env.str_of E) j with
             | Ok ml => Ok ml
             | Raise e =>
                 if Exn.isinstance e [Exn.InvalidMetadataError] then Raise e
                 else Raise (Exc Exn.InvalidMetadataError
                               ("Failed to load metadata: " +:+ Exn.message e))
             end, w)) as Hrun.
  { rewrite (load_metadata_file self input_path w perm _ Hfile).
    rewrite take_app_length', drop_app_length' by done.
    by rewrite unseal_seal, loads_dumps. }
  split; [|split; [|split; [|split]]].
  - intros ml. rewrite Hrun, <- (of_dict_accepted (Env.str_of E)).
    destruct (of_dict (Env.str_of E) j) as [ml'|e].
    + split; [by intros [= ->]|by intros [= ->]].
    + split; [|done]. by destruct (Exn.isinstance e _).
  - intros Hrej. rewrite Hrun.
    destruct (of_dict (Env.str_of E) j) as [ml'|e] eqn:Hd.
    + by apply of_dict_accepted, Hrej in Hd.
    + destruct (Exn.isinstance e [Exn.InvalidMetadataError]) eqn:Hi; [|by eexists].
      unfold Exn.isinstance in Hi. cbn in Hi. rewrite orb_false_r in Hi.
      unfold Exn.subclass in Hi. destruct e as [k msg]. cbn in Hi.
      destruct (decide _) as [->|]; [by exists msg|]. by destruct k.
  - intros d -> Hv. rewrite Hrun. cbn [of_dict]. rewrite Hv. cbn [negb]. done.
  - intros entries ->. rewrite Hrun. by rewrite of_dict_to_dict.
  - intros w1 w2 e. apply load_metadata_raises.
Qed.

End LoadMetadata.

(** C5 as stated fails: a manifest whose entries have an empty path, an
    absolute path, a [..] component, an empty component, the reserved names,
    and a duplicate is loaded without error. *)
Lemma load_metadata_accepts_bad_entries :
  FileProcessor._load_metadata RefEnv.env Sample.engine ["enc"]
    (SampleManifest.world_with SampleManifest.bad_entries)
  = (Ok SampleManifest.bad_entries,
     SampleManifest.world_with SampleManifest.bad_entries).
Proof. vm_compute. reflexivity. Qed.

(** C5 at the sample manifest: it is accepted, with its entries. *)
Lemma load_metadata_schema_witness :
  FileProcessor._load_metadata RefEnv.env Sample.engine ["enc"]
    (SampleManifest.world_with SampleManifest.bad_entries)
  = (Ok SampleManifest.bad_entries,
     SampleManifest.world_with SampleManifest.bad_entries).
Proof.
  refine (proj1 (proj2 (proj2 (proj2
            (load_metadata_schema RefEnv.env RefAEADFacts.unseal_seal
               RefJSONFacts.loads_dumps Sample.engine ["enc"]
               (SampleManifest.world_with SampleManifest.bad_entries)
               420 Sample.nonce (Manifest.to_dict SampleManifest.bad_entries) _ _))))
            SampleManifest.bad_entries eq_refl).
  - reflexivity.
  - vm_compute. reflexivity.
Defined.

(** What [_load_metadata] does refuse: a manifest of version 2, and elements
    of ["files"] that are no dictionary, have a key that is no field, or lack
    a field without default. *)
Example load_metadata_rejects :
  let load j :=
    (FileProcessor._load_metadata RefEnv.env Sample.engine ["enc"]
       (SampleManifest.world_of j)).1 in
  load (JDict [("version", JInt 2); ("files", JList [])])
  = Raise (Exc Exn.InvalidMetadataError "Unsupported metadata version: 2")
  ∧ load (JDict [("files", JList [])])
    = Raise (Exc Exn.InvalidMetadataError "Unsupported metadata version: None")
  ∧ Forall (λ m, ∃ msg, load (JDict [("version", JInt 1); ("files", JList [m])])
                        = Raise (Exc Exn.InvalidMetadataError msg))
      [JStr "a";
       JDict (("owner", JStr "root") :: SampleManifest.fields_of "a");
       JDict (tail (SampleManifest.fields_of "a"))]
  ∧ load (JDict [("version", JInt 1);
                 ("files", JList [JDict (SampleManifest.fields_of "a")])])
    = Ok [SampleManifest.entry "a" false].
Proof.
  split; [vm_compute; reflexivity|].
  split; [vm_compute; reflexivity|].
  split; [|vm_compute; reflexivity].
  repeat constructor; eexists; vm_compute; reflexivity.
Qed.

(** ** Authentication failure on the manifest *)

Section ManifestAuthentication.
Import FS OS Manifest ManifestFacts FileProcessor.

Variable E : Env.t.

Lemma decrypt_folder_load_failed (self : Engine.t) (input_path output_path : Path.t)
    (w : world) e :
  is_dir_node (node_at (fs w) input_path) = true →
  _load_metadata E self input_path w = (Raise e, w) →
  FileProcessor.decrypt_folder E self input_path output_path w = (Raise e, w).
Proof.
  intros Hdir Hload. unfold FileProcessor.decrypt_folder.
  unfold bind at 1. unfold exists_ at 1.
  rewrite bool_decide_true
    by (destruct (node_at (fs w) input_path); [eauto|done]).
  cbn [negb]. unfold bind at 1. unfold is_dir at 1. rewrite Hdir. cbn [negb].
  unfold bind at 1. by rewrite Hload.
Qed.

(** C2, as the code has it.  When AES-GCM rejects the manifest under the key
    derived from the password, [decrypt_metadata] raises [DecryptionError];
    [_load_metadata] catches it and raises [InvalidMetadataError] in its
    place, which is what [FileProcessor.decrypt_folder] lets through; the
    catch-all of [DecryptService.decrypt_folder] turns that into a
    [DecryptionError] again, so the caller of the service sees a
    [DecryptionError].  Nothing is written. *)
Theorem manifest_authentication_failure (service : DecryptService.t)
    (input_path output_path : Path.t) (password : list N) (w : world)
    (perm perm' : N) (salt key data : list byte) :
  fs w !! (input_path ++ [".salt"]) = Some (File perm salt) →
  length salt = KeyDerivation.SALT_SIZE →
  KeyDerivation.derive_key E (DecryptService.key_derivation service) password salt
    = Ok key →
  length key = Engine.KEY_SIZE →
  is_dir_node (node_at (fs w) input_path) = true →
  fs w !! (input_path ++ [METADATA_FILENAME]) = Some (File perm' data) →
  Env.unseal E key (take Engine.NONCE_SIZE data) (drop Engine.NONCE_SIZE data)
    Engine.metadata_ad = None →
  Engine.decrypt_metadata (Env.unseal E) (Engine.Make key)
    (drop Engine.NONCE_SIZE data) (take Engine.NONCE_SIZE data)
    = Raise (Exc Exn.DecryptionError Engine.metadata_decryption_failed)
  ∧ _load_metadata E (Engine.Make key) input_path w = (Raise load_failed, w)
  ∧ FileProcessor.decrypt_folder E (Engine.Make key) input_path output_path w
    = (Raise load_failed, w)
  ∧ DecryptService.decrypt_folder E service input_path output_path password w
    = (Raise (Exc Exn.DecryptionError
                ("Decryption failed: Failed to load metadata: "
                 +:+ Engine.metadata_decryption_failed)), w).
Proof.
  intros Hsalt Hlen Hkey Hklen Hdir Hfile Hauth.
  assert (_load_metadata E (Engine.Make key) input_path w = (Raise load_failed, w))
    as Hload.
  { rewrite (load_metadata_file E (Engine.Make key) input_path w perm' data Hfile).
    cbn [Engine.key]. by rewrite Hauth. }
  pose proof (decrypt_folder_load_failed (Engine.Make key) input_path output_path
                w load_failed Hdir Hload) as Hfolder.
  split; [|split; [|split]]; [|done|done|].
  - unfold Engine.decrypt_metadata. cbn [Engine.key]. by rewrite Hauth.
  - unfold DecryptService.decrypt_folder, try_except_all.
    unfold DecryptService.salt_file. rewrite div_salt.
    unfold bind at 1. unfold exists_ at 1. rewrite node_at_snoc, Hsalt.
    rewrite bool_decide_true by eauto. cbn [negb].
    unfold bind at 1. unfold open_rb at 1. rewrite node_at_snoc, Hsalt.
    rewrite decide_False by (intros H; by apply H).
    unfold bind at 1. unfold try_except, lift at 1. rewrite Hkey.
    unfold bind at 1. unfold lift at 1. unfold Engine.init.
    rewrite decide_True by done. rewrite Hfolder. reflexivity.
Qed.

End ManifestAuthentication.

(** C2 as stated fails where the claim places it: with the key of the wrong
    password, [_load_metadata] and [FileProcessor.decrypt_folder] raise
    [InvalidMetadataError], not [DecryptionError]. *)
Lemma load_metadata_wrong_key :
  fst (FileProcessor._load_metadata RefEnv.env SampleWrongKey.wrong_engine
         SampleTree.out (snd SampleTree.encrypted))
  = Raise (Exc Exn.InvalidMetadataError
             "Failed to load metadata: Metadata decryption failed: wrong password or corrupted data")
  ∧ fst (FileProcessor.decrypt_folder RefEnv.env SampleWrongKey.wrong_engine
           SampleTree.out SampleTree.dec (snd SampleTree.encrypted))
    = Raise (Exc Exn.InvalidMetadataError
               "Failed to load metadata: Metadata decryption failed: wrong password or corrupted data").
Proof. split; vm_compute; reflexivity. Qed.

(** C2 at the sample tree, encrypted with "CorrectHorseBattery" and decrypted
    with "correcthorsebattery". *)
Lemma manifest_authentication_failure_witness :
  DecryptService.decrypt_folder RefEnv.env SampleTree.dec_service SampleTree.out
    SampleTree.dec SampleTree.wrong_password (snd SampleTree.encrypted)
  = (Raise (Exc Exn.DecryptionError
              ("Decryption failed: Failed to load metadata: "
               +:+ Engine.metadata_decryption_failed)), snd SampleTree.encrypted).
Proof.
  refine (proj2 (proj2 (proj2
    (manifest_authentication_failure RefEnv.env SampleTree.dec_service SampleTree.out
       SampleTree.dec SampleTree.wrong_password (snd SampleTree.encrypted)
       (N.ldiff 438 18) (N.ldiff 438 18) SampleWrongKey.salt SampleWrongKey.wrong_key
       (default [] (match snd SampleTree.encrypted with
                    | World m _ =>
                        match m !! (SampleTree.out ++ [Manifest.METADATA_FILENAME]) with
                        | Some (FS.File _ c) => Some c
                        | _ => None
                        end
                    end))
       _ _ _ _ _ _ _)))); vm_compute; reflexivity.
Defined.

(** ** The salt sidecar *)

Section SaltSidecar.
Import FS OS Manifest ManifestFacts.

Variable E : Env.t.

(** C7.  [EncryptService.encrypt_folder] draws the salt, derives the key and
    runs the tree engine; when the tree engine raises, the service raises
    and the world is left as the tree engine left it, with no salt written;
    when it returns, the service writes [.salt] into that world, which
    already holds the ciphertexts and the manifest, and changes nothing
    else.  [DecryptService.decrypt_folder] looks at [.salt] first: when it
    is absent, or is a file that does not hold exactly 32 bytes, it raises
    [DecryptionError] with a message that names the salt file (the
    malformed-input error, not the authentication failure) and leaves the
    world untouched, whatever the manifest and the ciphertexts are. *)
Theorem salt_sidecar (input_path output_path : Path.t) (password : list N) (w : world) :
  (∀ (service : EncryptService.t) key,
     EncryptService.verify_password_strength service = false
     ∨ (8 ≤ length password)%nat →
     KeyDerivation.derive_key E (EncryptService.key_derivation service) password
       (Env.urandom E (draws w) KeyDerivation.SALT_SIZE) = Ok key →
     length key = Engine.KEY_SIZE →
     let salt := Env.urandom E (draws w) KeyDerivation.SALT_SIZE in
     let w1 := World (fs w) (draws w + 1) in
     (∀ e w2,
        FileProcessor.encrypt_folder E (Engine.Make key) input_path output_path w1
          = (Raise e, w2) →
        ∃ e', EncryptService.encrypt_folder E service input_path output_path
                password w = (Raise e', w2))
     ∧ (∀ w2,
          FileProcessor.encrypt_folder E (Engine.Make key) input_path output_path w1
            = (Ok tt, w2) →
          fs w2 !! (output_path ++ [".salt"]) = None →
          is_dir_node (node_at (fs w2) output_path) = true →
          EncryptService.encrypt_folder E service input_path output_path password w
          = (Ok tt, World (<[output_path ++ [".salt"] := File (default_file_perm E) salt]>
                             (fs w2)) (draws w2))))
  ∧ (∀ service : DecryptService.t,
       fs w !! (input_path ++ [".salt"]) = None →
       DecryptService.decrypt_folder E service input_path output_path password w
       = (Raise (Exc Exn.DecryptionError
                   "Salt file not found. Invalid encrypted folder."), w))
  ∧ (∀ (service : DecryptService.t) perm salt,
       fs w !! (input_path ++ [".salt"]) = Some (File perm salt) →
       length salt ≠ KeyDerivation.SALT_SIZE →
       DecryptService.decrypt_folder E service input_path output_path password w
       = (Raise (Exc Exn.DecryptionError
                   "Invalid salt file. Corrupted encrypted folder."), w)).
Proof.
  split; [|split].
  - intros service key Hpw Hkey Hklen salt w1.
    assert (∀ k : unit → M world unit,
              bind (if EncryptService.verify_password_strength service
                    then
                      let '(is_valid, message) :=
                        KeyDerivation.verify_password_strength E password in
                      if negb is_valid
                      then raise (Exc Exn.InvalidPasswordError message) else ret tt
                    else ret tt) k w = k tt w) as Hcheck.
    { intros k. destruct (EncryptService.verify_password_strength service) eqn:Hv;
        [|done].
      destruct Hpw as [?|Hlen]; [done|].
      pose proof (proj1 (verify_password_strength_length E password)) as Hfst.
      rewrite bool_decide_true in Hfst by done.
      destruct (KeyDerivation.verify_password_strength E password) as [ok msg].
      cbn in Hfst. by subst ok. }
    split.
    + intros e w2 Hrun. unfold EncryptService.encrypt_folder. rewrite Hcheck.
      unfold try_except_all. unfold bind at 1.
      unfold KeyDerivation.generate_salt, os_urandom.
      unfold bind at 1. unfold lift at 1. rewrite Hkey.
      unfold bind at 1. unfold lift at 1. unfold Engine.init.
      rewrite decide_True by done.
      unfold bind at 1. fold w1. rewrite Hrun.
      destruct (Exn.isinstance e _); eexists; reflexivity.
    + intros w2 Hrun Hnone Hdir. unfold EncryptService.encrypt_folder.
      rewrite Hcheck.
      unfold try_except_all. unfold bind at 1.
      unfold KeyDerivation.generate_salt, os_urandom.
      unfold bind at 1. unfold lift at 1. rewrite Hkey.
      unfold bind at 1. unfold lift at 1. unfold Engine.init.
      rewrite decide_True by done.
      unfold bind at 1. fold w1. rewrite Hrun.
      unfold EncryptService.salt_file. rewrite div_salt.
      unfold write_bytes, bind, open_wb. rewrite node_at_snoc, Hnone.
      unfold Path.parent. rewrite length_app, Nat.add_sub, take_app_length.
      rewrite Hdir. unfold close_wb. cbn [fs draws].
      rewrite alter_insert_eq. reflexivity.
  - intros service Hnone. unfold DecryptService.decrypt_folder, try_except_all.
    unfold DecryptService.salt_file. rewrite div_salt.
    unfold bind at 1. unfold exists_ at 1. rewrite node_at_snoc, Hnone.
    rewrite bool_decide_false by (by intros [? ?]). reflexivity.
  - intros service perm salt Hsalt Hlen.
    unfold DecryptService.decrypt_folder, try_except_all.
    unfold DecryptService.salt_file. rewrite div_salt.
    unfold bind at 1. unfold exists_ at 1. rewrite node_at_snoc, Hsalt.
    rewrite bool_decide_true by eauto. cbn [negb].
    unfold bind at 1. unfold open_rb at 1. rewrite node_at_snoc, Hsalt.
    rewrite decide_True by done. reflexivity.
Qed.

End SaltSidecar.

(** C7 at the sample tree: the salt is added to what the tree engine left,
    and decryption stops at a missing or short salt. *)
Lemma salt_sidecar_witness :
  EncryptService.encrypt_folder RefEnv.env SampleTree.enc_service SampleTree.inp
    SampleTree.out SampleTree.password SampleTree.w0
  = (Ok tt,
     World (<[SampleTree.out ++ [".salt"] :=
               FS.File (OS.default_file_perm RefEnv.env) SampleSalt.salt]>
              (fs (snd SampleSalt.tree_encrypted)))
       (draws (snd SampleSalt.tree_encrypted)))
  ∧ DecryptService.decrypt_folder RefEnv.env SampleTree.dec_service SampleTree.out
      SampleTree.dec SampleTree.password SampleTree.w0
    = (Raise (Exc Exn.DecryptionError
                "Salt file not found. Invalid encrypted folder."), SampleTree.w0)
  ∧ DecryptService.decrypt_folder RefEnv.env SampleTree.dec_service SampleTree.out
      SampleTree.dec SampleTree.password SampleSalt.short_salt
    = (Raise (Exc Exn.DecryptionError
                "Invalid salt file. Corrupted encrypted folder."),
       SampleSalt.short_salt).
Proof.
  split; [|split].
  - destruct (salt_sidecar RefEnv.env SampleTree.inp SampleTree.out SampleTree.password
                SampleTree.w0) as [Henc _].
    destruct (Henc SampleTree.enc_service SampleSalt.key) as [_ Hok].
    + right. vm_compute. lia.
    + vm_compute. reflexivity.
    + vm_compute. reflexivity.
    + apply Hok.
      * vm_compute. reflexivity.
      * vm_compute. reflexivity.
      * vm_compute. reflexivity.
  - destruct (salt_sidecar RefEnv.env SampleTree.out SampleTree.dec SampleTree.password
                SampleTree.w0) as (_ & Hmissing & _).
    apply Hmissing. vm_compute. reflexivity.
  - destruct (salt_sidecar RefEnv.env SampleTree.out SampleTree.dec SampleTree.password
                SampleSalt.short_salt) as (_ & _ & Hshort).
    apply (Hshort _ 420 (replicate 31 x07)).
    + vm_compute. reflexivity.
    + vm_compute. discriminate.
Defined.

(** ** Paths *)

Module PathFacts.
Import Path.

Lemma append_nil (b : string) : "" +:+ b = b.
Proof. reflexivity. Qed.

Lemma append_cons c (a b : string) : String c a +:+ b = String c (a +:+ b).
Proof. reflexivity. Qed.

Lemma append_assoc (a b c : string) : (a +:+ b) +:+ c = a +:+ (b +:+ c).
Proof.
  induction a as [|x a IH]; [done|]. by rewrite !append_cons, IH.
Qed.

Lemma split_no_slash x : has_slash x = false → split x = [x].
Proof.
  induction x as [|c x IH]; cbn; [done|].
  intros [Hc Hx]%orb_false_elim. rewrite Hc, IH by done. done.
Qed.

Lemma split_cons_slash x s :
  has_slash x = false → split (x +:+ String slash s) = x :: split s.
Proof.
  induction x as [|c x IH]; [done|]. rewrite append_cons. cbn.
  intros [Hc Hx]%orb_false_elim. rewrite Hc, IH by done. done.
Qed.

Lemma join_cons x y rest : join (x :: y :: rest) = x +:+ "/" +:+ join (y :: rest).
Proof. done. Qed.

Lemma split_join parts :
  parts ≠ [] → Forall (λ x, has_slash x = false) parts → split (join parts) = parts.
Proof.
  induction parts as [|x [|y rest] IH]; intros Hne Hall; [done| |].
  - cbn. apply split_no_slash. by inversion Hall.
  - rewrite join_cons. inversion Hall as [|? ? Hx Hrest]; subst.
    change ("/" +:+ join (y :: rest)) with (String slash (join (y :: rest))).
    rewrite split_cons_slash by done. f_equal. by apply IH.
Qed.

Lemma valid_name_spec x :
  valid_name x = true →
  x ≠ "" ∧ x ≠ "." ∧ x ≠ ".." ∧ has_slash x = false.
Proof.
  unfold valid_name. rewrite !andb_true_iff, !negb_true_iff, !String.eqb_neq.
  naive_solver.
Qed.

Lemma filter_keep_valid parts :
  Forall (λ x, valid_name x = true) parts → List.filter keep parts = parts.
Proof.
  induction 1 as [|x parts Hx _ IH]; [done|]. cbn [List.filter].
  apply valid_name_spec in Hx as (H1 & H2 & _).
  unfold keep at 1. apply String.eqb_neq in H1, H2. rewrite H1, H2.
  cbn [negb andb]. by rewrite IH.
Qed.

Lemma join_head_not_slash x rest :
  valid_name x = true →
  match join (x :: rest) with String c _ => Ascii.eqb c slash | _ => false end = false.
Proof.
  intros (H1 & _ & _ & H4)%valid_name_spec.
  destruct x as [|c x]; [done|]. cbn in H4. apply orb_false_elim in H4 as [Hc _].
  destruct rest; cbn; done.
Qed.

(** [PurePosixPath(str(rel))] gives [rel] back. *)
Lemma parse_join parts :
  parts ≠ [] → Forall (λ x, valid_name x = true) parts →
  parse (join parts) = Pure false parts.
Proof.
  intros Hne Hall. unfold parse. f_equal.
  - destruct parts as [|x rest]; [done|]. apply join_head_not_slash. by inversion Hall.
  - rewrite split_join; [by apply filter_keep_valid|done|].
    eapply Forall_impl; [exact Hall|]. intros x Hx.
    by apply valid_name_spec in Hx as (_ & _ & _ & ?).
Qed.

Lemma str_rel_join parts : parts ≠ [] → str_rel parts = join parts.
Proof. by destruct parts. Qed.

Lemma str_pure parts : parts ≠ [] → str (Pure false parts) = join parts.
Proof. by destruct parts. Qed.

Lemma add_ext_cons ext x y rest :
  add_ext ext (x :: y :: rest) = x :: add_ext ext (y :: rest).
Proof. reflexivity. Qed.

Lemma join_add_ext ext parts :
  parts ≠ [] → join parts +:+ ext = join (add_ext ext parts).
Proof.
  induction parts as [|x [|y rest] IH]; intros Hne; [done|reflexivity|].
  rewrite join_cons, add_ext_cons, !append_assoc.
  rewrite IH by done. destruct (add_ext ext (y :: rest)) eqn:Ha; [|reflexivity].
  by destruct rest.
Qed.

Lemma has_slash_append x y : has_slash (x +:+ y) = has_slash x || has_slash y.
Proof.
  induction x as [|c x IH]; [done|]. rewrite append_cons. cbn.
  by rewrite IH, orb_assoc.
Qed.

Lemma length_append x y :
  String.length (x +:+ y) = (String.length x + String.length y)%nat.
Proof.
  induction x as [|c x IH]; [done|]. rewrite append_cons. cbn. by rewrite IH.
Qed.

Lemma valid_name_ext x :
  valid_name x = true → valid_name (x +:+ Manifest.ENCRYPTED_EXTENSION) = true.
Proof.
  intros (H1 & H2 & H3 & H4)%valid_name_spec. unfold valid_name.
  rewrite has_slash_append, H4. cbn [orb has_slash Manifest.ENCRYPTED_EXTENSION].
  rewrite !andb_true_iff, !negb_true_iff, !String.eqb_neq.
  assert (10 ≤ String.length (x +:+ Manifest.ENCRYPTED_EXTENSION))%nat as Hlen
    by (rewrite length_append; cbn; lia).
  repeat split; try done; intros Heq; rewrite Heq in Hlen; cbn in Hlen; lia.
Qed.

Lemma add_ext_valid parts :
  Forall (λ x, valid_name x = true) parts →
  Forall (λ x, valid_name x = true) (add_ext Manifest.ENCRYPTED_EXTENSION parts).
Proof.
  induction parts as [|x [|y rest] IH]; intros Hall; [done| |].
  - inversion Hall; subst. constructor; [by apply valid_name_ext|done].
  - inversion Hall; subst. rewrite add_ext_cons. constructor; [done|]. by apply IH.
Qed.

Lemma add_ext_nonempty ext parts : parts ≠ [] → add_ext ext parts ≠ [].
Proof. destruct parts as [|x [|y rest]]; done. Qed.

Lemma add_ext_snoc ext parts x : add_ext ext (parts ++ [x]) = parts ++ [x +:+ ext].
Proof.
  induction parts as [|y parts IH]; [done|].
  destruct parts as [|z parts]; [done|].
  change ((y :: z :: parts) ++ [x]) with (y :: z :: (parts ++ [x])).
  rewrite add_ext_cons. change (z :: parts ++ [x]) with ((z :: parts) ++ [x]).
  by rewrite IH.
Qed.

Lemma resolve_valid parts : ∀ acc,
  Forall (λ x, valid_name x = true) parts → resolve acc parts = acc ++ parts.
Proof.
  induction parts as [|x parts IH]; intros acc Hall; cbn; [by rewrite app_nil_r|].
  inversion Hall as [|? ? Hx Hrest]; subst.
  apply valid_name_spec in Hx as (_ & _ & H3 & _). apply String.eqb_neq in H3.
  rewrite H3, IH by done. by rewrite <- app_assoc.
Qed.

(** [base / str(rel)] and [base / (str(rel) + ".encrypted")] for the relative
    path of a directory entry. *)
Lemma div_rel base rel :
  rel ≠ [] → Forall (λ x, valid_name x = true) rel →
  div base (parse (str_rel rel)) = base ++ rel.
Proof.
  intros Hne Hall. rewrite str_rel_join, parse_join by done.
  unfold div. cbn. by apply resolve_valid.
Qed.

Lemma div_rel_ext base rel :
  rel ≠ [] → Forall (λ x, valid_name x = true) rel →
  div base (parse (str_rel rel +:+ Manifest.ENCRYPTED_EXTENSION))
  = base ++ add_ext Manifest.ENCRYPTED_EXTENSION rel.
Proof.
  intros Hne Hall. rewrite str_rel_join, join_add_ext by done.
  rewrite parse_join by (by apply add_ext_nonempty || by apply add_ext_valid).
  unfold div. cbn. by apply resolve_valid, add_ext_valid.
Qed.

Lemma str_parse_rel rel :
  rel ≠ [] → Forall (λ x, valid_name x = true) rel →
  str (parse (str_rel rel)) = str_rel rel.
Proof.
  intros Hne Hall. rewrite str_rel_join, parse_join by done. by apply str_pure.
Qed.

Lemma parent_snoc (p : t) x : parent (p ++ [x]) = p.
Proof. unfold parent. by rewrite length_app, Nat.add_sub, take_app_length. Qed.



End PathFacts.

Module Utf8Facts.

Lemma encode_ok_inv (s : string) (bs : list byte) :
  Utf8.encode s = Ok bs → bs = String.list_byte_of_string s.
Proof. unfold Utf8.encode. destruct (Utf8.valid s); [by intros [= <-]|done]. Qed.

Lemma encode_ok (s : string) (bs : list byte) :
  Utf8.encode s = Ok bs → Utf8.encode s = Ok (String.list_byte_of_string s).
Proof. intros H. by rewrite <- (encode_ok_inv s bs H). Qed.

Lemma encode_valid (s : string) :
  Utf8.valid s = true → Utf8.encode s = Ok (String.list_byte_of_string s).
Proof. unfold Utf8.encode. by intros ->. Qed.

End Utf8Facts.

(** ** The order of paths *)

Module OrderFacts.
Import Path.

Lemma ascii_compare_refl a : Ascii.compare a a = Eq.
Proof. unfold Ascii.compare. apply N.compare_refl. Qed.

Lemma ascii_compare_trans a b c :
  Ascii.compare a b = Lt → Ascii.compare b c = Lt → Ascii.compare a c = Lt.
Proof. unfold Ascii.compare. rewrite !N.compare_lt_iff. lia. Qed.

Lemma string_compare_refl s : String.compare s s = Eq.
Proof. induction s as [|a s IH]; cbn; [done|]. by rewrite ascii_compare_refl. Qed.

Lemma string_compare_trans s1 : ∀ s2 s3,
  String.compare s1 s2 = Lt → String.compare s2 s3 = Lt → String.compare s1 s3 = Lt.
Proof.
  induction s1 as [|a s1 IH]; intros [|b s2] [|c s3]; cbn; try done.
  destruct (Ascii.compare a b) eqn:Hab; [| |done]; destruct (Ascii.compare b c) eqn:Hbc;
    try done.
  - apply Ascii.compare_eq_iff in Hab, Hbc. subst. rewrite ascii_compare_refl.
    apply IH.
  - apply Ascii.compare_eq_iff in Hab. subst. by rewrite Hbc.
  - apply Ascii.compare_eq_iff in Hbc. subst. by rewrite Hab.
  - by rewrite (ascii_compare_trans a b c).
Qed.

Lemma compare_refl p : compare p p = Eq.
Proof. induction p as [|x p IH]; cbn; [done|]. by rewrite string_compare_refl. Qed.

Lemma compare_eq p : ∀ q, compare p q = Eq → p = q.
Proof.
  induction p as [|x p IH]; intros [|y q]; cbn; try done.
  destruct (String.compare x y) eqn:Hxy; try done.
  intros Hpq. apply String.compare_eq_iff in Hxy. f_equal; [done|by apply IH].
Qed.

Lemma compare_antisym p : ∀ q, compare p q = CompOpp (compare q p).
Proof.
  induction p as [|x p IH]; intros [|y q]; cbn; try done.
  rewrite String.compare_antisym.
  destruct (String.compare y x); cbn; [apply IH|done|done].
Qed.

Lemma compare_trans p : ∀ q r,
  compare p q = Lt → compare q r = Lt → compare p r = Lt.
Proof.
  induction p as [|x p IH]; intros [|y q] [|z r]; cbn; try done.
  destruct (String.compare x y) eqn:Hxy; [| |done];
    destruct (String.compare y z) eqn:Hyz; try done.
  - apply String.compare_eq_iff in Hxy, Hyz. subst. rewrite string_compare_refl.
    apply IH.
  - apply String.compare_eq_iff in Hxy. subst. by rewrite Hyz.
  - apply String.compare_eq_iff in Hyz. subst. by rewrite Hxy.
  - by rewrite (string_compare_trans x y z).
Qed.

Global Instance le_total : Total le.
Proof.
  intros p q. unfold le. rewrite (compare_antisym q p).
  destruct (compare p q); cbn; [left|left|right]; done.
Qed.

Global Instance le_trans : Transitive le.
Proof.
  intros p q r. unfold le. intros Hpq Hqr.
  destruct (compare p q) eqn:H1; [| |done].
  - apply compare_eq in H1. by subst.
  - destruct (compare q r) eqn:H2; [| |done].
    + apply compare_eq in H2. subst. by rewrite H1.
    + by rewrite (compare_trans p q r).
Qed.

Global Instance le_antisym : AntiSymm (=) le.
Proof.
  intros p q. unfold le. rewrite (compare_antisym q p).
  destruct (compare p q) eqn:H; cbn; [|done|done].
  intros _ _. by apply compare_eq.
Qed.

Global Instance lt_trans : Transitive lt.
Proof. intros p q r. apply compare_trans. Qed.

Lemma lt_le p q : lt p q → le p q.
Proof. unfold lt, le. by intros ->. Qed.

Lemma le_lt_or_eq p q : le p q → lt p q ∨ p = q.
Proof.
  unfold le, lt. destruct (compare p q) eqn:H; [|by left|done].
  intros _. right. by apply compare_eq.
Qed.


(** A common prefix does not change the order. *)
Lemma compare_app (root p q : t) : compare (root ++ p) (root ++ q) = compare p q.
Proof. induction root as [|x root IH]; cbn; [done|]. by rewrite string_compare_refl. Qed.

(** A sorted list without repetition, in terms of [lt]. *)
Lemma sorted_lt (l : list t) :
  NoDup l → StronglySorted lt (sorted l).
Proof.
  intros Hnd.
  assert (NoDup (sorted l)) as Hnd'.
  { unfold sorted. by rewrite merge_sort_Permutation. }
  pose proof (StronglySorted_merge_sort le l) as Hs. fold (sorted l) in Hs.
  induction Hs as [|x l' Hs IH Hall]; [constructor|].
  apply NoDup_cons in Hnd' as [Hx Hnd'].
  constructor; [by apply IH|].
  apply Forall_forall. intros y Hy.
  rewrite Forall_forall in Hall.
  destruct (le_lt_or_eq x y (Hall y Hy)) as [?| ->]; done.
Qed.

(** The result of sorting does not depend on the order of the input. *)
Lemma sorted_perm (l1 l2 : list t) : l1 ≡ₚ l2 → sorted l1 = sorted l2.
Proof.
  intros Hp. apply (Sorted_unique le).
  - apply Sorted_merge_sort, _.
  - apply Sorted_merge_sort, _.
  - unfold sorted. by rewrite !merge_sort_Permutation.
Qed.

Lemma elem_of_sorted (l : list t) p : p ∈ sorted l ↔ p ∈ l.
Proof. unfold sorted. by rewrite merge_sort_Permutation. Qed.

End OrderFacts.

(** ** The monad *)

Module MonadFacts.




End MonadFacts.

(** ** File-system operations *)

Module OSFacts.
Import FS OS Tree MonadFacts.

Lemma node_at_cons (m : gmap Path.t node) x p : node_at m (x :: p) = m !! (x :: p).
Proof. done. Qed.

Lemma node_at_app_ne (m : gmap Path.t node) p q : q ≠ [] → node_at m (p ++ q) = m !! (p ++ q).
Proof. intros Hq. unfold node_at. destruct p; [by destruct q|done]. Qed.







(** *** [mkdir] *)

Lemma mkdirs_some d rest : ∀ m pre p n,
  m !! p = Some n → mkdirs d m pre rest !! p = Some n.
Proof.
  induction rest as [|x rest IH]; intros m pre p n Hp; cbn; [done|].
  apply IH. destruct (m !! (pre ++ [x])) eqn:Hq; [done|].
  rewrite lookup_insert_ne; [done|]. intros <-. congruence.
Qed.

Lemma is_step_cons pre x rest p :
  is_step pre (x :: rest) p ↔ p = pre ++ [x] ∨ is_step (pre ++ [x]) rest p.
Proof.
  split.
  - intros (k & Hk & ->). destruct k as [|k]; [lia|]. destruct k as [|k].
    + left. cbn. by rewrite take_0.
    + right. exists (S k). split; [cbn in Hk; lia|]. cbn. by rewrite <- app_assoc.
  - intros [->|(k & Hk & ->)].
    + exists 1%nat. split; [cbn; lia|]. cbn. by rewrite take_0.
    + exists (S k). split; [cbn; lia|]. cbn. by rewrite <- app_assoc.
Qed.

Lemma mkdirs_none d rest : ∀ m pre p,
  m !! p = None →
  (is_step pre rest p ∧ mkdirs d m pre rest !! p = Some (Dir d))
  ∨ (¬ is_step pre rest p ∧ mkdirs d m pre rest !! p = None).
Proof.
  induction rest as [|x rest IH]; intros m pre p Hp; cbn [mkdirs].
  - right. split; [|done]. intros (k & Hk & _). cbn in Hk. lia.
  - destruct (decide (p = pre ++ [x])) as [->|Hne].
    + left. split; [apply is_step_cons; by left|].
      rewrite Hp. by erewrite mkdirs_some by apply lookup_insert_eq.
    + assert ((match m !! (pre ++ [x]) with
               | Some _ => m
               | None => <[pre ++ [x] := Dir d]> m
               end) !! p = None) as Hp'.
      { destruct (m !! (pre ++ [x])); [done|]. by rewrite lookup_insert_ne. }
      destruct (IH _ (pre ++ [x]) _ Hp') as [[Hs Hl]|[Hs Hl]].
      * left. split; [apply is_step_cons; by right|done].
      * right. split; [|done]. rewrite is_step_cons. naive_solver.
Qed.


Lemma mkdirs_id d rest : ∀ m pre,
  (∀ k, (0 < k ≤ length rest)%nat → is_Some (m !! (pre ++ take k rest))) →
  mkdirs d m pre rest = m.
Proof.
  induction rest as [|x rest IH]; intros m pre Hall; cbn [mkdirs]; [done|].
  destruct (Hall 1%nat) as [n Hn]; [cbn; lia|]. cbn in Hn. rewrite take_0 in Hn.
  rewrite Hn. apply IH. intros k Hk.
  specialize (Hall (S k)). cbn in Hall. rewrite <- app_assoc. apply Hall. lia.
Qed.

Section WithEnv.
Variable E : Env.t.

Lemma mkdir_from_ok_inv rest : ∀ pre w w',
  mkdir_from E pre rest w = (Ok tt, w') →
  w' = World (mkdirs (default_dir_perm E) (fs w) pre rest) (draws w).
Proof.
  induction rest as [|x rest IH]; intros pre w w'; cbn [mkdir_from mkdirs].
  - unfold ret. intros [= <-]. by destruct w.
  - unfold bind at 1. rewrite node_at_app_ne by done.
    destruct (fs w !! (pre ++ [x])) as [[perm|perm c]|] eqn:Hq.
    + apply IH.
    + done.
    + unfold bind at 1, set_node at 1. intros H. by apply IH in H.
Qed.

Lemma mkdir_from_succeeds rest : ∀ pre w,
  (∀ k, (0 < k ≤ length rest)%nat →
     ∀ perm c, fs w !! (pre ++ take k rest) ≠ Some (File perm c)) →
  mkdir_from E pre rest w
  = (Ok tt, World (mkdirs (default_dir_perm E) (fs w) pre rest) (draws w)).
Proof.
  induction rest as [|x rest IH]; intros pre w Hall; cbn [mkdir_from mkdirs].
  - by destruct w.
  - unfold bind at 1. rewrite node_at_app_ne by done.
    assert (∀ m' : gmap Path.t node, (∀ p n, m' !! p = Some n →
                    fs w !! p = Some n ∨ n = Dir (default_dir_perm E)) →
              ∀ k, (0 < k ≤ length rest)%nat → ∀ perm c,
                m' !! ((pre ++ [x]) ++ take k rest) ≠ Some (File perm c)) as Hrest.
    { intros m' Hm' k Hk perm c Hf. destruct (Hm' _ _ Hf) as [Hw|?]; [|done].
      apply (Hall (S k) ltac:(cbn; lia) perm c). cbn.
      by rewrite <- app_assoc in Hw. }
    destruct (fs w !! (pre ++ [x])) as [[perm|perm c]|] eqn:Hq.
    + apply IH. apply Hrest. intros p n Hp. by left.
    + exfalso. apply (Hall 1%nat ltac:(cbn; lia) perm c). cbn. by rewrite take_0.
    + unfold bind at 1, set_node at 1.
      rewrite (IH (pre ++ [x]) (World (<[pre ++ [x] := Dir (default_dir_perm E)]> (fs w))
                                  (draws w))); [done|].
      cbn [fs]. apply Hrest. intros p n Hp.
      destruct (decide (p = pre ++ [x])) as [->|Hne].
      * rewrite lookup_insert_eq in Hp. right. congruence.
      * rewrite lookup_insert_ne in Hp by done. by left.
Qed.

Lemma mkdir_parents_ok_inv p w w' :
  mkdir_parents E p w = (Ok tt, w') →
  w' = World (mkdirs (default_dir_perm E) (fs w) [] p) (draws w).
Proof. apply mkdir_from_ok_inv. Qed.


End WithEnv.

End OSFacts.

(** ** Paths that are apart *)

Module TreeFacts.
Import FS Tree OSFacts.

Lemma apart_sym (p q : Path.t) : apart p q → apart q p.
Proof. intros [? ?]. by split. Qed.

Lemma apart_app_r (p q rel : Path.t) : apart p q → apart p (q ++ rel).
Proof.
  intros [Hpq Hqp]. split.
  - intros Hp. destruct (prefix_weak_total p q (q ++ rel)) as [?|?]; try done.
    by apply prefix_app_r.
  - intros Hq. apply Hqp. by eapply prefix_app_l.
Qed.




(** [mkdir] changes nothing but the directories it visits. *)
Lemma mkdirs_frame (d : N) (rest : list string) (m : gmap Path.t node) (pre p : Path.t) :
  ¬ is_step pre rest p → mkdirs d m pre rest !! p = m !! p.
Proof.
  intros Hs. destruct (m !! p) as [n|] eqn:Hp.
  - by apply mkdirs_some.
  - by destruct (mkdirs_none d rest m pre p Hp) as [[? _]|[_ ->]].
Qed.

Lemma is_step_prefix (rest p : Path.t) : is_step [] rest p → p `prefix_of` rest.
Proof. intros (k & _ & ->). apply prefix_take. Qed.

Lemma mkdirs_apart (d : N) (m : gmap Path.t node) (q p : Path.t) :
  apart q p → mkdirs d m [] q !! p = m !! p.
Proof.
  intros [_ Hpq]. apply mkdirs_frame. by intros ?%is_step_prefix.
Qed.

End TreeFacts.

(** ** Encrypting a tree *)

Module EncryptFacts.
Import FS OS Tree MonadFacts OSFacts TreeFacts PathFacts Manifest FileProcessor.

Abbreviation ext := Manifest.ENCRYPTED_EXTENSION.
Abbreviation valid := (Forall (λ x, Path.valid_name x = true)).

Section WithEnv.
Variable E : Env.t.
Hypothesis seal_length :
  ∀ k n p ad, length (Env.seal E k n p ad) = (length p + Engine.TAG_SIZE)%nat.
Hypothesis urandom_length : ∀ i n, length (Env.urandom E i n) = n.



End WithEnv.

End EncryptFacts.

(** ** The order of the manifest *)

Module CollectFacts.
Import FS OS Tree MonadFacts OSFacts PathFacts OrderFacts Manifest FileProcessor.

Lemma filter_Permutation {A} (f : A → bool) (l1 l2 : list A) :
  l1 ≡ₚ l2 → List.filter f l1 ≡ₚ List.filter f l2.
Proof.
  induction 1 as [|x l1 l2 _ IH|x y l|l1 l2 l3 _ IH1 _ IH2]; cbn.
  - done.
  - destruct (f x); [by constructor|done].
  - destruct (f x), (f y); try done. apply perm_swap.
  - by etrans.
Qed.

Lemma elem_of_filter_bool {A} (f : A → bool) (l : list A) x :
  x ∈ List.filter f l ↔ x ∈ l ∧ f x = true.
Proof. rewrite !list_elem_of_In. apply filter_In. Qed.

Lemma NoDup_filter_bool {A} (f : A → bool) (l : list A) :
  NoDup l → NoDup (List.filter f l).
Proof.
  induction 1 as [|x l Hx _ IH]; cbn; [constructor|].
  destruct (f x); [|done]. constructor; [|done].
  rewrite elem_of_filter_bool. naive_solver.
Qed.

Lemma below_not_nil (root p : Path.t) : below root p → p ≠ [].
Proof. intros [Hpre Hne] ->. apply Hne. by apply prefix_nil_inv in Hpre. Qed.

Lemma below_app (root p : Path.t) : below root p ↔ ∃ rel, rel ≠ [] ∧ p = root ++ rel.
Proof.
  split.
  - intros [[rel ->] Hne]. exists rel. split; [|done]. intros ->.
    by rewrite app_nil_r in Hne.
  - intros (rel & Hne & ->). split; [by apply prefix_app_r|].
    intros Heq. apply Hne. rewrite <- (app_nil_r root) in Heq at 2.
    by apply app_inv_head in Heq.
Qed.

(** The entries below [root], as the system holds them. *)
Lemma elem_of_found (root : Path.t) (m : gmap Path.t node) (p : Path.t) :
  p ∈ List.filter (λ p, bool_decide (root `prefix_of` p ∧ p ≠ root))
        (fst <$> map_to_list m)
  ↔ below root p ∧ is_Some (m !! p).
Proof.
  rewrite elem_of_filter_bool, bool_decide_eq_true, list_elem_of_fmap.
  unfold below. split.
  - intros [([q n] & -> & Hin%elem_of_map_to_list) Hb]. cbn in *. eauto.
  - intros [Hb [n Hn]]. split; [|done]. exists (p, n). split; [done|].
    by apply elem_of_map_to_list.
Qed.

Lemma NoDup_found (root : Path.t) (m : gmap Path.t node) :
  NoDup (List.filter (λ p, bool_decide (root `prefix_of` p ∧ p ≠ root))
           (fst <$> map_to_list m)).
Proof. apply NoDup_filter_bool, NoDup_fst_map_to_list. Qed.

Section WithEnv.
Variable E : Env.t.
Hypothesis scan_perm : ∀ l, Env.scan E l ≡ₚ l.

(** What [_collect_items] returns: the directories below the root in
    ascending order, then the other entries in ascending order. *)
Lemma collect_items_ok (root : Path.t) w :
  ∃ dirs files,
    _collect_items E root w = (Ok (dirs ++ files), w)
    ∧ (∀ p, p ∈ dirs ↔ below root p ∧ is_dir_node (fs w !! p) = true)
    ∧ (∀ p, p ∈ files ↔
            below root p ∧ is_Some (fs w !! p) ∧ is_dir_node (fs w !! p) = false)
    ∧ StronglySorted Path.lt dirs ∧ StronglySorted Path.lt files.
Proof using scan_perm.
  set (found := List.filter (λ p, bool_decide (root `prefix_of` p ∧ p ≠ root))
                  (fst <$> map_to_list (fs w))).
  set (items := Env.scan E found).
  assert (∀ p, p ∈ items ↔ below root p ∧ is_Some (fs w !! p)) as Hitems.
  { intros p. unfold items. rewrite scan_perm. apply elem_of_found. }
  assert (NoDup items) as Hnd.
  { unfold items. rewrite scan_perm. apply NoDup_found. }
  exists (Path.sorted (List.filter (λ item, is_dir_node (node_at (fs w) item)) items)),
         (Path.sorted
            (List.filter (λ item, negb (is_dir_node (node_at (fs w) item))) items)).
  split; [reflexivity|]. split; [|split; [|split]].
  - intros p. rewrite elem_of_sorted, elem_of_filter_bool, Hitems. split.
    + intros [[Hb Hs] Hd]. split; [done|].
      destruct p; [by apply below_not_nil in Hb|done].
    + intros [Hb Hd]. destruct p; [by apply below_not_nil in Hb|].
      split; [|done]. split; [done|]. by destruct (fs w !! _).
  - intros p. rewrite elem_of_sorted, elem_of_filter_bool, Hitems, negb_true_iff.
    split.
    + intros [[Hb Hs] Hd]. destruct p; [by apply below_not_nil in Hb|done].
    + intros (Hb & Hs & Hd). destruct p; [by apply below_not_nil in Hb|done].
  - apply sorted_lt. by apply NoDup_filter_bool.
  - apply sorted_lt. by apply NoDup_filter_bool.
Qed.

End WithEnv.

End CollectFacts.

(** ** What [encrypt_folder] leaves *)

Module EncryptFolderFacts.
Import FS OS Tree MonadFacts OSFacts TreeFacts PathFacts Manifest ManifestFacts.
Import FileProcessor EncryptFacts.

Section WithEnv.
Variable E : Env.t.
Hypothesis seal_length :
  ∀ k n p ad, length (Env.seal E k n p ad) = (length p + Engine.TAG_SIZE)%nat.
Hypothesis urandom_length : ∀ i n, length (Env.urandom E i n) = n.




End WithEnv.



End EncryptFolderFacts.

(** ** The entries of a tree *)

Module EntryFacts.
Import FS OS Tree MonadFacts OSFacts TreeFacts PathFacts OrderFacts CollectFacts.
Import Manifest FileProcessor.

Lemma entry_app (root rel : Path.t) (m : gmap Path.t node) n :
  m !! (root ++ rel) = Some n → entry root m (root ++ rel) = (rel, n).
Proof.
  intros Hn. unfold entry, Path.relative_to. by rewrite drop_app_length, Hn.
Qed.

Lemma sorted_entries (root : Path.t) (m : gmap Path.t node) (l : list Path.t) :
  Forall (λ p, root `prefix_of` p) l →
  StronglySorted Path.lt l →
  StronglySorted (λ a b, Path.lt a.1 b.1) (entry root m <$> l).
Proof.
  intros Hpre Hs. induction Hs as [|a l Hs IH Hall]; [constructor|].
  apply Forall_cons in Hpre as [[ra ->] Hpre].
  rewrite fmap_cons. constructor; [by apply IH|].
  apply Forall_fmap, Forall_forall. intros b Hb.
  rewrite Forall_forall in Hall, Hpre.
  destruct (Hpre b Hb) as [rb ->]. specialize (Hall _ Hb).
  unfold Path.lt in *. rewrite compare_app in Hall.
  cbn. unfold Path.relative_to. by rewrite !drop_app_length.
Qed.

Section WithEnv.
Variable E : Env.t.
Hypothesis scan_perm : ∀ l, Env.scan E l ≡ₚ l.

(** [_collect_items] looks at the entries below the root only. *)
Lemma collect_items_agree (E' : Env.t) (root : Path.t) w w' :
  (∀ l, Env.scan E' l ≡ₚ l) →
  (∀ p, below root p → fs w' !! p = fs w !! p) →
  (_collect_items E' root w').1 = (_collect_items E root w).1.
Proof using scan_perm.
  intros scan_perm' Hagree.
  unfold _collect_items, bind, rglob, get, ret. cbn [fst fs].
  set (found := List.filter _ (fst <$> map_to_list (fs w))).
  set (found' := List.filter _ (fst <$> map_to_list (fs w'))).
  assert (found' ≡ₚ found) as Hperm.
  { apply NoDup_Permutation; [apply NoDup_found..|]. intros p.
    unfold found, found'. rewrite !elem_of_found.
    split; intros [Hb Hs]; (split; [done|]);
      [rewrite <- Hagree|rewrite Hagree]; done. }
  assert (∀ f, List.filter (λ item, f (is_dir_node (node_at (fs w') item)))
                 (Env.scan E' found')
               ≡ₚ List.filter (λ item, f (is_dir_node (node_at (fs w) item)))
                    (Env.scan E found)) as Hfilter.
  { intros f. etrans.
    - apply filter_Permutation. rewrite scan_perm', Hperm, <- scan_perm. done.
    - erewrite List.filter_ext_in; [done|]. intros p Hp%list_elem_of_In. cbn.
      rewrite scan_perm in Hp. apply elem_of_found in Hp as [Hb _].
      destruct p; [by apply below_not_nil in Hb|]. cbn. by rewrite Hagree. }
  do 2 f_equal.
  - apply sorted_perm, (Hfilter id).
  - apply sorted_perm, (Hfilter negb).
Qed.

(** [_collect_items] returns the tree below the root in canonical
    order. *)
Lemma collect_entries (root : Path.t) w :
  ∃ es,
    _collect_items E root w = (Ok ((λ e, root ++ e.1) <$> es), w)
    ∧ lists root (fs w) es ∧ canonical es.
Proof using scan_perm.
  destruct (collect_items_ok E scan_perm root w)
    as (dirs & files & Hrun & Hdirs & Hfiles & Hsd & Hsf).
  assert (Forall (λ p, ∃ rel n, rel ≠ [] ∧ p = root ++ rel
                       ∧ fs w !! p = Some n ∧ is_dir_node (Some n) = true) dirs)
    as Hd.
  { apply Forall_forall. intros p [Hb Hdir]%Hdirs.
    apply below_app in Hb as (rel & Hne & ->).
    destruct (fs w !! (root ++ rel)) as [n|] eqn:Hn; [|done]. by exists rel, n. }
  assert (Forall (λ p, ∃ rel n, rel ≠ [] ∧ p = root ++ rel
                       ∧ fs w !! p = Some n ∧ is_dir_node (Some n) = false) files)
    as Hf.
  { apply Forall_forall. intros p (Hb & [n Hn] & Hdir)%Hfiles.
    apply below_app in Hb as (rel & Hne & ->). rewrite Hn in Hdir.
    by exists rel, n. }
  exists (entry root (fs w) <$> (dirs ++ files)). split; [|split].
  - rewrite Hrun. do 2 f_equal. rewrite <- list_fmap_compose.
    rewrite <- (list_fmap_id (dirs ++ files)) at 1.
    apply Forall_fmap_ext_1, Forall_app. split.
    + eapply Forall_impl; [exact Hd|]. intros p (rel & n & _ & -> & Hn & _).
      unfold compose. by rewrite (entry_app _ _ _ _ Hn).
    + eapply Forall_impl; [exact Hf|]. intros p (rel & n & _ & -> & Hn & _).
      unfold compose. by rewrite (entry_app _ _ _ _ Hn).
  - intros rel n. rewrite list_elem_of_fmap. split.
    + intros (p & Heq & Hin). apply elem_of_app in Hin as [Hin|Hin].
      * rewrite Forall_forall in Hd.
        destruct (Hd p Hin) as (rel' & n' & Hne & -> & Hn & _).
        rewrite (entry_app _ _ _ _ Hn) in Heq. by injection Heq as -> ->.
      * rewrite Forall_forall in Hf.
        destruct (Hf p Hin) as (rel' & n' & Hne & -> & Hn & _).
        rewrite (entry_app _ _ _ _ Hn) in Heq. by injection Heq as -> ->.
    + intros [Hne Hn]. exists (root ++ rel). split; [symmetry; by apply entry_app|].
      assert (below root (root ++ rel)) as Hb by (apply below_app; eauto).
      apply elem_of_app. destruct (is_dir_node (Some n)) eqn:Hdir.
      * left. apply Hdirs. by rewrite Hn.
      * right. apply Hfiles. rewrite Hn. eauto.
  - exists (entry root (fs w) <$> dirs), (entry root (fs w) <$> files).
    split; [apply fmap_app|]. split; [|split; [|split]].
    + apply Forall_fmap. eapply Forall_impl; [exact Hd|].
      intros p (rel & n & _ & -> & Hn & ?). unfold compose.
      by rewrite (entry_app _ _ _ _ Hn).
    + apply Forall_fmap. eapply Forall_impl; [exact Hf|].
      intros p (rel & n & _ & -> & Hn & ?). unfold compose.
      by rewrite (entry_app _ _ _ _ Hn).
    + apply sorted_entries; [|done]. eapply Forall_impl; [exact Hd|].
      intros p (rel & _ & _ & -> & _). by apply prefix_app_r.
    + apply sorted_entries; [|done]. eapply Forall_impl; [exact Hf|].
      intros p (rel & _ & _ & -> & _). by apply prefix_app_r.
Qed.

End WithEnv.

End EntryFacts.

(** ** Encrypting a well-formed tree *)

Module EncryptTreeFacts.
Import FS OS Tree MonadFacts OSFacts TreeFacts PathFacts OrderFacts CollectFacts.
Import EntryFacts Manifest ManifestFacts FileProcessor EncryptFacts EncryptFolderFacts.



Lemma tree_ok_entry (root : Path.t) (m : gmap Path.t node) rel n :
  tree_ok root m = true → rel ≠ [] → m !! (root ++ rel) = Some n →
  valid rel ∧ perm_of n < 4096 ∧ st_size n < 2 ^ 64
  ∧ is_dir_node (m !! (root ++ Path.parent rel)) = true.
Proof.
  intros Hok Hne Hn. unfold tree_ok in Hok. rewrite forallb_forall in Hok.
  specialize (Hok (root ++ rel, n)). cbn in Hok. unfold entry_ok in Hok.
  rewrite bool_decide_true in Hok by (apply below_app; eauto).
  rewrite drop_app_length in Hok.
  rewrite !andb_true_iff, !N.ltb_lt in Hok.
  destruct Hok as [[[Hval Hperm] Hsz] Hdir].
  { apply list_elem_of_In. by apply elem_of_map_to_list. }
  split; [|split; [done|split; [done|]]].
  - apply Forall_forall. intros x Hx%list_elem_of_In.
    rewrite forallb_forall in Hval. by apply Hval.
  - unfold Path.parent in *. rewrite length_app in Hdir.
    destruct rel as [|x rel]; [done|]. cbn [length] in *.
    rewrite take_app_ge in Hdir by lia.
    replace (length root + S (length rel) - 1 - length root)%nat
      with (S (length rel) - 1)%nat in Hdir by lia.
    done.
Qed.


Section WithEnv.
Variable E : Env.t.
Hypothesis seal_length :
  ∀ k n p ad, length (Env.seal E k n p ad) = (length p + Engine.TAG_SIZE)%nat.
Hypothesis urandom_length : ∀ i n, length (Env.urandom E i n) = n.
Hypothesis scan_perm : ∀ l, Env.scan E l ≡ₚ l.


End WithEnv.

End EncryptTreeFacts.

(** ** Decrypting an entry *)

Module DecryptFacts.
Import FS OS Tree MonadFacts OSFacts TreeFacts PathFacts Manifest ManifestFacts.
Import FileProcessor EncryptFacts.

Lemma mkdirs_app (d : N) (r1 : list string) : ∀ (m : gmap Path.t node) (pre r2 : Path.t),
  mkdirs d m pre (r1 ++ r2) = mkdirs d (mkdirs d m pre r1) (pre ++ r1) r2.
Proof.
  induction r1 as [|x r1 IH]; intros m pre r2; cbn [mkdirs app].
  - by rewrite app_nil_r.
  - rewrite IH. by rewrite <- app_assoc.
Qed.

Lemma anchored_mkdirs (d : N) (m : gmap Path.t node) (p : Path.t) :
  anchored m p → mkdirs d m [] p = m.
Proof.
  intros Ha. apply mkdirs_id. intros k Hk.
  specialize (Ha k Hk). change (is_Some (m !! take k p)).
  destruct (m !! take k p); [eauto|done].
Qed.



Lemma parent_app (p rel : Path.t) : rel ≠ [] → Path.parent (p ++ rel) = p ++ Path.parent rel.
Proof.
  intros Hne. unfold Path.parent. rewrite length_app.
  destruct rel as [|x rel]; [done|]. cbn [length].
  rewrite take_app_ge by lia. do 2 f_equal. lia.
Qed.

Lemma parent_snoc_eq (rel : Path.t) : rel ≠ [] → ∃ x, rel = Path.parent rel ++ [x].
Proof.
  intros Hne. destruct (exists_last Hne) as (p & x & ->). exists x.
  by rewrite parent_snoc.
Qed.


Section WithEnv.
Variable E : Env.t.

(** [restore_permissions] does nothing when the recorded mode is falsy. *)
Lemma restore_permissions_falsy (p : Path.t) perms w :
  Py.truthy perms = false → restore_permissions E p perms w = (Ok tt, w).
Proof. intros H. unfold restore_permissions. by rewrite H. Qed.

Lemma chmod_raises_unchanged (p : Path.t) perms w e w' :
  chmod E p perms w = (Raise e, w') → w' = w.
Proof.
  unfold chmod. intros H.
  repeat match type of H with
         | context [match ?x with _ => _ end] => destruct x
         | context [if ?x then _ else _] => destruct x
         end; try done; try (by injection H as _ <-).
Qed.

(** A failing [chmod] is swallowed. *)
Lemma restore_permissions_swallows (p : Path.t) perms w e w' :
  chmod E p perms w = (Raise e, w') → restore_permissions E p perms w = (Ok tt, w').
Proof.
  intros H. unfold restore_permissions, try_except_all.
  destruct (Py.truthy perms); [by rewrite H|].
  by apply chmod_raises_unchanged in H as ->.
Qed.


Hypothesis seal_length :
  ∀ k n p ad, length (Env.seal E k n p ad) = (length p + Engine.TAG_SIZE)%nat.
Hypothesis unseal_seal :
  ∀ k n p ad, Env.unseal E k n (Env.seal E k n p ad) ad = Some p.

(** Decrypting one entry of the manifest creates its node with the
    default mode, and then restores the recorded mode. *)
Lemma decrypt_item_created self (out dec : Path.t) rel n md w :
  relative_path md = JStr (Path.str_rel rel) →
  is_directory md = JBool (is_dir_node (Some n)) →
  original_size md = JInt (Z.of_N (st_size n)) →
  rel ≠ [] → valid rel → st_size n < 2 ^ 64 →
  fs w !! (dec ++ rel) = None →
  anchored (fs w) (dec ++ Path.parent rel) →
  sealed_in E self out (fs w) (rel, n) →
  decrypt_item E self out dec md w
  = restore_permissions E (dec ++ rel) (permissions md)
      (World (<[dec ++ rel := created E n]> (fs w)) (draws w)).
Proof using seal_length unseal_seal.
  intros Hpath Hisdir Hsize Hne Hval Hsz Hnone Hanc Hsealed.
  unfold decrypt_item. rewrite Hpath, Hisdir.
  assert (dec ++ rel ≠ []) as Hne'.
  { intros [_ ?]%app_eq_nil. done. }
  destruct (parent_snoc_eq rel Hne) as [x Hrel].
  destruct n as [perm|perm c]; cbn [is_dir_node Py.truthy created].
  - rewrite div_rel by done. unfold bind.
    assert (mkdir_parents E (dec ++ rel) w
            = (Ok tt, World (<[dec ++ rel := Dir (default_dir_perm E)]> (fs w))
                        (draws w))) as ->.
    { unfold mkdir_parents. rewrite mkdir_from_succeeds.
      - do 2 f_equal. rewrite Hrel at 1. rewrite app_assoc, mkdirs_app.
        rewrite anchored_mkdirs by done. cbn [mkdirs app].
        rewrite <- app_assoc, <- Hrel, Hnone. done.
      - intros k Hk perm0 c0 Hfile. cbn [app] in Hfile.
        destruct (decide (k = length (dec ++ rel))) as [->|Hk'].
        + rewrite firstn_all in Hfile. congruence.
        + rewrite Hrel, app_assoc in Hfile, Hk, Hk'.
          rewrite length_app in Hk, Hk'. cbn in Hk, Hk'.
          rewrite take_app_le in Hfile by lia.
          specialize (Hanc k). rewrite Hfile in Hanc. cbn in Hanc.
          assert (false = true); [apply Hanc; lia|done]. }
    done.
  - rewrite str_parse_rel, div_rel_ext, div_rel by done.
    rewrite parent_app by done.
    set (source := out ++ Path.add_ext ext rel).
    destruct (Hsealed perm c eq_refl) as (perm' & nonce & Hnonce & Hutf & Hct).
    cbn [fst snd] in Hutf.
    cbn [fst snd] in Hct. fold source in Hct.
    assert (∀ m : gmap Path.t node, node_at m source = m !! source) as Hns.
    { intros m. apply node_at_app_ne. by apply add_ext_nonempty. }
    assert (∀ m : gmap Path.t node, node_at m (dec ++ rel) = m !! (dec ++ rel))
      as Hnt by (intros m; by apply node_at_app_ne).
    unfold bind at 1. unfold mkdir_parents.
    rewrite mkdir_from_succeeds.
    2:{ intros k Hk perm0 c0 Hfile. cbn [app] in Hfile.
        specialize (Hanc k Hk). by rewrite Hfile in Hanc. }
    rewrite anchored_mkdirs by done.
    unfold bind at 1. unfold exists_ at 1. cbn [fs draws].
    rewrite Hns, Hct. rewrite bool_decide_true by eauto. cbn [negb].
    assert (∀ (m : M world unit) h s, (m s).1 = Ok tt → try_except_all m h s = m s)
      as Htry.
    { intros m h s Hm. unfold try_except_all. by destruct (m s) as [[[]|e] s']. }
    set (body := bind (open_rb source) _).
    set (target := restore_permissions _ _ _ _).
    assert (body (World (fs w) (draws w)) = target) as Hbody.
    { subst body target.
      unfold bind at 1. unfold open_rb at 1. cbn [fs]. rewrite Hns, Hct.
      unfold bind at 1. unfold open_wb at 1. cbn [fs draws]. rewrite Hnt, Hnone.
      rewrite parent_app by done.
      assert (is_dir_node (node_at (fs w) (dec ++ Path.parent rel)) = true) as ->.
      { destruct (dec ++ Path.parent rel) as [|y q] eqn:Hq; [done|].
        rewrite node_at_cons. specialize (Hanc (length (y :: q))).
        rewrite firstn_all in Hanc. apply Hanc. cbn. lia. }
      unfold bind at 1. unfold lift at 1.
      rewrite (str_rel_join rel) by done. rewrite Hutf.
      unfold bind at 1. unfold with_files at 1. unfold ciphertext.
      change (open_files ?ct) with (Files ct 0 []).
      rewrite (EngineFacts.decrypt_file_of_file (Env.seal E) (Env.unseal E)
                 seal_length unseal_seal) by done.
      cbn [fs draws out_data app]. rewrite alter_insert_eq. cbn [set_content].
      unfold bind at 1. unfold stat at 1. cbn [fs]. rewrite Hnt, lookup_insert_eq.
      cbn [st_size]. rewrite Hsize. cbn [st_size Py.eq_int].
      rewrite Z.eqb_refl. cbn [negb]. done. }
    rewrite Htry; [done|]. rewrite Hbody. subst target.
    unfold restore_permissions.
    destruct (Py.truthy (permissions md)); [|done].
    unfold try_except_all. by destruct (chmod E _ _ _) as [[[]|e] s'].
Qed.


End WithEnv.

End DecryptFacts.

(** ** Decrypting a tree *)

Module DecryptTreeFacts.
Import FS OS Tree MonadFacts OSFacts TreeFacts PathFacts OrderFacts CollectFacts.
Import EntryFacts Manifest ManifestFacts FileProcessor EncryptFacts EncryptFolderFacts.
Import EncryptTreeFacts DecryptFacts.




Section WithEnv.
Variable E : Env.t.





Hypothesis seal_length :
  ∀ k n p ad, length (Env.seal E k n p ad) = (length p + Engine.TAG_SIZE)%nat.
Hypothesis unseal_seal :
  ∀ k n p ad, Env.unseal E k n (Env.seal E k n p ad) ad = Some p.


End WithEnv.

End DecryptTreeFacts.

(** ** The round trip *)

Module RoundTripFacts.
Import FS OS Tree MonadFacts OSFacts TreeFacts PathFacts OrderFacts CollectFacts.
Import EntryFacts Manifest ManifestFacts FileProcessor EncryptFacts EncryptFolderFacts.
Import EncryptTreeFacts DecryptFacts DecryptTreeFacts.




Section WithEnv.
Variable E : Env.t.


Hypothesis seal_length :
  ∀ k n p ad, length (Env.seal E k n p ad) = (length p + Engine.TAG_SIZE)%nat.
Hypothesis unseal_seal :
  ∀ k n p ad, Env.unseal E k n (Env.seal E k n p ad) ad = Some p.
Hypothesis loads_dumps : ∀ j, Env.json_loads E (Env.json_dumps E j) = Some j.


End WithEnv.

End RoundTripFacts.

Module ServiceFacts.
Import FS OS Tree MonadFacts OSFacts TreeFacts PathFacts OrderFacts CollectFacts.
Import EntryFacts Manifest ManifestFacts FileProcessor EncryptFacts EncryptFolderFacts.
Import EncryptTreeFacts DecryptFacts DecryptTreeFacts RoundTripFacts.

Section WithEnv.
Variable E : Env.t.




Hypothesis seal_length :
  ∀ k n p ad, length (Env.seal E k n p ad) = (length p + Engine.TAG_SIZE)%nat.
Hypothesis unseal_seal :
  ∀ k n p ad, Env.unseal E k n (Env.seal E k n p ad) ad = Some p.
Hypothesis loads_dumps : ∀ j, Env.json_loads E (Env.json_dumps E j) = Some j.
Hypothesis urandom_length : ∀ i n, length (Env.urandom E i n) = n.
Hypothesis scan_perm : ∀ l, Env.scan E l ≡ₚ l.


End WithEnv.

End ServiceFacts.

(** ** The round trip of a tree *)

Section RoundTrip.
Import FS OS Tree ServiceFacts.

Variable E : Env.t.
Hypothesis seal_length :
  ∀ k n p ad, length (Env.seal E k n p ad) = (length p + Engine.TAG_SIZE)%nat.
Hypothesis unseal_seal :
  ∀ k n p ad, Env.unseal E k n (Env.seal E k n p ad) ad = Some p.
Hypothesis loads_dumps : ∀ j, Env.json_loads E (Env.json_dumps E j) = Some j.
Hypothesis urandom_length : ∀ i n, length (Env.urandom E i n) = n.
Hypothesis scan_perm : ∀ l, Env.scan E l ≡ₚ l.


End RoundTrip.



(** The sample tree, encrypted and decrypted by the services: the decrypted
    tree is the input tree. *)
Example sample_round_trip :
  SampleTree.decrypted.1 = Ok tt
  ∧ SampleTree.subtree SampleTree.dec (fs SampleTree.decrypted.2)
    = SampleTree.subtree SampleTree.inp SampleTree.tree.
Proof. split; vm_compute; reflexivity. Qed.

(** A directory without the owner's write bit.  The tree with the directory
    [d] of mode 0o555 and the file [d/f] is well formed and is encrypted, and
    the manifest lists [d] before [d/f].  Decrypting the entry of [d] creates
    [dec/d] and restores its mode at once, before any file below it exists:
    the file [dec/d/f] is then to be created in a directory that its owner
    cannot write to, which the system permits to the superuser only.  Such
    trees are outside of [Scope.accessible]. *)
Example read_only_directory :
  Tree.tree_ok ["in"] SampleReadOnly.tree = true
  ∧ Scope.accessible ["in"] SampleReadOnly.tree = false
  ∧ SampleReadOnly.encrypted.1 = Ok tt
  ∧ SampleReadOnly.manifest_paths = Ok [JStr "d"; JStr "d/f"]
  ∧ (FileProcessor.decrypt_item RefEnv.env Sample.engine ["enc"] ["dec"]
       SampleReadOnly.md_d SampleReadOnly.w1).1 = Ok tt
  ∧ fs (FileProcessor.decrypt_item RefEnv.env Sample.engine ["enc"] ["dec"]
          SampleReadOnly.md_d SampleReadOnly.w1).2 !! ["dec"; "d"]
    = Some (FS.Dir 365)
  ∧ fs (FileProcessor.decrypt_item RefEnv.env Sample.engine ["enc"] ["dec"]
          SampleReadOnly.md_d SampleReadOnly.w1).2 !! ["dec"; "d"; "f"]
    = None
  ∧ Scope.has 128 365 = false.
Proof. repeat split; vm_compute; reflexivity. Qed.

(** ** The order of the manifest *)

Module OrderOfManifest.
Import FS Tree.



End OrderOfManifest.

Section ManifestOrder.
Import FS OS Tree Manifest EntryFacts EncryptTreeFacts OrderOfManifest.

Variable E : Env.t.
Hypothesis seal_length :
  ∀ k n p ad, length (Env.seal E k n p ad) = (length p + Engine.TAG_SIZE)%nat.
Hypothesis urandom_length : ∀ i n, length (Env.urandom E i n) = n.
Hypothesis scan_perm : ∀ l, Env.scan E l ≡ₚ l.


End ManifestOrder.


(** ** Restoring permissions *)

Section RestorePermissions.
Import FS OS Tree FileProcessor DecryptFacts.

Variable E : Env.t.
Hypothesis seal_length :
  ∀ k n p ad, length (Env.seal E k n p ad) = (length p + Engine.TAG_SIZE)%nat.
Hypothesis unseal_seal :
  ∀ k n p ad, Env.unseal E k n (Env.seal E k n p ad) ad = Some p.

(** C9.  Take a manifest entry for the node [n] at [rel] that
    [decrypt_folder] can process: the target is absent, the directories
    above it exist, and for a file the ciphertext is in place.  When the
    recorded mode is [None] or 0, [chmod] is not called: the entry is
    created and keeps the default creation mode.  When the recorded mode is
    anything for which [chmod] raises, the exception is swallowed, and again
    the created node keeps the default creation mode.  In both cases the
    loop goes on with the next entry. *)
Theorem restore_permissions_skipped (self : Engine.t) (out dec : Path.t)
    (rel : list string) (n : node) (md : FileMetadata) (w : world) :
  relative_path md = JStr (Path.str_rel rel) →
  is_directory md = JBool (is_dir_node (Some n)) →
  original_size md = JInt (Z.of_N (st_size n)) →
  rel ≠ [] →
  Forall (λ x, Path.valid_name x = true) rel →
  st_size n < 2 ^ 64 →
  fs w !! (dec ++ rel) = None →
  anchored (fs w) (dec ++ Path.parent rel) →
  sealed_in E self out (fs w) (rel, n) →
  (permissions md = JNull ∨ permissions md = JInt 0 →
     restore_permissions E (dec ++ rel) (permissions md)
       (World (<[dec ++ rel := created E n]> (fs w)) (draws w))
     = (Ok tt, World (<[dec ++ rel := created E n]> (fs w)) (draws w))
     ∧ decrypt_item E self out dec md w
       = (Ok tt, World (<[dec ++ rel := created E n]> (fs w)) (draws w)))
  ∧ (∀ e w',
       chmod E (dec ++ rel) (permissions md)
         (World (<[dec ++ rel := created E n]> (fs w)) (draws w)) = (Raise e, w') →
       decrypt_item E self out dec md w
       = (Ok tt, World (<[dec ++ rel := created E n]> (fs w)) (draws w)))
  ∧ (∀ w1 mds,
       decrypt_item E self out dec md w = (Ok tt, w1) →
       forM (md :: mds) (decrypt_item E self out dec) w
       = forM mds (decrypt_item E self out dec) w1).
Proof using seal_length unseal_seal.
  intros Hpath Hisdir Hsize Hne Hval Hsz Hnone Hanc Hsealed.
  pose proof (decrypt_item_created E seal_length unseal_seal self out dec rel n md w
                Hpath Hisdir Hsize Hne Hval Hsz Hnone Hanc Hsealed) as Hitem.
  split; [|split].
  - intros Hfalsy.
    assert (Py.truthy (permissions md) = false) as Hf
      by (by destruct Hfalsy as [-> | ->]).
    rewrite Hitem. split; by apply restore_permissions_falsy.
  - intros e w' Hch. rewrite Hitem.
    rewrite (restore_permissions_swallows E _ _ _ _ _ Hch).
    by rewrite (chmod_raises_unchanged E _ _ _ _ _ Hch).
  - intros w1 mds Hrun. cbn [forM]. unfold bind. by rewrite Hrun.
Qed.

End RestorePermissions.

(** C9 at the sample tree: [hello.txt] with a recorded mode of 0 is decrypted
    with the default creation mode 0o644. *)
Lemma restore_permissions_skipped_witness :
  FileProcessor.decrypt_item RefEnv.env Sample.engine SampleTree.out SampleTree.dec
    SampleRestore.md SampleRestore.w
  = (Ok tt, World (<[["dec"; "hello.txt"] := FS.File 420 Sample.hello]>
                     (fs SampleRestore.w)) 0).
Proof.
  destruct (restore_permissions_skipped RefEnv.env RefAEADFacts.seal_length
              RefAEADFacts.unseal_seal Sample.engine SampleTree.out SampleTree.dec
              ["hello.txt"] (FS.File 420 Sample.hello) SampleRestore.md SampleRestore.w)
    as [H _].
  - reflexivity.
  - reflexivity.
  - reflexivity.
  - discriminate.
  - repeat constructor.
  - vm_compute. reflexivity.
  - vm_compute. reflexivity.
  - intros k Hk. assert (k = 1%nat) as -> by (cbn in Hk; lia). vm_compute. reflexivity.
  - intros perm c [= <- <-].
    exists 420, (Env.urandom RefEnv.env 1 Engine.NONCE_SIZE).
    split; [reflexivity|]. split; [vm_compute; reflexivity|]. vm_compute. reflexivity.
  - apply H. by right.
Defined.

(** Where [chmod] is refused, the sample tree is decrypted all the same: the
    directory [a/b] of mode 0o750 comes back with the default mode 0o755, and
    [a/b/c.txt] of mode 0o600 with 0o644. *)
Example decrypt_without_chmod :
  let r := DecryptService.decrypt_folder RefEnv.env_no_chmod SampleTree.dec_service
             SampleTree.out SampleTree.dec SampleTree.password
             (snd SampleTree.encrypted) in
  r.1 = Ok tt
  ∧ fs r.2 !! ["dec"; "a"; "b"] = Some (FS.Dir 493)
  ∧ fs r.2 !! ["dec"; "a"; "b"; "c.txt"]
    = Some (FS.File 420 (Sample.bytes_of_string "x")).
Proof. split; [|split]; vm_compute; reflexivity. Qed.

(** ** More on the chunk cipher ([core/crypto_engine.py]) *)

Module CipherFacts.
Import Struct Engine Format StructFacts EngineFacts.

Lemma byte_xor_cancel a c c' : byte_xor a c = byte_xor a c' → c = c'.
Proof.
  intros H. apply (f_equal Byte.to_N) in H. rewrite !to_N_byte_xor in H.
  apply (f_equal (N.lxor (Byte.to_N a))) in H.
  rewrite <- !N.lxor_assoc, N.lxor_nilpotent, !N.lxor_0_l in H.
  by rewrite <- (byte_of_N_to_N c), <- (byte_of_N_to_N c'), H.
Qed.

Lemma zip_with_xor_cancel (l : list byte) : ∀ k k' : list byte,
  length k = length l → length k' = length l →
  zip_with byte_xor l k = zip_with byte_xor l k' → k = k'.
Proof.
  induction l as [|a l IH]; intros [|c k] [|c' k'] Hk Hk' H; try done.
  cbn in H. injection H as Hc H. apply byte_xor_cancel in Hc as ->.
  f_equal. apply IH; cbn in *; congruence.
Qed.

Lemma byte_xor_zero a : byte_xor a x00 = a.
Proof.
  unfold byte_xor. change (Byte.to_N x00) with 0.
  by rewrite N.lxor_0_r, byte_of_N_to_N.
Qed.

End CipherFacts.

Section ChunkNonces.
Import Struct Engine Format StructFacts EngineFacts CipherFacts.

(** X1.  The nonces that [_derive_chunk_nonce] derives from one 12-byte base
    nonce for two chunk numbers below 2^64 are equal only when the chunk
    numbers are: no nonce is used for two chunks of a file.  The nonce of
    chunk 0 is the base nonce itself, the one stored in the header. *)
Theorem chunk_nonces_distinct (b : list byte) (i j : N) :
  length b = NONCE_SIZE → i < 2 ^ 64 → j < 2 ^ 64 →
  (_derive_chunk_nonce b i = _derive_chunk_nonce b j → i = j)
  ∧ _derive_chunk_nonce b 0 = Ok b.
Proof.
  intros Hb Hi Hj. split.
  - rewrite !derive_chunk_nonce_ok by done. intros [= H].
    unfold chunk_nonce in H. apply app_inv_head in H.
    apply zip_with_xor_cancel in H;
      [|by rewrite length_le_bytes, length_drop, Hb..].
    rewrite <- (le_value_le_bytes 8 i), <- (le_value_le_bytes 8 j), H; done.
  - rewrite derive_chunk_nonce_ok by done. f_equal.
    do 13 (destruct b as [|? b]; try discriminate Hb).
    cbn. by rewrite !byte_xor_zero.
Qed.

End ChunkNonces.

(** X1 at the sample nonce and the chunks 1 and 258. *)
Lemma chunk_nonces_distinct_witness :
  (Engine._derive_chunk_nonce Sample.nonce 1 = Engine._derive_chunk_nonce Sample.nonce 258
   → 1 = 258)
  ∧ Engine._derive_chunk_nonce Sample.nonce 0 = Ok Sample.nonce.
Proof.
  apply (chunk_nonces_distinct Sample.nonce 1 258); [reflexivity|reflexivity|reflexivity].
Defined.

Section FileCipher.
Import Struct Engine Format StructFacts EngineFacts.

Variable seal : list byte → list byte → list byte → list byte → list byte.
Variable unseal : list byte → list byte → list byte → list byte → option (list byte).
Hypothesis seal_length : ∀ k n p ad, length (seal k n p ad) = (length p + TAG_SIZE)%nat.
Hypothesis unseal_seal : ∀ k n p ad, unseal k n (seal k n p ad) ad = Some p.

(** X2.  [decrypt_file] inverts [encrypt_file]: for every plaintext shorter
    than 2^64 bytes (the empty one too), every 12-byte nonce and every
    associated data, [encrypt_file] returns normally, and [decrypt_file] with
    the same key and associated data, run on what it wrote, returns normally
    and writes the plaintext, byte for byte. *)
Theorem file_round_trip (self : Engine.t) (nonce ad data : list byte) :
  length nonce = NONCE_SIZE →
  N.of_nat (length data) < 2 ^ 64 →
  ∃ ct,
    encrypt_file seal self nonce ad (open_files data)
      = (Ok tt, Files data (length data) ct)
    ∧ decrypt_file unseal self ad (open_files ct)
      = (Ok tt, Files ct (length ct) data).
Proof using seal_length unseal_seal.
  intros Hn Hsz. exists (file seal (key self) nonce ad data). split.
  - by rewrite (encrypt_file_ok seal seal_length).
  - unfold open_files.
    by rewrite (decrypt_file_of_file seal unseal seal_length unseal_seal).
Qed.

(** X3.  Whatever the input, an exception that leaves [encrypt_file] is an
    [EncryptionError] and an exception that leaves [decrypt_file] is a
    [DecryptionError]: errors of [struct], of the AEAD primitive or of an
    index never reach the caller as they are. *)
Theorem cipher_exceptions (self : Engine.t) (nonce ad : list byte) (s s' : files)
    (e : exn) :
  (encrypt_file seal self nonce ad s = (Raise e, s') →
   Exn.klass e = Exn.EncryptionError)
  ∧ (decrypt_file unseal self ad s = (Raise e, s') →
     Exn.klass e = Exn.DecryptionError).
Proof.
  split.
  - unfold encrypt_file, try_except_all.
    destruct (bind _ _ s) as [[[]|e0] s0]; [done|]. by intros [= <- _].
  - unfold decrypt_file, try_except_all.
    destruct (bind _ _ s) as [[[]|e0] s0]; [done|]. unfold reraise.
    destruct (Exn.isinstance e0 [Exn.DecryptionError]) eqn:Hi.
    + intros [= <- _]. unfold Exn.isinstance in Hi. cbn in Hi.
      rewrite orb_false_r in Hi. unfold Exn.subclass in Hi.
      destruct (decide _) as [->|]; [done|]. by destruct (Exn.klass e0).
    + by intros [= <- _].
Qed.

End FileCipher.

(** X2 at the 13 bytes of "Hello, World!". *)
Lemma file_round_trip_witness :
  ∃ ct,
    Engine.encrypt_file RefAEAD.seal Sample.engine Sample.nonce [] (open_files Sample.hello)
      = (Ok tt, Files Sample.hello (length Sample.hello) ct)
    ∧ Engine.decrypt_file RefAEAD.unseal Sample.engine [] (open_files ct)
      = (Ok tt, Files ct (length ct) Sample.hello).
Proof.
  apply (file_round_trip RefAEAD.seal RefAEAD.unseal RefAEADFacts.seal_length
           RefAEADFacts.unseal_seal Sample.engine Sample.nonce [] Sample.hello).
  - reflexivity.
  - reflexivity.
Defined.

(** X3 at the empty input, which [decrypt_file] refuses. *)
Lemma cipher_exceptions_witness :
  Engine.decrypt_file RefAEAD.unseal Sample.engine [] (open_files [])
  = (Raise (Exc Exn.DecryptionError "Invalid file: empty or corrupted"), Files [] 0 [])
  ∧ Exn.klass (Exc Exn.DecryptionError "Invalid file: empty or corrupted")
    = Exn.DecryptionError.
Proof.
  split; [reflexivity|].
  apply (proj2 (cipher_exceptions RefAEAD.seal RefAEAD.unseal Sample.engine Sample.nonce
                  [] (open_files []) (Files [] 0 [])
                  (Exc Exn.DecryptionError "Invalid file: empty or corrupted"))).
  reflexivity.
Defined.

(** ** Damaged ciphertexts *)

Module DamageFacts.
Import Struct Engine Format StructFacts EngineFacts.

Lemma le_bytes_le_value (l : list byte) : le_bytes (length l) (le_value l) = l.
Proof.
  induction l as [|b l IH]; [done|]. cbn [length le_bytes le_value].
  pose proof (to_N_lt b) as Hb. f_equal.
  - unfold byte_of_N.
    replace (Byte.to_N b + 256 * le_value l) with (Byte.to_N b + le_value l * 256)
      by lia.
    rewrite N.Div0.mod_add, N.mod_small by done. by rewrite Byte.of_to_N.
  - assert ((Byte.to_N b + 256 * le_value l) / 256 = le_value l) as ->; [|exact IH].
    replace (Byte.to_N b + 256 * le_value l) with (le_value l * 256 + Byte.to_N b)
      by lia.
    rewrite N.div_add_l by done. rewrite N.div_small by done. lia.
Qed.

Lemma le_value_bound (l : list byte) : le_value l < 256 ^ N.of_nat (length l).
Proof.
  induction l as [|b l IH]; [cbn; lia|]. cbn [length le_value].
  rewrite Nat2N.inj_succ, N.pow_succ_r'. pose proof (to_N_lt b). lia.
Qed.

Section WithAEAD.
Variable seal : list byte → list byte → list byte → list byte → list byte.
Variable unseal : list byte → list byte → list byte → list byte → option (list byte).

Lemma sealed_take key b ad (cs : list (list byte)) : ∀ i k,
  take k (sealed seal key b ad i cs) = sealed seal key b ad i (take k cs).
Proof.
  induction cs as [|c cs IH]; intros i [|k]; cbn; try done. by rewrite IH.
Qed.

(** What [decrypt_loop] has written when it stops, whatever stops it,
    is the plaintext of records that it opened. *)
Lemma decrypt_loop_written self b ad : length b = 12%nat → ∀ fuel i tot s,
  ∃ cts ps tail,
    rest s = raw_records cts ++ tail
    ∧ opens unseal (key self) b ad i cts ps
    ∧ out_data (decrypt_loop unseal self b ad fuel i tot s).2
      = out_data s ++ concat ps.
Proof.
  intros Hb. induction fuel as [|fuel IH]; intros i tot s.
  { exists [], [], (rest s). cbn. rewrite app_nil_r. repeat split. constructor. }
  assert (∃ cts ps tail,
            rest s = raw_records cts ++ tail
            ∧ opens unseal (key self) b ad i cts ps
            ∧ out_data s = out_data s ++ concat ps) as Hnone.
  { exists [], [], (rest s). cbn. rewrite app_nil_r. repeat split. constructor. }
  destruct (decide (length (rest s) = 0%nat)) as [Hz|Hz].
  { apply nil_length_inv in Hz. by rewrite (decrypt_loop_eof unseal _ _ _ _ _ _ _ Hz). }
  destruct (decide (length (rest s) < 4)%nat) as [Hshort|Hlong].
  { rewrite decrypt_loop_partial_length by lia. done. }
  set (l4 := take 4 (rest s)). set (w := drop 4 (rest s)).
  assert (rest s = l4 ++ w) as Hr by (unfold l4, w; by rewrite take_drop).
  assert (length l4 = 4%nat) as Hl4 by (unfold l4; rewrite length_take; lia).
  destruct (decide (N.of_nat (length w) < unpack l4)) as [Htr|Hfull].
  { by rewrite (decrypt_loop_truncated unseal _ _ _ _ _ _ _ _ _ Hr Hl4 Htr). }
  set (ct := take (N.to_nat (unpack l4)) w).
  set (w' := drop (N.to_nat (unpack l4)) w).
  assert (w = ct ++ w') as Hw by (unfold ct, w'; by rewrite take_drop).
  assert (N.of_nat (length ct) = unpack l4) as Hct.
  { unfold ct. rewrite length_take. lia. }
  rewrite Hw in Hr.
  destruct (decide (i < 2 ^ 64)) as [Hi|Hi].
  - rewrite (decrypt_loop_step unseal _ _ _ _ _ _ _ _ _ _ Hr Hl4 Hct Hb Hi).
    destruct (unseal _ _ _ _) as [p|] eqn:Hopen; [|done].
    destruct (IH (i + 1) (tot + N.of_nat (length p))
                (Files (in_data s) (in_pos s + (4 + length ct)) (out_data s ++ p)))
      as (cts & ps & tail & Hrest & Hopens & Hout).
    exists (ct :: cts), (p :: ps), tail. split; [|split].
    + assert (raw_records cts ++ tail = w') as Hw'.
      { rewrite <- Hrest.
        apply (rest_advance (4 + length ct) s (l4 ++ ct) w');
          [by rewrite <- app_assoc|rewrite length_app; lia]. }
      rewrite Hr, <- Hw'.
      change (raw_records (ct :: cts)) with (frame ct ++ raw_records cts).
      unfold frame. rewrite Hct. unfold unpack.
      pose proof (le_bytes_le_value l4) as Hle. rewrite Hl4 in Hle. rewrite Hle.
      by rewrite <- !app_assoc.
    + by constructor.
    + rewrite Hout. cbn [out_data concat]. by rewrite app_assoc.
  - cbn [decrypt_loop]. unfold bind at 1.
    rewrite (read_prefix 4 s l4 (ct ++ w') Hr Hl4).
    destruct l4 as [|x l4']; [done|]. rewrite decide_False by (intros H; by apply H).
    unfold bind at 1.
    assert (rest (Files (in_data s) (in_pos s + 4) (out_data s)) = ct ++ w') as Hr1.
    { by apply (rest_advance 4 s (x :: l4') (ct ++ w') (out_data s) Hr). }
    rewrite (read_prefix _ _ ct w' Hr1) by lia.
    rewrite decide_False by (intros H; by apply H).
    unfold bind at 1. unfold Engine.pack_Q, Struct.pack_Q, pack.
    rewrite decide_False by (by change (256 ^ N.of_nat 8) with (2 ^ 64)).
    done.
Qed.

Lemma decrypt_file_empty self ad s :
  rest s = [] →
  decrypt_file unseal self ad s
  = (Raise (Exc Exn.DecryptionError "Invalid file: empty or corrupted"),
     Files (in_data s) (in_pos s) (out_data s)).
Proof.
  intros Hr. unfold decrypt_file, try_except_all. unfold bind at 1.
  by rewrite (read_eof 1 s Hr).
Qed.

Lemma decrypt_file_version self ad s v r1 :
  rest s = v :: r1 → v ≠ x01 →
  decrypt_file unseal self ad s
  = (Raise (Exc Exn.DecryptionError
              ("Unsupported file version: " +:+ pretty (Byte.to_N v)
               +:+ " (expected 1)")),
     Files (in_data s) (in_pos s + 1) (out_data s)).
Proof.
  intros Hr Hv. unfold decrypt_file, try_except_all. unfold bind at 1.
  rewrite (read_prefix 1 s [v] r1 Hr eq_refl).
  assert (unpack [v] = Byte.to_N v) as Hu by (unfold unpack; cbn; lia).
  rewrite Hu. rewrite decide_True; [done|].
  intros Heq. apply Hv. rewrite <- (byte_of_N_to_N v), Heq. done.
Qed.

Lemma decrypt_file_short_header self ad s r1 :
  rest s = x01 :: r1 → (length r1 < 20)%nat →
  ∃ pos,
    decrypt_file unseal self ad s
    = (Raise (Exc Exn.DecryptionError "Invalid file: corrupted header"),
       Files (in_data s) pos (out_data s)).
Proof.
  intros Hr Hlen. unfold decrypt_file, try_except_all. unfold bind at 1.
  rewrite (read_prefix 1 s [x01] r1 Hr eq_refl).
  rewrite decide_False by (intros H; by apply H).
  unfold bind at 1. unfold read at 1. cbn [in_data in_pos out_data].
  pose proof (rest_advance 1 s [x01] r1 (out_data s) Hr eq_refl) as Hr1.
  unfold rest in Hr1. cbn [in_data in_pos] in Hr1. rewrite Hr1.
  destruct (decide (length (take NONCE_SIZE r1) ≠ NONCE_SIZE)) as [Hn|Hn].
  { eexists. reflexivity. }
  unfold bind at 1. unfold read at 1. cbn [in_data in_pos out_data].
  apply dec_stable in Hn. rewrite Hn.
  rewrite <- drop_drop, Hr1.
  rewrite decide_True.
  { eexists. reflexivity. }
  rewrite length_take, length_drop. rewrite length_take in Hn.
  unfold NONCE_SIZE in *. lia.
Qed.

End WithAEAD.

End DamageFacts.

Section DamagedFiles.
Import Struct Engine Format StructFacts EngineFacts DamageFacts.

Variable seal : list byte → list byte → list byte → list byte → list byte.
Variable unseal : list byte → list byte → list byte → list byte → option (list byte).

(** X4.  [decrypt_file] on input that has no complete header: on empty
    input, on input whose first byte is not the version 1, and on input
    that starts with the version byte but is shorter than the 21 bytes of
    a header, it raises [DecryptionError] with the message of that case,
    and writes nothing. *)
Theorem bad_header_rejected (self : Engine.t) (ad : list byte) (s : files) :
  (rest s = [] →
   decrypt_file unseal self ad s
   = (Raise (Exc Exn.DecryptionError "Invalid file: empty or corrupted"),
      Files (in_data s) (in_pos s) (out_data s)))
  ∧ (∀ v r1, rest s = v :: r1 → v ≠ x01 →
       decrypt_file unseal self ad s
       = (Raise (Exc Exn.DecryptionError
                   ("Unsupported file version: " +:+ pretty (Byte.to_N v)
                    +:+ " (expected 1)")),
          Files (in_data s) (in_pos s + 1) (out_data s)))
  ∧ (∀ r1, rest s = x01 :: r1 → (length r1 < 20)%nat →
       ∃ pos,
         decrypt_file unseal self ad s
         = (Raise (Exc Exn.DecryptionError "Invalid file: corrupted header"),
            Files (in_data s) pos (out_data s))).
Proof.
  split; [|split].
  - apply decrypt_file_empty.
  - apply decrypt_file_version.
  - apply decrypt_file_short_header.
Qed.

(** X5.  [decrypt_file] never writes a byte that did not authenticate:
    whatever the input and however the call ends, what it has written is
    nothing, or the file starts with a header and records whose ciphertexts
    all opened under the key, the nonce of their index and the associated
    data of their index, and what it has written is their plaintexts, in
    order.  (It does write the chunks that opened before a later record
    fails.) *)
Theorem only_authenticated_written (self : Engine.t) (ad : list byte) (s : files) :
  out_data (decrypt_file unseal self ad s).2 = out_data s
  ∨ ∃ b size cts ps tail,
      rest s = header b size ++ raw_records cts ++ tail
      ∧ length b = NONCE_SIZE
      ∧ opens unseal (key self) b ad 0 cts ps
      ∧ out_data (decrypt_file unseal self ad s).2 = out_data s ++ concat ps.
Proof.
  destruct (rest s) as [|v r1] eqn:Hr.
  { left. by rewrite decrypt_file_empty. }
  destruct (decide (v = x01)) as [->|Hv].
  2:{ left. by rewrite (decrypt_file_version unseal self ad s v r1). }
  destruct (decide (length r1 < 20)%nat) as [Hshort|Hlong].
  { left. destruct (decrypt_file_short_header unseal self ad s r1 Hr Hshort) as [pos ->].
    done. }
  right.
  set (b := take 12 r1). set (sz := take 8 (drop 12 r1)). set (body := drop 20 r1).
  assert (length b = 12%nat) as Hb by (unfold b; rewrite length_take; lia).
  assert (length sz = 8%nat) as Hsz
    by (unfold sz; rewrite length_take, length_drop; lia).
  assert (rest s = header b (le_value sz) ++ body) as Hhead.
  { rewrite Hr. unfold header. pose proof (le_bytes_le_value sz) as Hle.
    rewrite Hsz in Hle. rewrite Hle. cbn [le_bytes app].
    f_equal. unfold b, sz, body.
    rewrite <- (take_drop 12 r1) at 1. rewrite <- app_assoc. f_equal.
    rewrite <- (take_drop 8 (drop 12 r1)) at 1. by rewrite drop_drop. }
  assert (le_value sz < 2 ^ 64) as Hbound.
  { pose proof (le_value_bound sz) as H. rewrite Hsz in H.
    by change (256 ^ N.of_nat 8) with (2 ^ 64) in H. }
  rewrite (decrypt_file_header unseal self ad s b (le_value sz) body Hhead Hb Hbound).
  set (s1 := Files (in_data s) (in_pos s + 21) (out_data s)).
  destruct (decrypt_loop_written unseal self b ad Hb (S (length (in_data s))) 0 0 s1)
    as (cts & ps & tail & Hrest & Hopens & Hout).
  exists b, (le_value sz), cts, ps, tail.
  split; [|split; [done|split; [done|]]].
  - rewrite <- Hr, Hhead. f_equal. rewrite <- Hrest.
    symmetry. by apply (rest_after_header s b (le_value sz)).
  - change (out_data s1) with (out_data s) in Hout.
    rewrite <- Hout. unfold try_except_all, bind.
    destruct (decrypt_loop unseal self b ad _ 0 0 s1) as [[total|e] s2]; cbn [snd].
    + unfold check_size. by destruct (decide _).
    + unfold reraise. by destruct (Exn.isinstance e _).
Qed.

Hypothesis seal_length : ∀ k n p ad, length (seal k n p ad) = (length p + TAG_SIZE)%nat.
Hypothesis unseal_seal : ∀ k n p ad, unseal k n (seal k n p ad) ad = Some p.

(** X6.  A ciphertext that lost its last records is rejected: when only the
    first [k] of the records of an encrypted file are left, [decrypt_file]
    opens them, writes their plaintext, and then raises [DecryptionError]
    because the size in the header is not reached. *)
Theorem truncated_file_rejected (self : Engine.t) (nonce ad data : list byte) (k : nat) :
  length nonce = NONCE_SIZE →
  N.of_nat (length data) < 2 ^ 64 →
  (k < length (chunks data))%nat →
  decrypt_file unseal self ad
    (open_files
       (header nonce (N.of_nat (length data))
        ++ raw_records (take k (sealed seal (key self) nonce ad 0 (chunks data)))))
  = (Raise (Exc Exn.DecryptionError
              ("File size mismatch: expected " +:+ pretty (N.of_nat (length data))
               +:+ ", got "
               +:+ pretty (N.of_nat (length (concat (take k (chunks data))))))),
     Files (header nonce (N.of_nat (length data))
            ++ raw_records (take k (sealed seal (key self) nonce ad 0 (chunks data))))
       (length (header nonce (N.of_nat (length data))
                ++ raw_records
                     (take k (sealed seal (key self) nonce ad 0 (chunks data)))))
       (concat (take k (chunks data)))).
Proof using seal_length unseal_seal.
  intros Hn Hsz Hk.
  set (input := header _ _ ++ raw_records _).
  pose proof (split_chunks_length (S (length data)) data) as Hlen.
  fold (chunks data) in Hlen.
  rewrite (decrypt_file_opens unseal self ad (open_files input) nonce
             (N.of_nat (length data))
             (take k (sealed seal (key self) nonce ad 0 (chunks data)))
             (take k (chunks data))).
  - rewrite decide_True; [done|].
    assert (length (concat (take k (chunks data))) < length data)%nat; [|lia].
    assert (length data
            = length (concat (take k (chunks data) ++ drop k (chunks data)))) as ->.
    { rewrite take_drop. unfold chunks. rewrite split_chunks_concat; [done|lia]. }
    rewrite concat_app, length_app.
    destruct (drop k (chunks data)) as [|c cs] eqn:Hd.
    { apply (f_equal length) in Hd. rewrite length_drop in Hd. cbn [length] in Hd. lia. }
    assert (c ∈ chunks data) as Hc.
    { rewrite <- (take_drop k (chunks data)), Hd. apply elem_of_app. right. by left. }
    apply split_chunks_bound in Hc. cbn [concat]. rewrite length_app. lia.
  - done.
  - rewrite sealed_take. apply opens_sealed. done.
  - done.
  - done.
  - rewrite length_take, length_sealed. lia.
  - apply Forall_take. apply (sealed_bound seal seal_length), chunks_bound.
Qed.

End DamagedFiles.

(** X6 at "Hello, World!" with none of its records left: the header alone. *)
Lemma truncated_file_rejected_witness :
  Engine.decrypt_file RefAEAD.unseal Sample.engine []
    (open_files (Format.header Sample.nonce 13))
  = (Raise (Exc Exn.DecryptionError "File size mismatch: expected 13, got 0"),
     Files (Format.header Sample.nonce 13) 21 []).
Proof.
  apply (truncated_file_rejected RefAEAD.seal RefAEAD.unseal RefAEADFacts.seal_length
           RefAEADFacts.unseal_seal Sample.engine Sample.nonce [] Sample.hello 0).
  - reflexivity.
  - reflexivity.
  - vm_compute. lia.
Defined.

(** X4 at a file of version 2: it is refused after its first byte, and
    nothing is written. *)
Lemma bad_header_rejected_witness :
  Engine.decrypt_file RefAEAD.unseal Sample.engine [] (open_files [x02; x00])
  = (Raise (Exc Exn.DecryptionError "Unsupported file version: 2 (expected 1)"),
     Files [x02; x00] 1 []).
Proof.
  apply (proj1 (proj2 (bad_header_rejected RefAEAD.unseal Sample.engine []
                         (open_files [x02; x00]))) x02 [x00]).
  - reflexivity.
  - discriminate.
Defined.

(** ** What the tree engine leaves alone *)

Module FrameFacts.
Import FS OS Tree Frame MonadFacts OSFacts TreeFacts PathFacts Manifest ManifestFacts.
Import FileProcessor EncryptFacts.

Lemma touches_weaken {A} (T T' : Path.t → Prop) (m : M world A) :
  (∀ p, T p → T' p) → touches T m → touches T' m.
Proof. intros HT Hm w p Hp. apply Hm. naive_solver. Qed.

Lemma touches_pure {A} (T : Path.t → Prop) (m : M world A) :
  (∀ w, fs (m w).2 = fs w) → touches T m.
Proof. intros Hm w p _. by rewrite Hm. Qed.

Lemma touches_ret {A} T (a : A) : touches T (ret a).
Proof. by apply touches_pure. Qed.

Lemma touches_raise {A} T e : touches T (raise (A := A) e).
Proof. by apply touches_pure. Qed.

Lemma touches_lift {A} T (r : result A) : touches T (lift r).
Proof. by apply touches_pure. Qed.

Lemma touches_bind {A B} T (m : M world A) (k : A → M world B) :
  touches T m → (∀ a, touches T (k a)) → touches T (bind m k).
Proof.
  intros Hm Hk w p Hp. unfold bind. specialize (Hm w p Hp).
  destruct (m w) as [[a|e] w'] eqn:Hrun; cbn [snd] in *; [|done].
  by rewrite (Hk a w' p Hp).
Qed.

Lemma touches_try_except_all {A} T (m : M world A) (h : exn → M world A) :
  touches T m → (∀ e, touches T (h e)) → touches T (try_except_all m h).
Proof.
  intros Hm Hh w p Hp. unfold try_except_all. specialize (Hm w p Hp).
  destruct (m w) as [[a|e] w'] eqn:Hrun; cbn [snd] in *; [done|].
  by rewrite (Hh e w' p Hp).
Qed.

Lemma touches_mapM {A B} T (f : A → M world B) (l : list A) :
  Forall (λ x, touches T (f x)) l → touches T (mapM f l).
Proof.
  induction 1 as [|x l Hx _ IH]; cbn [mapM]; [apply touches_ret|].
  apply touches_bind; [done|]. intros y.
  apply touches_bind; [done|]. intros ys. apply touches_ret.
Qed.

Lemma touches_forM {A} T (f : A → M world unit) (l : list A) :
  Forall (λ x, touches T (f x)) l → touches T (forM l f).
Proof.
  induction 1 as [|x l Hx _ IH]; cbn [forM]; [apply touches_ret|].
  apply touches_bind; [done|]. by intros _.
Qed.

Section WithEnv.
Variable E : Env.t.

Lemma touches_exists_ T p : touches T (exists_ p).
Proof. by apply touches_pure. Qed.

Lemma touches_is_dir T p : touches T (is_dir p).
Proof. by apply touches_pure. Qed.

Lemma touches_stat T p : touches T (stat p).
Proof. apply touches_pure. intros w. unfold stat. by destruct (node_at _ _). Qed.

Lemma touches_open_rb T p : touches T (open_rb p).
Proof.
  apply touches_pure. intros w. unfold open_rb.
  by destruct (node_at _ _) as [[]|].
Qed.

Lemma touches_rglob T p : touches T (rglob E p).
Proof. by apply touches_pure. Qed.

Lemma touches_urandom T n : touches T (os_urandom E n).
Proof. by apply touches_pure. Qed.

Lemma touches_set_node (T : Path.t → Prop) p n : T p → touches T (set_node p n).
Proof.
  intros HT w q Hq. unfold set_node. cbn. apply lookup_insert_ne. by intros ->.
Qed.

Lemma touches_mkdir_from (T : Path.t → Prop) rest : ∀ pre,
  (∀ p, is_step pre rest p → T p) → touches T (mkdir_from E pre rest).
Proof.
  induction rest as [|x rest IH]; intros pre HT; cbn [mkdir_from];
    [apply touches_ret|].
  apply touches_bind; [by apply touches_pure|]. intros n.
  assert (touches T (mkdir_from E (pre ++ [x]) rest)) as Hrest.
  { apply IH. intros p Hp. apply HT, is_step_cons. by right. }
  destruct n as [[d|d c]|]; [done|apply touches_raise|].
  apply touches_bind; [|done]. apply touches_set_node, HT, is_step_cons. by left.
Qed.

Lemma touches_mkdir_parents (T : Path.t → Prop) p :
  (∀ q, q `prefix_of` p → T q) → touches T (mkdir_parents E p).
Proof. intros HT. apply touches_mkdir_from. intros q Hq%is_step_prefix. by apply HT. Qed.

Lemma touches_open_wb (T : Path.t → Prop) p : T p → touches T (open_wb E p).
Proof.
  intros HT w q Hq. unfold open_wb.
  destruct (node_at (fs w) p) as [[d|d c]|]; cbn; [done| |].
  - apply lookup_insert_ne. by intros ->.
  - destruct (is_dir_node _); cbn; [|done]. apply lookup_insert_ne. by intros ->.
Qed.

Lemma touches_close_wb (T : Path.t → Prop) p c : T p → touches T (close_wb p c).
Proof. intros HT w q Hq. cbn. apply lookup_alter_ne. by intros ->. Qed.

Lemma touches_write_bytes (T : Path.t → Prop) p c :
  T p → touches T (write_bytes E p c).
Proof.
  intros HT. apply touches_bind; [by apply touches_open_wb|].
  intros _. by apply touches_close_wb.
Qed.

Lemma touches_with_files {A} (T : Path.t → Prop) p input (body : M files A) :
  T p → touches T (with_files p input body).
Proof.
  intros HT w q Hq. unfold with_files. destruct (body _) as [r f]. cbn.
  apply lookup_alter_ne. by intros ->.
Qed.

Lemma touches_chmod (T : Path.t → Prop) p mode : T p → touches T (chmod E p mode).
Proof.
  intros HT w q Hq. unfold chmod.
  repeat match goal with
         | |- context [match ?x with _ => _ end] => destruct x
         end; cbn; try done.
  all: apply lookup_insert_ne; intros Heq; apply Hq; by rewrite <- Heq.
Qed.

Lemma touches_restore_permissions (T : Path.t → Prop) p perms :
  T p → touches T (restore_permissions E p perms).
Proof.
  intros HT. unfold restore_permissions. destruct (Py.truthy perms); [|apply touches_ret].
  apply touches_try_except_all; [by apply touches_chmod|]. intros _. apply touches_ret.
Qed.

Lemma along_below (root rel : Path.t) : along root (root ++ rel).
Proof. left. by apply prefix_app_r. Qed.

Lemma along_prefix (root rel q : Path.t) : q `prefix_of` root ++ rel → along root q.
Proof.
  intros Hq. destruct (prefix_weak_total q root (root ++ rel)) as [?|?];
    [done|by apply prefix_app_r|by right|by left].
Qed.

Lemma along_parent (root rel q : Path.t) :
  q `prefix_of` Path.parent (root ++ rel) → along root q.
Proof.
  intros Hq. apply (along_prefix root rel). etrans; [exact Hq|]. apply prefix_take.
Qed.

Lemma not_along (root p : Path.t) : apart root p → ¬ along root p.
Proof. intros [H1 H2] [?|?]; done. Qed.

Lemma touches_encrypt_item self (inp out rel : Path.t) :
  rel ≠ [] → valid rel →
  touches (along out) (encrypt_item E self inp out (inp ++ rel)).
Proof.
  intros Hne Hval. unfold encrypt_item, Path.relative_to.
  rewrite drop_app_length.
  apply touches_bind; [apply touches_is_dir|]. intros [|].
  - apply touches_bind; [apply touches_stat|]. intros st. apply touches_ret.
  - rewrite div_rel_ext by done.
    apply touches_bind.
    { apply touches_mkdir_parents. intros q. apply along_parent. }
    intros _. apply touches_bind; [apply touches_stat|]. intros st.
    apply touches_try_except_all; [|intros e; apply touches_raise].
    apply touches_bind; [apply touches_open_rb|]. intros input.
    apply touches_bind; [apply touches_open_wb, along_below|]. intros _.
    apply touches_bind; [apply touches_lift|]. intros ad.
    apply touches_bind; [apply touches_urandom|]. intros nonce.
    apply touches_bind; [apply touches_with_files, along_below|]. intros _.
    apply touches_bind; [apply touches_stat|]. intros st_out.
    apply touches_bind; [apply touches_stat|]. intros st_in.
    apply touches_ret.
Qed.

Lemma touches_save_metadata self (out : Path.t) mds :
  touches (along out) (_save_metadata E self out mds).
Proof.
  unfold _save_metadata.
  apply touches_try_except_all; [|intros e; apply touches_raise].
  apply touches_bind; [apply touches_urandom|]. intros nonce.
  apply touches_bind; [apply touches_lift|]. intros enc.
  rewrite div_metadata_filename. apply touches_write_bytes, along_below.
Qed.

Lemma touches_load_metadata T self (out : Path.t) :
  touches T (_load_metadata E self out).
Proof.
  unfold _load_metadata.
  apply touches_bind; [apply touches_exists_|]. intros [|]; cbn [negb].
  - apply touches_try_except_all.
    + apply touches_bind; [apply touches_open_rb|]. intros data.
      apply touches_bind; [apply touches_lift|]. intros bs.
      apply touches_bind; [|intros d; apply touches_lift].
      destruct (Env.json_loads E bs); [apply touches_ret|apply touches_raise].
    + intros e. destruct (Exn.isinstance e _); apply touches_raise.
  - apply touches_raise.
Qed.

(** A manifest entry whose path is relative and has no [..] component
    (or is no string at all). *)
Lemma touches_decrypt_item self (out dec : Path.t) md :
  (∀ s, relative_path md = JStr s →
        Path.absolute (Path.parse s) = false
        ∧ Forall (λ x, x ≠ "..") (Path.parts (Path.parse s))) →
  touches (along dec) (decrypt_item E self out dec md).
Proof.
  intros Hsafe. unfold decrypt_item.
  destruct (relative_path md) as [| | |s| |] eqn:Hpath; try apply touches_raise.
  destruct (Hsafe s eq_refl) as [Habs Hparts].
  assert (Path.div dec (Path.parse s) = dec ++ Path.parts (Path.parse s)) as Hdiv.
  { unfold Path.div. rewrite Habs. clear Habs Hpath Hsafe.
    generalize dec. induction Hparts as [|x l Hx _ IH]; intros acc; cbn.
    - by rewrite app_nil_r.
    - apply String.eqb_neq in Hx. rewrite Hx, IH. by rewrite <- app_assoc. }
  rewrite Hdiv. destruct (Py.truthy (is_directory md)).
  - apply touches_bind.
    { apply touches_mkdir_parents. intros q. apply along_prefix. }
    intros _. apply touches_restore_permissions, along_below.
  - apply touches_bind.
    { apply touches_mkdir_parents. intros q. apply along_parent. }
    intros _. apply touches_bind; [apply touches_exists_|]. intros [|]; cbn [negb];
      [|apply touches_raise].
    apply touches_try_except_all.
    + apply touches_bind; [apply touches_open_rb|]. intros input.
      apply touches_bind; [apply touches_open_wb, along_below|]. intros _.
      apply touches_bind; [apply touches_lift|]. intros ad.
      apply touches_bind; [apply touches_with_files, along_below|]. intros _.
      apply touches_bind; [apply touches_stat|]. intros st.
      destruct (negb _); [apply touches_raise|].
      apply touches_restore_permissions, along_below.
    + intros e. destruct (Exn.isinstance e _); apply touches_raise.
Qed.

End WithEnv.

End FrameFacts.

Section StaysInOutput.
Import FS OS Tree Frame MonadFacts OSFacts TreeFacts PathFacts CollectFacts EntryFacts.
Import Manifest FileProcessor EncryptTreeFacts FrameFacts.

Variable E : Env.t.
Hypothesis scan_perm : ∀ l, Env.scan E l ≡ₚ l.

Lemma encrypt_folder_frame (self : Engine.t) (inp out : Path.t) (w : world) :
  tree_ok inp (fs w) = true → apart inp out →
  ∀ p, apart out p →
    fs (FileProcessor.encrypt_folder E self inp out w).2 !! p = fs w !! p.
Proof using scan_perm.
  intros Hok Hap p Hp%not_along.
  unfold FileProcessor.encrypt_folder.
  unfold bind at 1. unfold exists_ at 1. destruct (bool_decide _); cbn [negb]; [|done].
  unfold bind at 1. unfold is_dir at 1. destruct (is_dir_node _); cbn [negb]; [|done].
  unfold bind at 1.
  pose proof (touches_mkdir_parents E (along out) out (λ q Hq, or_intror Hq) w p Hp)
    as Hmk.
  destruct (mkdir_parents E out w) as [[[]|e] w1] eqn:Hrun1; cbn [snd] in Hmk; [|done].
  apply mkdir_parents_ok_inv in Hrun1 as Hw1.
  destruct (collect_entries E scan_perm inp w) as (es & Hcol0 & Hlists & _).
  assert (_collect_items E inp w1 = (Ok ((λ e, inp ++ e.1) <$> es), w1)) as Hcol.
  { pose proof (collect_items_agree E scan_perm E inp w w1 scan_perm) as Heq.
    rewrite Hcol0 in Heq. cbn [fst] in Heq.
    assert (_collect_items E inp w1 = ((_collect_items E inp w1).1, w1)) as ->
      by reflexivity.
    rewrite Heq; [done|]. intros q (rel & _ & ->)%below_app. subst w1. cbn [fs].
    by apply mkdirs_apart, apart_app_r, apart_sym. }
  unfold bind at 1. rewrite Hcol.
  assert (touches (along out)
            (mapM (encrypt_item E self inp out) ((λ e, inp ++ e.1) <$> es))) as Hloop.
  { apply touches_mapM, Forall_fmap, Forall_forall. intros [rel n] [Hne Hn]%Hlists.
    destruct (tree_ok_entry inp (fs w) rel n Hok Hne Hn) as (Hval & _).
    by apply touches_encrypt_item. }
  specialize (Hloop w1 p Hp). unfold bind at 1.
  destruct (mapM _ _ w1) as [[mds|e] w2]; cbn [snd] in *; [|congruence].
  rewrite (touches_save_metadata E self out mds w2 p Hp). congruence.
Qed.

(** X7.  Encryption stays in the output directory: however
    [EncryptService.encrypt_folder] ends on a well-formed input tree whose
    output directory is apart from it, the file system is as before at
    every path that is neither inside the output directory nor above it.
    In particular the input tree is left as it was, also when encryption
    fails half way.  The same holds for [FileProcessor.encrypt_folder]. *)
Theorem encryption_stays_in_output (service : EncryptService.t) (self : Engine.t)
    (inp out : Path.t) (password : list N) (w : world) (p : Path.t) :
  tree_ok inp (fs w) = true →
  apart inp out →
  apart out p →
  fs (EncryptService.encrypt_folder E service inp out password w).2 !! p = fs w !! p
  ∧ fs (FileProcessor.encrypt_folder E self inp out w).2 !! p = fs w !! p.
Proof using scan_perm.
  intros Hok Hap Hp. split; [|by apply encrypt_folder_frame].
  assert (∀ e (s : world),
            ((if Exn.isinstance e [Exn.InvalidPasswordError; Exn.EncryptionError;
                                   Exn.FileProcessingError]
              then raise e
              else raise (Exc Exn.EncryptionError
                            ("Encryption failed: " +:+ Exn.message e)))
               : M world unit) s
            = (Raise (if Exn.isinstance e [Exn.InvalidPasswordError;
                                            Exn.EncryptionError;
                                            Exn.FileProcessingError]
                      then e
                      else Exc Exn.EncryptionError
                             ("Encryption failed: " +:+ Exn.message e)), s)) as Hh.
  { intros e s. by destruct (Exn.isinstance e _). }
  unfold EncryptService.encrypt_folder. unfold bind at 1.
  assert (∀ (check : M world unit),
            (check w = (Ok tt, w) ∨ ∃ e, check w = (Raise e, w)) →
            ∀ k : M world unit,
              fs (k w).2 !! p = fs w !! p →
              fs (match check w with
                  | (Ok _, s') => k s'
                  | (Raise e, s') => (Raise e, s')
                  end).2 !! p = fs w !! p) as Hcheck.
  { intros check [->|[e ->]] k Hk; done. }
  apply Hcheck.
  { destruct (EncryptService.verify_password_strength service); [|by left].
    destruct (KeyDerivation.verify_password_strength E password) as [[|] msg];
      [by left|right; by eexists]. }
  unfold try_except_all. unfold bind at 1.
  unfold KeyDerivation.generate_salt, os_urandom.
  unfold bind at 1. unfold lift at 1.
  destruct (KeyDerivation.derive_key E _ password _) as [key|e];
    [|by rewrite Hh].
  unfold bind at 1. unfold lift at 1.
  destruct (Engine.init key) as [engine|e]; [|by rewrite Hh].
  unfold bind at 1.
  pose proof (encrypt_folder_frame engine inp out (World (fs w) (draws w + 1))
                Hok Hap p Hp) as Henc.
  destruct (FileProcessor.encrypt_folder E engine inp out _) as [[[]|e] w1];
    cbn [snd fs] in Henc; [|by rewrite Hh].
  pose proof (touches_write_bytes E (along out) (EncryptService.salt_file out)
                (Env.urandom E (draws w) KeyDerivation.SALT_SIZE)
                (along_below out [".salt"]) w1 p (not_along _ _ Hp)) as Hsalt.
  destruct (write_bytes E _ _ w1) as [[[]|e] w2]; cbn [snd] in *.
  - congruence.
  - rewrite Hh. cbn [snd]. congruence.
Qed.

(** X8.  Decryption stays in the target directory, as long as no path of
    the manifest is absolute or has a [..] component: however
    [FileProcessor.decrypt_folder] ends (a missing or damaged ciphertext
    stops it half way), the file system is as before at every path that is
    neither inside the target directory nor above it; the encrypted folder
    is never written to. *)
Theorem decryption_stays_in_target (self : Engine.t) (out dec : Path.t) (w : world)
    (p : Path.t) :
  (∀ mds w', _load_metadata E self out w = (Ok mds, w') →
     Forall (λ md, ∀ s, relative_path md = JStr s →
                        Path.absolute (Path.parse s) = false
                        ∧ Forall (λ x, x ≠ "..") (Path.parts (Path.parse s))) mds) →
  apart dec p →
  fs (FileProcessor.decrypt_folder E self out dec w).2 !! p = fs w !! p.
Proof.
  intros Hsafe Hp%not_along. unfold FileProcessor.decrypt_folder.
  unfold bind at 1. unfold exists_ at 1. destruct (bool_decide _); cbn [negb]; [|done].
  unfold bind at 1. unfold is_dir at 1. destruct (is_dir_node _); cbn [negb]; [|done].
  unfold bind at 1.
  pose proof (touches_load_metadata E (along dec) self out w p Hp) as Hload.
  destruct (_load_metadata E self out w) as [[mds|e] w1] eqn:Hrun; cbn [snd] in *;
    [|done].
  specialize (Hsafe mds w1 eq_refl).
  unfold bind at 1.
  pose proof (touches_mkdir_parents E (along dec) dec (λ q Hq, or_intror Hq) w1 p Hp)
    as Hmk.
  destruct (mkdir_parents E dec w1) as [[[]|e] w2]; cbn [snd] in *; [|congruence].
  rewrite (touches_forM (along dec) (decrypt_item E self out dec) mds); [congruence| |done].
  eapply Forall_impl; [exact Hsafe|]. intros md Hmd. by apply touches_decrypt_item.
Qed.

End StaysInOutput.

(** X7 at the tree with [a] and [a.encrypted/y], on which encryption fails half
    way: the input file [a] is as before. *)
Lemma encryption_stays_in_output_witness :
  fs (EncryptService.encrypt_folder RefEnv.env SampleTree.enc_service ["in"] ["enc"]
        SampleTree.password SampleCollision.w0).2 !! ["in"; "a"]
  = fs SampleCollision.w0 !! ["in"; "a"]
  ∧ fs (FileProcessor.encrypt_folder RefEnv.env Sample.engine ["in"] ["enc"]
          SampleCollision.w0).2 !! ["in"; "a"]
    = fs SampleCollision.w0 !! ["in"; "a"].
Proof.
  apply (encryption_stays_in_output RefEnv.env (λ l, reverse_Permutation l)
           SampleTree.enc_service Sample.engine ["in"] ["enc"] SampleTree.password
           SampleCollision.w0 ["in"; "a"]).
  - vm_compute. reflexivity.
  - split; intros [k Hk]; discriminate.
  - split; intros [k Hk]; discriminate.
Defined.

(** X8 at the encrypted sample tree: its ciphertext of [hello.txt] is as
    before. *)
Lemma decryption_stays_in_target_witness :
  fs (FileProcessor.decrypt_folder RefEnv.env Sample.engine SampleTree.out SampleTree.dec
        (snd SampleTree.engine_encrypted)).2 !! ["enc"; "hello.txt.encrypted"]
  = fs (snd SampleTree.engine_encrypted) !! ["enc"; "hello.txt.encrypted"].
Proof.
  apply (decryption_stays_in_target RefEnv.env Sample.engine SampleTree.out SampleTree.dec
           (snd SampleTree.engine_encrypted) ["enc"; "hello.txt.encrypted"]).
  - intros mds w' H. vm_compute in H. injection H as <- _.
    repeat (apply Forall_cons; split;
            [intros s [= <-]; split;
             [reflexivity|vm_compute; repeat (constructor; [discriminate|]); constructor]|]).
    constructor.
  - split; intros [k Hk]; discriminate.
Defined.

(** Without that condition decryption does leave the target directory: a
    manifest that lists the directory [../x] makes [decrypt_folder] create [x]
    beside the target. *)
Example manifest_path_escapes :
  let w := SampleManifest.world_with [SampleManifest.entry "../x" true] in
  fs w !! ["x"] = None
  ∧ fs (FileProcessor.decrypt_folder RefEnv.env Sample.engine ["enc"] ["dec"] w).2
      !! ["x"] = Some (FS.Dir 493).
Proof. split; vm_compute; reflexivity. Qed.

(** ** The services at their edges *)

Module ContractFacts.

Lemma isinstance_raised (e : exn) (cs : list Exn.cls) (wrapped : exn) :
  Exn.isinstance wrapped cs = true →
  Exn.isinstance (if Exn.isinstance e cs then e else wrapped) cs = true.
Proof. intros Hw. by destruct (Exn.isinstance e cs) eqn:He. Qed.

Lemma bind_ext {S A B} (m : M S A) (k1 k2 : A → M S B) s :
  (∀ a s', k1 a s' = k2 a s') → bind m k1 s = bind m k2 s.
Proof. intros Hk. unfold bind. destruct (m s) as [[a|e] s']; [apply Hk|done]. Qed.

Lemma try_except_all_ext {S A} (m1 m2 : M S A) (h : exn → M S A) s :
  m1 s = m2 s → try_except_all m1 h s = try_except_all m2 h s.
Proof. intros Hm. unfold try_except_all. by rewrite Hm. Qed.

End ContractFacts.

Section ServiceContracts.
Import FS OS ContractFacts.

Variable E : Env.t.

(** X9.  What the services raise.  Whatever the input, an exception that
    leaves [EncryptService.encrypt_folder] is an [InvalidPasswordError], an
    [EncryptionError] or a [FileProcessingError], and an exception that
    leaves [DecryptService.decrypt_folder] is a [DecryptionError] or a
    [FileProcessingError]: an [OSError] of the system, an
    [InvalidMetadataError] of the manifest and (for decryption) an
    [InvalidPasswordError] never reach the caller as they are. *)
Theorem service_exceptions (enc_service : EncryptService.t)
    (dec_service : DecryptService.t) (inp out : Path.t) (password : list N)
    (w : world) :
  match (EncryptService.encrypt_folder E enc_service inp out password w).1 with
  | Ok _ => True
  | Raise e =>
      Exn.isinstance e [Exn.InvalidPasswordError; Exn.EncryptionError;
                        Exn.FileProcessingError] = true
  end
  ∧ match (DecryptService.decrypt_folder E dec_service inp out password w).1 with
    | Ok _ => True
    | Raise e =>
        Exn.isinstance e [Exn.DecryptionError; Exn.FileProcessingError] = true
        ∧ Exn.klass e ≠ Exn.InvalidPasswordError
        ∧ Exn.klass e ≠ Exn.InvalidMetadataError
        ∧ Exn.klass e ≠ Exn.OSError
    end.
Proof.
  split.
  - unfold EncryptService.encrypt_folder. unfold bind at 1.
    destruct (EncryptService.verify_password_strength enc_service).
    + destruct (KeyDerivation.verify_password_strength E password) as [[|] msg];
        cbn [negb]; [|done].
      unfold ret at 1. unfold try_except_all.
      destruct (bind _ _ w) as [[[]|e] w']; [done|]. cbn [fst].
      by destruct (Exn.isinstance e _) eqn:He.
    + unfold ret at 1. unfold try_except_all.
      destruct (bind _ _ w) as [[[]|e] w']; [done|]. cbn [fst].
      by destruct (Exn.isinstance e _) eqn:He.
  - unfold DecryptService.decrypt_folder, try_except_all.
    destruct (bind _ _ w) as [[[]|e] w']; [done|].
    destruct (Exn.isinstance e [Exn.DecryptionError; Exn.FileProcessingError]) eqn:He;
      cbn [fst].
    + split; [done|]. unfold Exn.isinstance in He. cbn in He.
      destruct (Exn.klass e); cbn in He; done.
    + repeat split; done.
Qed.

(** X10.  The empty password.  [EncryptService.encrypt_folder] refuses it
    with [InvalidPasswordError]: before anything else when it verifies the
    strength of passwords, and otherwise when it derives the key, with the
    salt drawn and nothing written.  [DecryptService.decrypt_folder], on a
    folder with a salt of 32 bytes, refuses it with [DecryptionError] and
    writes nothing. *)
Theorem empty_password_refused (use_argon2 : bool) (inp out : Path.t) (w : world)
    (perm : N) (salt : list byte) :
  EncryptService.encrypt_folder E (EncryptService.init E use_argon2 true) inp out [] w
  = (Raise (Exc Exn.InvalidPasswordError
              "Password must be at least 8 characters long"), w)
  ∧ EncryptService.encrypt_folder E (EncryptService.init E use_argon2 false) inp out [] w
    = (Raise (Exc Exn.InvalidPasswordError "Password cannot be empty"),
       World (fs w) (draws w + 1))
  ∧ (fs w !! (inp ++ [".salt"]) = Some (File perm salt) →
     length salt = KeyDerivation.SALT_SIZE →
     DecryptService.decrypt_folder E (DecryptService.init E use_argon2) inp out [] w
     = (Raise (Exc Exn.DecryptionError
                 "Invalid password: Password cannot be empty"), w)).
Proof.
  split; [|split].
  - reflexivity.
  - reflexivity.
  - intros Hsalt Hlen. unfold DecryptService.decrypt_folder, try_except_all.
    unfold DecryptService.salt_file. rewrite ManifestFacts.div_salt.
    unfold bind at 1. unfold exists_ at 1. rewrite ManifestFacts.node_at_snoc, Hsalt.
    rewrite bool_decide_true by eauto. cbn [negb].
    unfold bind at 1. unfold open_rb at 1. rewrite ManifestFacts.node_at_snoc, Hsalt.
    rewrite decide_False by (intros Hn; by apply Hn).
    reflexivity.
Qed.

(** X11.  Without Argon2 installed, asking for it changes nothing: the
    services built with [use_argon2=True] behave exactly as the ones built
    without it (they fall back to PBKDF2 without a word), so what one
    encrypts the other decrypts. *)
Theorem argon2_fallback (verify : bool) (inp out : Path.t) (password : list N)
    (w : world) :
  Env.argon2_installed E = false →
  EncryptService.encrypt_folder E (EncryptService.init E true verify) inp out password w
  = EncryptService.encrypt_folder E (EncryptService.init E false verify) inp out
      password w
  ∧ DecryptService.decrypt_folder E (DecryptService.init E true) inp out password w
    = DecryptService.decrypt_folder E (DecryptService.init E false) inp out password w.
Proof.
  intros Hno.
  assert (∀ salt,
            KeyDerivation.derive_key E (KeyDerivation.init E true) password salt
            = KeyDerivation.derive_key E (KeyDerivation.init E false) password salt)
    as Hkey.
  { intros salt. unfold KeyDerivation.derive_key, KeyDerivation.init. by rewrite Hno. }
  split.
  - unfold EncryptService.encrypt_folder, EncryptService.init.
    cbn [EncryptService.key_derivation EncryptService.verify_password_strength].
    apply bind_ext. intros _ s. apply try_except_all_ext.
    apply bind_ext. intros salt s1. by rewrite Hkey.
  - unfold DecryptService.decrypt_folder, DecryptService.init.
    cbn [DecryptService.key_derivation].
    apply try_except_all_ext. apply bind_ext. intros found s.
    destruct (negb found); [done|].
    apply bind_ext. intros salt s1. destruct (decide _); [done|].
    by rewrite Hkey.
Qed.

End ServiceContracts.

(** X11 at the sample tree, on a system without Argon2. *)
Lemma argon2_fallback_witness :
  EncryptService.encrypt_folder RefEnv.env (EncryptService.init RefEnv.env true true)
    SampleTree.inp SampleTree.out SampleTree.password SampleTree.w0
  = EncryptService.encrypt_folder RefEnv.env (EncryptService.init RefEnv.env false true)
      SampleTree.inp SampleTree.out SampleTree.password SampleTree.w0
  ∧ DecryptService.decrypt_folder RefEnv.env (DecryptService.init RefEnv.env true)
      SampleTree.inp SampleTree.out SampleTree.password SampleTree.w0
    = DecryptService.decrypt_folder RefEnv.env (DecryptService.init RefEnv.env false)
        SampleTree.inp SampleTree.out SampleTree.password SampleTree.w0.
Proof.
  apply (argon2_fallback RefEnv.env true SampleTree.inp SampleTree.out SampleTree.password
           SampleTree.w0).
  reflexivity.
Defined.

(** X10 at the sample encrypted directory, whose salt has 32 bytes. *)
Lemma empty_password_refused_witness :
  DecryptService.decrypt_folder RefEnv.env (DecryptService.init RefEnv.env false)
    ["enc"] ["dec"] [] (SampleManifest.world_with [])
  = (Raise (Exc Exn.DecryptionError "Invalid password: Password cannot be empty"),
     SampleManifest.world_with []).
Proof.
  apply (proj2 (proj2 (empty_password_refused RefEnv.env false ["enc"] ["dec"]
                         (SampleManifest.world_with []) 420 (replicate 32 x07)))).
  - vm_compute. reflexivity.
  - reflexivity.
Defined.

(** ** The manifest, written and read back *)

Section ManifestStore.
Import FS OS Manifest ManifestFacts FileProcessor.

Variable E : Env.t.
Hypothesis unseal_seal :
  ∀ k n p ad, Env.unseal E k n (Env.seal E k n p ad) ad = Some p.
Hypothesis loads_dumps : ∀ j, Env.json_loads E (Env.json_dumps E j) = Some j.
Hypothesis urandom_length : ∀ i n, length (Env.urandom E i n) = n.

(** X12.  The manifest round trip.  In an existing output directory whose
    manifest name is not taken by a directory, [_save_metadata] returns; the
    manifest file then holds a fresh 12-byte nonce followed by the sealed
    JSON document (an existing manifest file is overwritten and keeps its
    mode), nothing else changes, and [_load_metadata] under the same key
    returns the very list that was saved, whatever its entries are. *)
Theorem manifest_round_trip (self : Engine.t) (out : Path.t)
    (mds : list FileMetadata) (w : world) :
  is_dir_node (node_at (fs w) out) = true →
  is_dir_node (fs w !! (out ++ [METADATA_FILENAME])) = false →
  ∃ perm,
    let nonce := Env.urandom E (draws w) Engine.NONCE_SIZE in
    let w' :=
      World (<[out ++ [METADATA_FILENAME] :=
                File perm
                  (nonce ++ Env.seal E (Engine.key self) nonce
                              (Env.json_dumps E (to_dict mds)) Engine.metadata_ad)]>
               (fs w))
        (draws w + 1) in
    _save_metadata E self out mds w = (Ok tt, w')
    ∧ _load_metadata E self out w' = (Ok mds, w')
    ∧ (perm = default_file_perm E
       ∨ ∃ old, fs w !! (out ++ [METADATA_FILENAME]) = Some (File perm old)).
Proof using unseal_seal loads_dumps urandom_length.
  intros Hout Hfree.
  assert (∃ perm,
            open_wb E (out ++ [METADATA_FILENAME])
              (World (fs w) (draws w + 1))
            = (Ok tt, World (<[out ++ [METADATA_FILENAME] := File perm []]> (fs w))
                        (draws w + 1))
            ∧ (perm = default_file_perm E
               ∨ ∃ old, fs w !! (out ++ [METADATA_FILENAME]) = Some (File perm old)))
    as (perm & Hopen & Hperm).
  { unfold open_wb. cbn [fs draws]. rewrite node_at_snoc.
    destruct (fs w !! (out ++ [METADATA_FILENAME])) as [[p|p old]|] eqn:Hm.
    - done.
    - exists p. split; [done|]. right. by exists old.
    - rewrite PathFacts.parent_snoc, Hout. exists (default_file_perm E).
      split; [done|]. by left. }
  exists perm. cbn zeta. split; [|split; [|done]].
  - unfold _save_metadata, try_except_all. rewrite div_metadata_filename.
    unfold bind at 1. unfold generate_nonce, os_urandom.
    unfold bind at 1. unfold lift, Engine.encrypt_metadata.
    unfold write_bytes. unfold bind at 1. rewrite Hopen.
    unfold close_wb. cbn [fs draws]. by rewrite alter_insert_eq.
  - rewrite (load_metadata_file E self out _ perm
               (Env.urandom E (draws w) Engine.NONCE_SIZE
                ++ Env.seal E (Engine.key self)
                     (Env.urandom E (draws w) Engine.NONCE_SIZE)
                     (Env.json_dumps E (to_dict mds)) Engine.metadata_ad)).
    + rewrite take_app_length' by (by rewrite urandom_length).
      rewrite drop_app_length' by (by rewrite urandom_length).
      by rewrite unseal_seal, loads_dumps, of_dict_to_dict.
    + cbn [fs]. by rewrite lookup_insert_eq.
Qed.

End ManifestStore.

(** X12 in the sample directory [enc], for the entries that a schema would
    refuse: they are saved and come back as they are. *)
Lemma manifest_round_trip_witness :
  ∃ perm,
    let nonce := Env.urandom RefEnv.env 0 Engine.NONCE_SIZE in
    let w' :=
      World (<[["enc"; Manifest.METADATA_FILENAME] :=
                FS.File perm
                  (nonce ++ Env.seal RefEnv.env Sample.key nonce
                              (Env.json_dumps RefEnv.env
                                 (Manifest.to_dict SampleManifest.bad_entries))
                              Engine.metadata_ad)]>
               (fs (SampleManifest.world_with [])))
        1 in
    FileProcessor._save_metadata RefEnv.env Sample.engine ["enc"]
      SampleManifest.bad_entries (SampleManifest.world_with []) = (Ok tt, w')
    ∧ FileProcessor._load_metadata RefEnv.env Sample.engine ["enc"] w'
      = (Ok SampleManifest.bad_entries, w')
    ∧ (perm = OS.default_file_perm RefEnv.env
       ∨ ∃ old, fs (SampleManifest.world_with []) !! ["enc"; Manifest.METADATA_FILENAME]
                = Some (FS.File perm old)).
Proof.
  apply (manifest_round_trip RefEnv.env RefAEADFacts.unseal_seal RefJSONFacts.loads_dumps
           (λ i n, length_replicate n _) Sample.engine ["enc"]
           SampleManifest.bad_entries (SampleManifest.world_with [])).
  - reflexivity.
  - vm_compute. reflexivity.
Defined.

(** ** What a refused or failed run leaves behind *)

Module FailureFacts.
Import FS OS Tree.

Lemma decrypt_file_raises unseal (self : Engine.t) (ad : list byte) (s s' : files)
    (e : exn) :
  Engine.decrypt_file unseal self ad s = (Raise e, s') →
  Exn.klass e = Exn.DecryptionError.
Proof.
  unfold Engine.decrypt_file, try_except_all.
  destruct (bind _ _ s) as [[[]|e0] s0]; [done|]. unfold Engine.reraise.
  destruct (Exn.isinstance e0 [Exn.DecryptionError]) eqn:Hi.
  - intros [= <- _]. unfold Exn.isinstance in Hi. cbn in Hi.
    rewrite orb_false_r in Hi. unfold Exn.subclass in Hi.
    destruct (decide _) as [->|]; [done|]. by destruct (Exn.klass e0).
  - by intros [= <- _].
Qed.

Lemma anchored_node_at (m : gmap Path.t node) (p : Path.t) :
  anchored m p → is_dir_node (node_at m p) = true.
Proof.
  intros Ha. destruct p as [|x p]; [done|]. cbn [node_at].
  specialize (Ha (length (x :: p))). rewrite firstn_all in Ha.
  apply Ha. cbn. lia.
Qed.

Lemma world_eta (w : world) : World (fs w) (draws w) = w.
Proof. by destruct w. Qed.

End FailureFacts.

Section RefusedInput.
Import FS OS Manifest ManifestFacts FileProcessor FailureFacts.

Variable E : Env.t.

(** X13.  An input path that is missing or is not a directory.  The tree
    engine refuses it with [FileProcessingError] before it creates anything,
    for encryption and for decryption: the world is left as it was, and the
    output directory is not created.  The services raise as well and leave
    the file system as it was (the encryption service has drawn its salt
    by then). *)
Theorem missing_input_refused (self : Engine.t) (enc_service : EncryptService.t)
    (dec_service : DecryptService.t) (inp out : Path.t) (password : list N)
    (w : world) :
  is_dir_node (node_at (fs w) inp) = false →
  (∃ msg, FileProcessor.encrypt_folder E self inp out w
          = (Raise (Exc Exn.FileProcessingError msg), w))
  ∧ (∃ msg, FileProcessor.decrypt_folder E self inp out w
            = (Raise (Exc Exn.FileProcessingError msg), w))
  ∧ (∃ e w', EncryptService.encrypt_folder E enc_service inp out password w
             = (Raise e, w') ∧ fs w' = fs w)
  ∧ (∃ e, DecryptService.decrypt_folder E dec_service inp out password w
          = (Raise e, w)).
Proof.
  intros Hdir.
  assert (∀ self' w1, fs w1 = fs w →
            ∃ msg, FileProcessor.encrypt_folder E self' inp out w1
                   = (Raise (Exc Exn.FileProcessingError msg), w1)) as Henc.
  { intros self' w1 Hfs. unfold FileProcessor.encrypt_folder.
    unfold bind at 1, exists_ at 1.
    destruct (bool_decide _); cbn [negb]; [|eexists; reflexivity].
    unfold bind at 1, is_dir at 1. rewrite Hfs, Hdir. cbn [negb].
    eexists; reflexivity. }
  assert (∀ self', ∃ msg, FileProcessor.decrypt_folder E self' inp out w
                          = (Raise (Exc Exn.FileProcessingError msg), w)) as Hdec.
  { intros self'. unfold FileProcessor.decrypt_folder.
    unfold bind at 1, exists_ at 1.
    destruct (bool_decide _); cbn [negb]; [|eexists; reflexivity].
    unfold bind at 1, is_dir at 1. rewrite Hdir. cbn [negb]. eexists; reflexivity. }
  split; [by apply Henc|]. split; [apply Hdec|]. split.
  - assert (∃ e w',
              try_except_all
                (let* salt := KeyDerivation.generate_salt E in
                 let* key :=
                   lift (KeyDerivation.derive_key E
                           (EncryptService.key_derivation enc_service) password salt) in
                 let* crypto_engine := lift (Engine.init key) in
                 FileProcessor.encrypt_folder E crypto_engine inp out ;;;
                 OS.write_bytes E (EncryptService.salt_file out) salt)
                (λ e, if Exn.isinstance e [Exn.InvalidPasswordError;
                                           Exn.EncryptionError;
                                           Exn.FileProcessingError]
                      then raise e
                      else raise (Exc Exn.EncryptionError
                                    ("Encryption failed: " +:+ Exn.message e))) w
              = (Raise e, w') ∧ fs w' = fs w) as Hbody.
    { unfold try_except_all. unfold bind at 1.
      unfold KeyDerivation.generate_salt, os_urandom.
      set (w1 := World (fs w) (draws w + 1)).
      unfold bind at 1, lift at 1.
      destruct (KeyDerivation.derive_key E _ password _) as [key|e].
      2:{ destruct (Exn.isinstance e _); by eexists _, w1. }
      unfold bind at 1, lift at 1.
      destruct (Engine.init key) as [crypto_engine|e].
      2:{ destruct (Exn.isinstance e _); by eexists _, w1. }
      unfold bind at 1.
      destruct (Henc crypto_engine w1 eq_refl) as [msg ->].
      by eexists _, w1. }
    unfold EncryptService.encrypt_folder. unfold bind at 1.
    destruct (EncryptService.verify_password_strength enc_service).
    + destruct (KeyDerivation.verify_password_strength E password) as [[|] msg];
        cbn [negb]; [|by eexists _, _].
      unfold ret at 1. apply Hbody.
    + unfold ret at 1. apply Hbody.
  - unfold DecryptService.decrypt_folder, try_except_all.
    unfold bind at 1, exists_ at 1.
    destruct (bool_decide _); cbn [negb]; [|by eexists].
    unfold bind at 1.
    destruct (open_rb _ w) as [[salt|e] w1] eqn:Hopen.
    2:{ assert (w1 = w) as ->.
        { revert Hopen. unfold open_rb.
          destruct (node_at _ (DecryptService.salt_file inp)) as [[|]|]; congruence. }
        destruct (Exn.isinstance e _); by eexists. }
    assert (w1 = w) as ->.
    { revert Hopen. unfold open_rb.
      destruct (node_at _ (DecryptService.salt_file inp)) as [[|]|]; congruence. }
    destruct (decide _); [by eexists|].
    unfold bind at 1, try_except, lift at 1.
    destruct (KeyDerivation.derive_key E _ password salt) as [key|e].
    2:{ destruct (Exn.isinstance e [Exn.InvalidPasswordError]).
        - by eexists.
        - destruct (Exn.isinstance e _); by eexists. }
    unfold bind at 1, lift at 1.
    destruct (Engine.init key) as [crypto_engine|e].
    2:{ destruct (Exn.isinstance e _); by eexists. }
    destruct (Hdec crypto_engine) as [msg ->].
    by eexists.
Qed.

End RefusedInput.

(** X13 at the sample tree, with the file [in/hello.txt] given as the input
    folder. *)
Lemma missing_input_refused_witness :
  (∃ msg, FileProcessor.encrypt_folder RefEnv.env Sample.engine ["in"; "hello.txt"]
            SampleTree.out SampleTree.w0
          = (Raise (Exc Exn.FileProcessingError msg), SampleTree.w0))
  ∧ (∃ msg, FileProcessor.decrypt_folder RefEnv.env Sample.engine ["in"; "hello.txt"]
              SampleTree.out SampleTree.w0
            = (Raise (Exc Exn.FileProcessingError msg), SampleTree.w0))
  ∧ (∃ e w', EncryptService.encrypt_folder RefEnv.env SampleTree.enc_service
               ["in"; "hello.txt"] SampleTree.out SampleTree.password SampleTree.w0
             = (Raise e, w') ∧ fs w' = fs SampleTree.w0)
  ∧ (∃ e, DecryptService.decrypt_folder RefEnv.env SampleTree.dec_service
            ["in"; "hello.txt"] SampleTree.out SampleTree.password SampleTree.w0
          = (Raise e, SampleTree.w0)).
Proof.
  apply (missing_input_refused RefEnv.env Sample.engine SampleTree.enc_service
           SampleTree.dec_service ["in"; "hello.txt"] SampleTree.out SampleTree.password
           SampleTree.w0).
  vm_compute. reflexivity.
Defined.

Section FailedDecryption.
Import FS OS Tree Manifest ManifestFacts FileProcessor FailureFacts DecryptFacts.
Import OSFacts PathFacts.

Variable E : Env.t.

(** What the loop of [decrypt_folder] does with a file entry up to the
    call of [decrypt_file]: the target directory exists, the ciphertext is
    read, the target file is created or emptied, and the relative path is
    encoded. *)
Lemma decrypt_item_run (self : Engine.t) (out dec : Path.t) (rel : list string)
    (md : FileMetadata) (w : world) (perm : N) (data ad : list byte) :
  relative_path md = JStr (Path.str_rel rel) →
  Py.truthy (is_directory md) = false →
  rel ≠ [] → Forall (λ x, Path.valid_name x = true) rel →
  fs w !! (out ++ Path.add_ext ENCRYPTED_EXTENSION rel) = Some (File perm data) →
  is_dir_node (fs w !! (dec ++ rel)) = false →
  anchored (fs w) (dec ++ Path.parent rel) →
  Utf8.encode (Path.join rel) = Ok ad →
  ∃ perm',
    decrypt_item E self out dec md w
    = try_except_all
        (with_files (dec ++ rel) data (Engine.decrypt_file (Env.unseal E) self ad) ;;;
         let* st := stat (dec ++ rel) in
         let decrypted_size := st_size st in
         if negb (Py.eq_int (original_size md) (Z.of_N decrypted_size)) then
           raise (Exc Exn.FileProcessingError
                    ("Size mismatch for " +:+ Path.join rel
                     +:+ ": expected " +:+ Env.str_of E (original_size md)
                     +:+ ", got " +:+ pretty decrypted_size))
         else restore_permissions E (dec ++ rel) (permissions md))
        (λ e, if Exn.isinstance e [Exn.FileProcessingError] then raise e
              else raise (Exc Exn.FileProcessingError
                            ("Failed to decrypt " +:+ Path.join rel
                             +:+ ": " +:+ Exn.message e)))
        (World (<[dec ++ rel := File perm' []]> (fs w)) (draws w)).
Proof.
  intros Hrel Hfile Hne Hval Hsrc Htarget Hanc Had.
  assert (∀ m : gmap Path.t node,
            node_at m (out ++ Path.add_ext ENCRYPTED_EXTENSION rel)
            = m !! (out ++ Path.add_ext ENCRYPTED_EXTENSION rel)) as Hns.
  { intros m. apply node_at_app_ne. by apply add_ext_nonempty. }
  assert (∀ m : gmap Path.t node, node_at m (dec ++ rel) = m !! (dec ++ rel))
    as Hnt by (intros m; by apply node_at_app_ne).
  assert (∃ perm',
            open_wb E (dec ++ rel) w
            = (Ok tt, World (<[dec ++ rel := File perm' []]> (fs w)) (draws w)))
    as [perm' Hopen].
  { unfold open_wb. rewrite Hnt.
    destruct (fs w !! (dec ++ rel)) as [[p|p old]|] eqn:Hm.
    - done.
    - by exists p.
    - rewrite parent_app by done. rewrite (anchored_node_at _ _ Hanc). by eexists. }
  exists perm'. unfold decrypt_item. rewrite Hrel, Hfile.
  rewrite str_parse_rel, div_rel_ext, div_rel by done.
  rewrite parent_app by done. rewrite (str_rel_join rel) by done.
  unfold bind at 1.
  assert (mkdir_parents E (dec ++ Path.parent rel) w = (Ok tt, w)) as ->.
  { unfold mkdir_parents. rewrite (mkdir_from_succeeds E).
    - rewrite anchored_mkdirs by done. by rewrite world_eta.
    - intros k Hk p c Hp. specialize (Hanc k Hk). cbn [app] in Hp.
      by rewrite Hp in Hanc. }
  unfold bind at 1, exists_ at 1. rewrite Hns, Hsrc.
  rewrite bool_decide_true by eauto. cbn [negb].
  unfold try_except_all. unfold bind at 1, open_rb at 1. rewrite Hns, Hsrc.
  unfold bind at 1. rewrite Hopen.
  unfold bind at 1, lift at 1. rewrite Had. reflexivity.
Qed.

(** X14.  A file whose decryption fails is left behind.  Take a file entry
    of the manifest as [encrypt_folder] writes it (a relative path of
    valid names that can be encoded), whose ciphertext is there, whose
    target is another path and not a directory, and whose target
    directory exists, in a world that refuses no access to its owner.
    When [decrypt_file] raises on the ciphertext, the loop of
    [decrypt_folder] raises [FileProcessingError] with the message of that
    error after ["Failed to decrypt <path>: "], and the target file stays,
    holding what [decrypt_file] had written when it raised; nothing removes
    it. *)
Theorem failed_decryption_leaves_output (self : Engine.t) (out dec : Path.t)
    (rel : list string) (md : FileMetadata) (w : world) (perm : N)
    (data ad : list byte) (e : exn) (f : files) :
  relative_path md = JStr (Path.str_rel rel) →
  Py.truthy (is_directory md) = false →
  rel ≠ [] → Forall (λ x, Path.valid_name x = true) rel →
  fs w !! (out ++ Path.add_ext ENCRYPTED_EXTENSION rel) = Some (File perm data) →
  dec ++ rel ≠ out ++ Path.add_ext ENCRYPTED_EXTENSION rel →
  is_dir_node (fs w !! (dec ++ rel)) = false →
  anchored (fs w) (dec ++ Path.parent rel) →
  Scope.accessible out (fs w) = true →
  Utf8.encode (Path.join rel) = Ok ad →
  Engine.decrypt_file (Env.unseal E) self ad (open_files data) = (Raise e, f) →
  ∃ perm',
    decrypt_item E self out dec md w
    = (Raise (Exc Exn.FileProcessingError
                ("Failed to decrypt " +:+ Path.join rel +:+ ": " +:+ Exn.message e)),
       World (<[dec ++ rel := File perm' (out_data f)]> (fs w)) (draws w)).
Proof.
  intros Hrel Hfile Hne Hval Hsrc _ Htarget Hanc _ Had Hdec.
  destruct (decrypt_item_run self out dec rel md w perm data ad
              Hrel Hfile Hne Hval Hsrc Htarget Hanc Had) as [perm' ->].
  exists perm'. unfold try_except_all.
  unfold bind at 1, with_files at 1. rewrite Hdec. cbn [fs draws].
  rewrite alter_insert_eq. cbn [set_content].
  apply decrypt_file_raises in Hdec.
  unfold Exn.isinstance, Exn.subclass. rewrite Hdec. cbn. reflexivity.
Qed.

(** X19.  The size recorded in the manifest is checked after the file is
    written.  For a file entry as [encrypt_folder] writes it, whose
    ciphertext is there, whose target is another path and not a
    directory, and whose target directory exists, in a world that refuses
    no access to its owner: when [decrypt_file] returns but has written a
    number of bytes other than the [original_size] of the entry (a
    ciphertext cut at a record with its header adjusted, or another file's
    ciphertext), the loop of [decrypt_folder] raises [FileProcessingError]
    with the two sizes in its message, no mode is restored, and the target
    file stays with what was written. *)
Theorem size_mismatch_detected (self : Engine.t) (out dec : Path.t)
    (rel : list string) (md : FileMetadata) (w : world) (perm : N)
    (data ad : list byte) (f : files) :
  relative_path md = JStr (Path.str_rel rel) →
  Py.truthy (is_directory md) = false →
  rel ≠ [] → Forall (λ x, Path.valid_name x = true) rel →
  fs w !! (out ++ Path.add_ext ENCRYPTED_EXTENSION rel) = Some (File perm data) →
  dec ++ rel ≠ out ++ Path.add_ext ENCRYPTED_EXTENSION rel →
  is_dir_node (fs w !! (dec ++ rel)) = false →
  anchored (fs w) (dec ++ Path.parent rel) →
  Scope.accessible out (fs w) = true →
  Utf8.encode (Path.join rel) = Ok ad →
  Engine.decrypt_file (Env.unseal E) self ad (open_files data) = (Ok tt, f) →
  Py.eq_int (original_size md) (Z.of_N (N.of_nat (length (out_data f)))) = false →
  ∃ perm',
    decrypt_item E self out dec md w
    = (Raise (Exc Exn.FileProcessingError
                ("Size mismatch for " +:+ Path.join rel
                 +:+ ": expected " +:+ Env.str_of E (original_size md)
                 +:+ ", got " +:+ pretty (N.of_nat (length (out_data f))))),
       World (<[dec ++ rel := File perm' (out_data f)]> (fs w)) (draws w)).
Proof.
  intros Hrel Hfile Hne Hval Hsrc _ Htarget Hanc _ Had Hdec Hsize.
  destruct (decrypt_item_run self out dec rel md w perm data ad
              Hrel Hfile Hne Hval Hsrc Htarget Hanc Had) as [perm' ->].
  exists perm'. unfold try_except_all.
  unfold bind at 1, with_files at 1. rewrite Hdec. cbn [fs draws].
  rewrite alter_insert_eq. cbn [set_content].
  unfold bind at 1, stat at 1. cbn [fs].
  rewrite node_at_app_ne by done.
  rewrite lookup_insert_eq. cbn [st_size]. rewrite Hsize. cbn [negb].
  reflexivity.
Qed.

End FailedDecryption.

(** X14 on a ciphertext of "Hello, World!" with a damaged record after it:
    the 13 bytes are left in [dec/f]. *)
Lemma failed_decryption_leaves_output_witness :
  ∃ perm',
    FileProcessor.decrypt_item RefEnv.env Sample.engine ["enc"] ["dec"] SampleDamaged.md
      SampleDamaged.w
    = (Raise (Exc Exn.FileProcessingError
                ("Failed to decrypt " +:+ Path.join ["f"] +:+ ": "
                 +:+ Exn.message (Exc Exn.DecryptionError Engine.decryption_failed))),
       World (<[["dec"] ++ ["f"] :=
                 FS.File perm'
                   (out_data (Files SampleDamaged.ciphertext
                                (length SampleDamaged.ciphertext) Sample.hello))]>
                (fs SampleDamaged.w))
         (draws SampleDamaged.w)).
Proof.
  apply (failed_decryption_leaves_output RefEnv.env Sample.engine ["enc"] ["dec"] ["f"]
           SampleDamaged.md SampleDamaged.w 420 SampleDamaged.ciphertext
           (Sample.bytes_of_string "f")
           (Exc Exn.DecryptionError Engine.decryption_failed)
           (Files SampleDamaged.ciphertext (length SampleDamaged.ciphertext)
              Sample.hello)).
  - reflexivity.
  - reflexivity.
  - discriminate.
  - repeat constructor.
  - vm_compute. reflexivity.
  - discriminate.
  - vm_compute. reflexivity.
  - intros k Hk. cbn in Hk. assert (k = 1%nat) as -> by lia. vm_compute. reflexivity.
  - vm_compute. reflexivity.
  - vm_compute. reflexivity.
  - vm_compute. reflexivity.
Defined.

(** X19 on the header of an empty file in the place of a ciphertext of 13
    bytes: [decrypt_file] accepts it, the size check does not. *)
Lemma size_mismatch_detected_witness :
  ∃ perm',
    FileProcessor.decrypt_item RefEnv.env Sample.engine ["enc"] ["dec"] SampleDamaged.md
      SampleDamaged.w_cut
    = (Raise (Exc Exn.FileProcessingError
                ("Size mismatch for " +:+ Path.join ["f"]
                 +:+ ": expected "
                 +:+ Env.str_of RefEnv.env (original_size SampleDamaged.md)
                 +:+ ", got "
                 +:+ pretty (N.of_nat
                               (length (out_data (Files (Format.header Sample.nonce 0)
                                                    21 [])))))),
       World (<[["dec"] ++ ["f"] :=
                 FS.File perm'
                   (out_data (Files (Format.header Sample.nonce 0) 21 []))]>
                (fs SampleDamaged.w_cut))
         (draws SampleDamaged.w_cut)).
Proof.
  apply (size_mismatch_detected RefEnv.env Sample.engine ["enc"] ["dec"] ["f"]
           SampleDamaged.md SampleDamaged.w_cut 420 (Format.header Sample.nonce 0)
           (Sample.bytes_of_string "f")
           (Files (Format.header Sample.nonce 0) 21 [])).
  - reflexivity.
  - reflexivity.
  - discriminate.
  - repeat constructor.
  - vm_compute. reflexivity.
  - discriminate.
  - vm_compute. reflexivity.
  - intros k Hk. cbn in Hk. assert (k = 1%nat) as -> by lia. vm_compute. reflexivity.
  - vm_compute. reflexivity.
  - vm_compute. reflexivity.
  - vm_compute. reflexivity.
  - reflexivity.
Defined.

(** The message of the size check on this input, as it is printed. *)
Example size_mismatch_message :
  (FileProcessor.decrypt_item RefEnv.env Sample.engine ["enc"] ["dec"] SampleDamaged.md
     SampleDamaged.w_cut).1
  = Raise (Exc Exn.FileProcessingError "Size mismatch for f: expected 13, got 0").
Proof. vm_compute. reflexivity. Qed.

(** ** What the header of an encrypted file is worth *)

Section UnauthenticatedHeader.
Import Struct Engine Format StructFacts EngineFacts DamageFacts.

Variable seal : list byte → list byte → list byte → list byte → list byte.
Variable unseal : list byte → list byte → list byte → list byte → option (list byte).
Hypothesis seal_length : ∀ k n p ad, length (seal k n p ad) = (length p + TAG_SIZE)%nat.
Hypothesis unseal_seal : ∀ k n p ad, unseal k n (seal k n p ad) ad = Some p.

(** X15.  The size in the header is not authenticated.  When an encrypted
    file is cut after its first [k] records and the size in its header is
    set to the length of their plaintext, [decrypt_file] accepts it and
    writes that prefix of the plaintext.  In particular the 21 bytes that
    [encrypt_file] writes for an empty file are accepted under every key
    and every associated data. *)
Theorem patched_truncation_accepted (self other : Engine.t)
    (nonce ad ad' data : list byte) (k : nat) :
  length nonce = NONCE_SIZE →
  N.of_nat (length data) < 2 ^ 64 →
  let kept := take k (chunks data) in
  let cut :=
    header nonce (N.of_nat (length (concat kept)))
    ++ raw_records (take k (sealed seal (key self) nonce ad 0 (chunks data))) in
  decrypt_file unseal self ad (open_files cut)
  = (Ok tt, Files cut (length cut) (concat kept))
  ∧ encrypt_file seal self nonce ad (open_files []) = (Ok tt, Files [] 0 (header nonce 0))
  ∧ decrypt_file unseal other ad' (open_files (header nonce 0))
    = (Ok tt, Files (header nonce 0) 21 []).
Proof using seal_length unseal_seal.
  intros Hn Hsz kept cut.
  pose proof (split_chunks_length (S (length data)) data) as Hlen.
  fold (chunks data) in Hlen.
  assert (length (concat kept) ≤ length data)%nat as Hkept.
  { assert (length data
            = length (concat (take k (chunks data) ++ drop k (chunks data)))) as ->.
    { rewrite take_drop. unfold chunks. rewrite split_chunks_concat; [done|lia]. }
    rewrite concat_app, length_app. fold kept. lia. }
  split; [|split].
  - rewrite (decrypt_file_opens unseal self ad (open_files cut) nonce
               (N.of_nat (length (concat kept)))
               (take k (sealed seal (key self) nonce ad 0 (chunks data))) kept).
    + rewrite decide_False by (intros H; by apply H). done.
    + done.
    + unfold kept. rewrite sealed_take. apply opens_sealed. done.
    + done.
    + lia.
    + rewrite length_take, length_sealed. lia.
    + apply Forall_take. apply (sealed_bound seal seal_length), chunks_bound.
  - rewrite (encrypt_file_ok seal seal_length); [|done|cbn; lia].
    cbn [open_files in_data out_data length app].
    unfold file, records, chunks. cbn [length split_chunks].
    rewrite take_nil. cbn. by rewrite app_nil_r.
  - rewrite (decrypt_file_opens unseal other ad' (open_files (header nonce 0)) nonce 0
               [] []).
    + rewrite decide_False by (intros H; by apply H).
      unfold rest, open_files. cbn [in_data in_pos out_data concat app].
      rewrite drop_0. unfold header. rewrite !length_app, !length_le_bytes, Hn.
      done.
    + unfold rest. cbn. by rewrite app_nil_r.
    + constructor.
    + done.
    + lia.
    + cbn. lia.
    + constructor.
Qed.

End UnauthenticatedHeader.

(** X15 at a file of 65537 bytes cut after the first of its two records, and
    at the empty file under another key and another path. *)
Lemma patched_truncation_accepted_witness :
  let kept := take 1 (Format.chunks Sample.long_chunk) in
  let cut :=
    Format.header Sample.nonce (N.of_nat (length (concat kept)))
    ++ Format.raw_records
         (take 1 (Format.sealed RefAEAD.seal (Engine.key Sample.engine) Sample.nonce
                    (Sample.bytes_of_string "f") 0 (Format.chunks Sample.long_chunk))) in
  Engine.decrypt_file RefAEAD.unseal Sample.engine (Sample.bytes_of_string "f")
    (open_files cut)
  = (Ok tt, Files cut (length cut) (concat kept))
  ∧ Engine.encrypt_file RefAEAD.seal Sample.engine Sample.nonce
      (Sample.bytes_of_string "f") (open_files [])
    = (Ok tt, Files [] 0 (Format.header Sample.nonce 0))
  ∧ Engine.decrypt_file RefAEAD.unseal (Engine.Make Sample.other_key)
      (Sample.bytes_of_string "g") (open_files (Format.header Sample.nonce 0))
    = (Ok tt, Files (Format.header Sample.nonce 0) 21 []).
Proof.
  apply (patched_truncation_accepted RefAEAD.seal RefAEAD.unseal RefAEADFacts.seal_length
           RefAEADFacts.unseal_seal Sample.engine (Engine.Make Sample.other_key)
           Sample.nonce (Sample.bytes_of_string "f") (Sample.bytes_of_string "g")
           Sample.long_chunk 1).
  - reflexivity.
  - vm_compute. reflexivity.
Defined.

(** ** The helpers *)

Module HelperFacts.
Import FS OS Tree Helpers CollectFacts EntryFacts.





End HelperFacts.

Section FolderSize.
Import FS OS Tree Helpers CollectFacts EntryFacts HelperFacts.

Variable E : Env.t.
Hypothesis scan_perm : ∀ l, Env.scan E l ≡ₚ l.


End FolderSize.

Module SampleEntriesFacts.
Import FS Tree.



End SampleEntriesFacts.


(** ** Backup names *)

Module BackupFacts.
Import FS OS Helpers PathFacts.

Lemma append_inj (a b c : string) : a +:+ b = a +:+ c → b = c.
Proof.
  induction a as [|x a IH]; [done|]. rewrite !append_cons. intros [= H]. by apply IH.
Qed.

Lemma pretty_go_no_slash (x : N) : ∀ s,
  Path.has_slash s = false → Path.has_slash (pretty_N_go x s) = false.
Proof.
  induction (N.lt_wf_0 x) as [x _ IH]. intros s Hs.
  destruct (decide (x = 0)) as [->|Hx]; [by rewrite pretty_N_go_0|].
  rewrite pretty_N_go_step by lia. apply IH; [apply N.div_lt; lia|].
  cbn [Path.has_slash]. rewrite Hs, orb_false_r.
  unfold pretty_N_char. by repeat case_match.
Qed.

Lemma pretty_no_slash (c : N) : Path.has_slash (pretty c) = false.
Proof.
  unfold pretty, pretty_N. destruct (decide (c = 0)); [done|].
  by apply pretty_go_no_slash.
Qed.

Lemma string_length_ne (a b : string) : String.length a ≠ String.length b → a ≠ b.
Proof. by intros H ->. Qed.

(** The backup path is a sibling of the original path. *)
Lemma backup_path_snoc (p : Path.t) (c : N) :
  Path.has_slash (name p) = false →
  backup_path p c = Path.parent p ++ [name p +:+ ".backup" +:+ pretty c].
Proof.
  intros Hname. unfold backup_path.
  set (s := name p +:+ ".backup" +:+ pretty c).
  assert (Path.has_slash s = false) as Hs.
  { unfold s. rewrite !has_slash_append, Hname, pretty_no_slash. done. }
  assert (7 ≤ String.length s)%nat as Hlen.
  { unfold s. rewrite !length_append. cbn. lia. }
  assert (s ≠ "" ∧ s ≠ "." ∧ s ≠ "..") as (H1 & H2 & H3).
  { repeat split; apply string_length_ne; cbn; lia. }
  unfold Path.div, Path.parse. cbn [Path.absolute Path.parts].
  rewrite (split_no_slash s Hs).
  assert (match s with String ch _ => Ascii.eqb ch Path.slash | _ => false end = false)
    as ->.
  { destruct s as [|ch s']; [done|]. cbn in Hs. by apply orb_false_elim in Hs as [-> _]. }
  cbn [List.filter]. unfold Path.keep.
  apply String.eqb_neq in H1, H2, H3. rewrite H1, H2. cbn [negb andb Path.resolve].
  by rewrite H3.
Qed.

Lemma backup_path_inj (p : Path.t) (c c' : N) :
  Path.has_slash (name p) = false → backup_path p c = backup_path p c' → c = c'.
Proof.
  intros Hname. rewrite !backup_path_snoc by done.
  intros H%app_inv_head. injection H as H.
  apply append_inj, append_inj in H. by apply (inj pretty) in H.
Qed.

Lemma backup_loop_finds (p : Path.t) (w : world) : ∀ (fuel : nat) (c0 c : N),
  c0 ≤ c → (N.to_nat (c - c0) < fuel)%nat →
  node_at (fs w) (backup_path p c) = None →
  (∀ c', c0 ≤ c' < c → is_Some (node_at (fs w) (backup_path p c'))) →
  backup_loop fuel p c0 w = (Ok (Some (backup_path p c)), w).
Proof.
  induction fuel as [|fuel IH]; intros c0 c Hle Hfuel Habs Hpres; [lia|].
  cbn [backup_loop]. unfold bind, exists_.
  destruct (decide (c0 = c)) as [->|Hne].
  - rewrite Habs. rewrite bool_decide_false by (by intros [? ?]). done.
  - rewrite bool_decide_true by (apply Hpres; lia). cbn [negb].
    apply IH; [lia|lia|done|]. intros c' Hc'. apply Hpres. lia.
Qed.

(** The least counter from [lo] on whose backup path is absent. *)
Lemma least_absent (p : Path.t) (m : gmap Path.t node) : ∀ (k : nat) (lo : N),
  (∃ c, lo ≤ c < lo + N.of_nat k ∧ node_at m (backup_path p c) = None) →
  ∃ c, lo ≤ c < lo + N.of_nat k ∧ node_at m (backup_path p c) = None
       ∧ ∀ c', lo ≤ c' < c → is_Some (node_at m (backup_path p c')).
Proof.
  induction k as [|k IH]; intros lo (c & Hc & Habs); [lia|].
  destruct (node_at m (backup_path p lo)) as [n|] eqn:Hlo.
  - destruct (IH (lo + 1)) as (c1 & Hc1 & Habs1 & Hpres1).
    { exists c. split; [|done]. assert (c ≠ lo) by (intros ->; congruence). lia. }
    exists c1. split; [lia|]. split; [done|]. intros c' Hc'.
    destruct (decide (c' = lo)) as [->|]; [by rewrite Hlo|]. apply Hpres1. lia.
  - exists lo. split; [lia|]. split; [done|]. intros c' Hc'. lia.
Qed.

(** Among [size m + 1] backup paths, one is absent. *)
Lemma some_absent (p : Path.t) (m : gmap Path.t node) :
  Path.has_slash (name p) = false →
  ∃ c, 1 ≤ c < 1 + N.of_nat (S (size m)) ∧ node_at m (backup_path p c) = None.
Proof.
  intros Hname.
  set (cs := N.of_nat <$> seq 1 (S (size m))).
  destruct (decide (Exists (λ c, m !! backup_path p c = None) cs)) as [Hex|Hno].
  - apply Exists_exists in Hex as (c & Hin & Habs). exists c.
    apply list_elem_of_fmap in Hin as (i & -> & Hi%elem_of_seq). split; [lia|].
    rewrite backup_path_snoc in * by done. by rewrite ManifestFacts.node_at_snoc.
  - exfalso. apply not_Exists_Forall in Hno; [|apply _].
    assert (length (backup_path p <$> cs) ≤ length (map_to_list m).*1)%nat as Hlen.
    { apply submseteq_length, NoDup_submseteq.
      - apply NoDup_fmap_2_strong.
        + intros c c' _ _. by apply backup_path_inj.
        + unfold cs. apply NoDup_fmap_2; [apply _|apply NoDup_seq].
      - intros q (c & -> & Hc)%list_elem_of_fmap.
        rewrite Forall_forall in Hno. specialize (Hno c Hc). cbn in Hno.
        destruct (m !! backup_path p c) as [n|] eqn:Hn; [|done].
        apply list_elem_of_fmap. exists (backup_path p c, n). split; [done|].
        by apply elem_of_map_to_list. }
    unfold cs in Hlen. rewrite !length_fmap, length_seq, length_map_to_list in Hlen. lia.
Qed.

End BackupFacts.

Section BackupName.
Import FS OS Helpers BackupFacts.

(** X17.  [create_backup_name] returns a path that does not exist: the
    sibling [<name>.backup<c>] of the original path for the least counter
    [c >= 1] whose sibling is absent, every smaller counter being taken.
    The loop ends: [c] is at most the number of entries of the file system
    plus one, and [c] iterations suffice.  Nothing is created. *)
Theorem backup_name_fresh (original_path : Path.t) (w : world) :
  Path.has_slash (name original_path) = false →
  ∃ c,
    1 ≤ c ≤ N.of_nat (size (fs w)) + 1
    ∧ backup_path original_path c
      = Path.parent original_path
        ++ [name original_path +:+ ".backup" +:+ pretty c]
    ∧ node_at (fs w) (backup_path original_path c) = None
    ∧ (∀ c', 1 ≤ c' < c → is_Some (node_at (fs w) (backup_path original_path c')))
    ∧ ∀ fuel, (N.to_nat c ≤ fuel)%nat →
        create_backup_name fuel original_path w
        = (Ok (Some (backup_path original_path c)), w).
Proof.
  intros Hname.
  destruct (least_absent original_path (fs w) (S (size (fs w))) 1
              (some_absent original_path (fs w) Hname))
    as (c & Hc & Habs & Hpres).
  exists c. split; [lia|]. split; [by apply backup_path_snoc|].
  split; [done|]. split; [done|].
  intros fuel Hfuel. unfold create_backup_name.
  apply backup_loop_finds; [lia|lia|done|done].
Qed.

End BackupName.

(** X17 at [in/hello.txt] of the sample tree. *)
Lemma backup_name_fresh_witness :
  ∃ c,
    1 ≤ c ≤ N.of_nat (size (fs SampleTree.w0)) + 1
    ∧ Helpers.backup_path ["in"; "hello.txt"] c
      = Path.parent ["in"; "hello.txt"]
        ++ [Helpers.name ["in"; "hello.txt"] +:+ ".backup" +:+ pretty c]
    ∧ FS.node_at (fs SampleTree.w0) (Helpers.backup_path ["in"; "hello.txt"] c) = None
    ∧ (∀ c', 1 ≤ c' < c →
         is_Some (FS.node_at (fs SampleTree.w0)
                    (Helpers.backup_path ["in"; "hello.txt"] c')))
    ∧ ∀ fuel, (N.to_nat c ≤ fuel)%nat →
        Helpers.create_backup_name fuel ["in"; "hello.txt"] SampleTree.w0
        = (Ok (Some (Helpers.backup_path ["in"; "hello.txt"] c)), SampleTree.w0).
Proof.
  apply (backup_name_fresh ["in"; "hello.txt"] SampleTree.w0).
  reflexivity.
Defined.

(** ** Encrypting one file of the tree *)

Section EncryptOneFile.
Import FS OS Tree MonadFacts OSFacts TreeFacts PathFacts Manifest FileProcessor.
Import EncryptFacts.

Variable E : Env.t.
Hypothesis seal_length :
  ∀ k n p ad, length (Env.seal E k n p ad) = (length p + Engine.TAG_SIZE)%nat.
Hypothesis urandom_length : ∀ i n, length (Env.urandom E i n) = n.


End EncryptOneFile.

